(** * WGUPS package routing: the routing program of [main.py], embedded and verified

    The Python program keeps its packages in a chaining hash table, loads
    them onto trucks under capacity, availability, affinity and grouping
    constraints, delivers them nearest-destination-first, and then answers
    status queries.  This file embeds the classes and functions of
    [main.py] as Rocq functions and proves (or refutes on concrete inputs)
    the properties stated about them.

    Conventions of the embedding
    - Python [int] is [Z].
    - A [datetime] is the number of microseconds since midnight of the day
      of the run, a [timedelta] a number of microseconds, both in [Z].
    - A Python [float] is an exact rational in [Q]: rounding of the binary
      floating-point operations is not modelled.
    - A raised exception is a value [Raise e] of the type [result]; code that
      runs to its end returns [Ok].
    - Objects mutated in place (the trucks, the package records held by the
      hash table, the two pending lists) are passed and returned
      explicitly. *)

From Stdlib Require Import ZArith QArith Qround Lia Bool.
From stdpp Require Import base option list gmap.

Local Open Scope Z_scope.

(** ** Python semantics used by the program *)

Inductive exn : Type :=
  | AttributeError
  | IndexError
  | KeyError
  | ValueError
  | ZeroDivisionError
  | EOFError.

Inductive result (A : Type) : Type :=
  | Ok (a : A)
  | Raise (e : exn).
Arguments Ok {A} a.
Arguments Raise {A} e.

Definition rbind {A B : Type} (m : result A) (k : A -> result B) : result B :=
  match m with
  | Ok a => k a
  | Raise e => Raise e
  end.

Notation "'let*' x ':=' m 'in' k" := (rbind m (fun x => k))
  (at level 10, x pattern, m at level 100, k at level 200).

(** [hash(key)] of a Python [int] on a 64-bit build: the value reduced modulo
    the Mersenne prime 2^61 - 1, with the sign of the key, and -1 replaced by
    -2. *)
Definition hash (key : Z) : Z :=
  let h := Z.sgn key * (Z.abs key mod (2 ^ 61 - 1)) in
  if h =? -1 then -2 else h.

(** [l[i]] on a Python list: negative indices count from the end, anything
    outside [-len, len) raises IndexError. *)
Definition py_index {A : Type} (l : list A) (i : Z) : result A :=
  let n := Z.of_nat (length l) in
  let j := if i <? 0 then n + i else i in
  if (j <? 0) || (n <=? j) then Raise IndexError
  else match l !! Z.to_nat j with
       | Some x => Ok x
       | None => Raise IndexError
       end.

(** [x in l] on a list of ints. *)
Definition py_in (x : Z) (l : list Z) : bool := bool_decide (x ∈ l).

(** [l.remove(x)]: deletes the first occurrence, ValueError when there is
    none. *)
Fixpoint py_remove (x : Z) (l : list Z) : result (list Z) :=
  match l with
  | [] => Raise ValueError
  | y :: rest =>
      if y =? x then Ok rest
      else let* rest' := py_remove x rest in Ok (y :: rest')
  end.

(** Rounding of a rational to the nearest integer, ties to even, as
    [timedelta] rounds a fractional number of microseconds. *)
Definition round_half_even (q : Q) : Z :=
  let f := Qfloor q in
  let r := (q - inject_Z f)%Q in
  match (r ?= 1 # 2)%Q with
  | Lt => f
  | Gt => f + 1
  | Eq => if Z.even f then f else f + 1
  end.

(** [datetime.timedelta(seconds=x)] for a float [x], in microseconds. *)
Definition timedelta_seconds (x : Q) : Z :=
  round_half_even (x * 1000000)%Q.

(** [datetime.combine(date.today(), time(h, m, s))], in microseconds since
    midnight. *)
Definition time_of (h m s : Z) : Z := ((h * 60 + m) * 60 + s) * 1000000.

(** ** class ChainHashTable *)

Module ChainHashTable.
(** [self.table]: a list of buckets, each a list of [key, item] pairs. *)
Abbreviation table V := (list (list (Z * V))).

Section Table.
Context {V : Type}.

(** [__init__]: [initial_capacity] empty buckets ([range] of a negative
    number is empty). *)
Definition init (initial_capacity : Z) : table V :=
  replicate (Z.to_nat initial_capacity) [].

(** [hash(key) % len(self.table)]; Python's [%] takes the sign of the
    divisor and raises on a zero divisor. *)
Definition bucket (key : Z) (self : table V) : result nat :=
  if Z.of_nat (length self) =? 0 then Raise ZeroDivisionError
  else Ok (Z.to_nat (hash key mod Z.of_nat (length self))).

(** The loop of [insert] over one bucket: overwrite the first pair with
    this key, else append a new pair. *)
Fixpoint insert_chain (key : Z) (item : V) (bucket_list : list (Z * V))
  : list (Z * V) :=
  match bucket_list with
  | [] => [(key, item)]
  | kv :: rest =>
      if kv.1 =? key then (kv.1, item) :: rest
      else kv :: insert_chain key item rest
  end.

Definition insert (key : Z) (item : V) (self : table V) : result (table V) :=
  let* b := bucket key self in
  Ok (alter (insert_chain key item) b self).

(** The loop of [search] over one bucket. *)
Fixpoint search_chain (key : Z) (bucket_list : list (Z * V)) : option V :=
  match bucket_list with
  | [] => None
  | kv :: rest => if kv.1 =? key then Some kv.2 else search_chain key rest
  end.

(** [search]: [Ok None] is Python's [None]. *)
Definition search (key : Z) (self : table V) : result (option V) :=
  let* b := bucket key self in
  Ok (search_chain key (default [] (self !! b))).

(** Assignment to an attribute of the object that [search(key)] returned:
    the record found first under [key] is changed where it is stored. *)
Fixpoint mutate_chain (f : V -> V) (key : Z) (bucket_list : list (Z * V))
  : list (Z * V) :=
  match bucket_list with
  | [] => []
  | kv :: rest =>
      if kv.1 =? key then (kv.1, f kv.2) :: rest
      else kv :: mutate_chain f key rest
  end.

Definition mutate (f : V -> V) (key : Z) (self : table V) : table V :=
  match bucket key self with
  | Ok b => alter (mutate_chain f key) b self
  | Raise _ => self
  end.

(** A sequence of [insert] calls, in order. *)
Fixpoint inserts (kvs : list (Z * V)) (self : table V) : result (table V) :=
  match kvs with
  | [] => Ok self
  | kv :: rest => let* self' := insert kv.1 kv.2 self in inserts rest self'
  end.

(** Number of pairs stored in the table. *)
Definition size (self : table V) : nat := length (concat self).
End Table.
End ChainHashTable.

(** ** class Package, class Location, class Statuses *)

Module Package.
(** The attributes the routing and the status query read or write.  The
    display strings (address, city, state, zip, mass, status) take no part
    in either and are left out. *)
Record t : Type := mk {
  id : Z;
  group : Z;
  req_truck : Z;
  time_available : Z;
  time_pickup : Z;
  time_delivered : Z;
  deadline : Z;
  loc_id : Z
}.

Definition set_time_pickup (v : Z) (p : t) : t :=
  mk (id p) (group p) (req_truck p) (time_available p) v
     (time_delivered p) (deadline p) (loc_id p).

Definition set_time_delivered (v : Z) (p : t) : t :=
  mk (id p) (group p) (req_truck p) (time_available p) (time_pickup p)
     v (deadline p) (loc_id p).
End Package.

Module Location.
(** [distances] holds, for each cell of the row, the value [float] gives
    for it. *)
Record t : Type := mk {
  loc_id : Z;
  distances : list Q
}.
End Location.

Inductive Statuses : Type :=
  | UNAVAILABLE
  | DEPOT
  | EN_ROUTE
  | DELIVERED.

(** ** The module-level state of the program *)

Record Globals : Type := mkGlobals {
  locations : list Location.t;
  priority_packages : list Z;
  non_priority_packages : list Z;
  group_count_dictionary : gmap Z Z;
  my_hash_packages : ChainHashTable.table Package.t;
  num_packages : Z
}.

Definition set_my_hash_packages (h : ChainHashTable.table Package.t)
  (G : Globals) : Globals :=
  mkGlobals (locations G) (priority_packages G) (non_priority_packages G)
            (group_count_dictionary G) h (num_packages G).

Definition set_priority_packages (l : list Z) (G : Globals) : Globals :=
  mkGlobals (locations G) l (non_priority_packages G)
            (group_count_dictionary G) (my_hash_packages G) (num_packages G).

Definition set_non_priority_packages (l : list Z) (G : Globals) : Globals :=
  mkGlobals (locations G) (priority_packages G) l
            (group_count_dictionary G) (my_hash_packages G) (num_packages G).

(** [my_hash_packages.search(key)] followed by an attribute access on what it
    returned: on [None] the access raises AttributeError. *)
Definition search_package (key : Z) (G : Globals) : result Package.t :=
  let* r := ChainHashTable.search key (my_hash_packages G) in
  match r with
  | Some p => Ok p
  | None => Raise AttributeError
  end.

(** [float(locations[a].distances[b])] *)
Definition distance (a b : Z) (G : Globals) : result Q :=
  let* loc := py_index (locations G) a in
  py_index (Location.distances loc) b.

(** [group_count_dictionary[g]] *)
Definition group_count (g : Z) (G : Globals) : result Z :=
  match group_count_dictionary G !! g with
  | Some c => Ok c
  | None => Raise KeyError
  end.

(** ** class Truck *)

Module Truck.
(** The last two fields are history variables, written but never read by
    the methods: [delivered] lists the ids this truck has handed over,
    oldest first ([deliver_package] appends to it), and [peak] is the
    largest length [packages] has had (every assignment to [packages]
    brings it up to date). *)
Record t : Type := mk {
  truck_id : Z;
  packages : list Z;
  distance_traveled : Q;
  location_id : Z;
  truck_time : Z;
  delivered : list Z;
  peak : nat
}.

(** [self.rate = 18.0] is assigned in [__init__] and nowhere else. *)
Definition rate (self : t) : Q := 18.

Definition init (truck_id truck_time : Z) : t :=
  mk truck_id [] 0 0 truck_time [] 0.

Definition set_packages (l : list Z) (self : t) : t :=
  mk (truck_id self) l (distance_traveled self) (location_id self)
     (truck_time self) (delivered self) (Nat.max (peak self) (length l)).

(** The three assignments that end a leg. *)
Definition moved (time : Z) (dist : Q) (loc : Z) (self : t) : t :=
  mk (truck_id self) (packages self) dist loc time (delivered self)
     (peak self).

Definition log_delivered (package_id : Z) (self : t) : t :=
  mk (truck_id self) (packages self) (distance_traveled self)
     (location_id self) (truck_time self) (delivered self ++ [package_id])
     (peak self).

Definition load_package (package_id : Z) (self : t) (G : Globals)
  : result (t * Globals) :=
  let* _ := search_package package_id G in
  let h := ChainHashTable.mutate (Package.set_time_pickup (truck_time self))
             package_id (my_hash_packages G) in
  Ok (set_packages (packages self ++ [package_id]) self,
      set_my_hash_packages h G).

(** The inner loop of the group branch: every id of the priority list
    whose record carries [group_id] is loaded. *)
Fixpoint load_group (group_id : Z) (priority_packages_list : list Z)
  (self : t) (G : Globals) : result (t * Globals) :=
  match priority_packages_list with
  | [] => Ok (self, G)
  | pack_id :: rest =>
      let* package_with_group := search_package pack_id G in
      if Package.group package_with_group =? group_id then
        let* (self', G') := load_package pack_id self G in
        load_group group_id rest self' G'
      else load_group group_id rest self G
  end.

(** One iteration of the first loop of [load_truck], after the capacity
    test. *)
Definition load_priority_step (priority_packages_list : list Z) (p_id : Z)
  (self : t) (G : Globals) : result (t * Globals) :=
  if py_in p_id (packages self) then Ok (self, G)
  else
    let* package := search_package p_id G in
    if (Package.req_truck package =? truck_id self)
       || (Package.req_truck package =? 0) then
      if Package.time_available package <=? truck_time self then
        if Package.group package =? 0 then load_package p_id self G
        else
          let* c := group_count (Package.group package) G in
          if Z.of_nat (length (packages self)) + c <=? 16 then
            load_group (Package.group package) priority_packages_list self G
          else Ok (self, G)
      else Ok (self, G)
    else Ok (self, G).

(** The first loop: [todo] is what is left to scan, the group branch scans
    the whole [priority_packages_list] again. *)
Fixpoint load_priority (priority_packages_list todo : list Z)
  (self : t) (G : Globals) : result (t * Globals) :=
  match todo with
  | [] => Ok (self, G)
  | p_id :: rest =>
      if Z.of_nat (length (packages self)) =? 16 then Ok (self, G)
      else
        let* (self', G') := load_priority_step priority_packages_list p_id self G in
        load_priority priority_packages_list rest self' G'
  end.

Fixpoint load_non_priority (todo : list Z) (self : t) (G : Globals)
  : result (t * Globals) :=
  match todo with
  | [] => Ok (self, G)
  | p_id :: rest =>
      if Z.of_nat (length (packages self)) =? 16 then Ok (self, G)
      else
        let* package := search_package p_id G in
        if Package.time_available package <=? truck_time self then
          let* (self', G') := load_package (Package.id package) self G in
          load_non_priority rest self' G'
        else load_non_priority rest self G
  end.

Definition load_truck (priority_packages_list non_priority_packages_list : list Z)
  (self : t) (G : Globals) : result (t * Globals) :=
  let* (self', G') :=
    load_priority priority_packages_list priority_packages_list self G in
  load_non_priority non_priority_packages_list self' G'.

(** The loop of [find_shortest_distance], carrying [min_distance] and
    [package_id]. *)
Fixpoint find_shortest_loop (todo : list Z) (min_distance : Q)
  (package_id : Z) (self : t) (G : Globals) : result Z :=
  match todo with
  | [] => Ok package_id
  | package :: rest =>
      let* p := search_package package G in
      let package_location := Package.loc_id p in
      let* package_distance := distance (location_id self) package_location G in
      if Qlt_le_dec package_distance min_distance then
        find_shortest_loop rest package_distance package self G
      else find_shortest_loop rest min_distance package_id self G
  end.

Definition find_shortest_distance (self : t) (G : Globals) : result Z :=
  find_shortest_loop (packages self) 100 (-1) self G.

(** Clock, odometer and position after a leg of [dist] miles to [loc]. *)
Definition travel (dist : Q) (loc : Z) (self : t) : t :=
  let time_traveled := timedelta_seconds (dist / rate self * 3600)%Q in
  moved (truck_time self + time_traveled)
        (distance_traveled self + dist)%Q loc self.

Definition increment_time_and_distance (package_id : Z) (self : t)
  (G : Globals) : result t :=
  let* package := search_package package_id G in
  let package_location := Package.loc_id package in
  let* dist := distance (location_id self) package_location G in
  Ok (travel dist package_location self).

Definition deliver_package (package_id : Z) (self : t) (G : Globals)
  : result (t * Globals) :=
  let* _ := search_package package_id G in
  let h := ChainHashTable.mutate (Package.set_time_delivered (truck_time self))
             package_id (my_hash_packages G) in
  let G' := set_my_hash_packages h G in
  let* self' := increment_time_and_distance package_id self G' in
  let* l := py_remove package_id (packages self') in
  Ok (log_delivered package_id (set_packages l self'), G').

Definition return_to_hub (self : t) (G : Globals) : result t :=
  let* dist := distance (location_id self) 0 G in
  Ok (travel dist 0 self).
End Truck.

(** ** route_packages *)

(** The [if ... in priority_packages ... elif ... in non_priority_packages]
    of the delivery loop. *)
Definition unpend (deliver_package : Z) (G : Globals) : result Globals :=
  if py_in deliver_package (priority_packages G) then
    let* l := py_remove deliver_package (priority_packages G) in
    Ok (set_priority_packages l G)
  else if py_in deliver_package (non_priority_packages G) then
    let* l := py_remove deliver_package (non_priority_packages G) in
    Ok (set_non_priority_packages l G)
  else Ok G.

(** [while truck.packages: ...].  Every turn takes one id off the manifest
    or raises, so [fuel] = the manifest's length is enough (see
    [deliver_all_empties]); with less the loop is cut short. *)
Fixpoint deliver_all (fuel : nat) (truck : Truck.t) (G : Globals)
  : result (Truck.t * Globals) :=
  match Truck.packages truck, fuel with
  | [], _ => Ok (truck, G)
  | _ :: _, O => Ok (truck, G)
  | _ :: _, S fuel' =>
      let* deliver_package := Truck.find_shortest_distance truck G in
      let* G1 := unpend deliver_package G in
      let* (truck', G2) := Truck.deliver_package deliver_package truck G1 in
      deliver_all fuel' truck' G2
  end.

(** The body of [for truck in trucks]. *)
Definition trip (truck : Truck.t) (G : Globals) : result (Truck.t * Globals) :=
  let* (truck1, G1) :=
    Truck.load_truck (priority_packages G) (non_priority_packages G) truck G in
  let* (truck2, G2) := deliver_all (length (Truck.packages truck1)) truck1 G1 in
  let* truck3 := Truck.return_to_hub truck2 G2 in
  Ok (truck3, G2).

Fixpoint for_trucks (trucks : list Truck.t) (G : Globals)
  : result (list Truck.t * Globals) :=
  match trucks with
  | [] => Ok ([], G)
  | truck :: rest =>
      let* (truck', G1) := trip truck G in
      let* (rest', G2) := for_trucks rest G1 in
      Ok (truck' :: rest', G2)
  end.

(** Truth value of [priority_packages or non_priority_packages]. *)
Definition pending (G : Globals) : bool :=
  negb (bool_decide (priority_packages G = []))
  || negb (bool_decide (non_priority_packages G = [])).

(** The outer [while] may run forever; [fuel] bounds its turns and [None]
    says the bound was reached with packages still pending. *)
Fixpoint route_packages (fuel : nat) (trucks : list Truck.t) (G : Globals)
  : option (result (list Truck.t * Globals)) :=
  if pending G then
    match fuel with
    | O => None
    | S fuel' =>
        match for_trucks trucks G with
        | Ok (trucks', G') => route_packages fuel' trucks' G'
        | Raise e => Some (Raise e)
        end
    end
  else Some (Ok (trucks, G)).

(** ** load_package_data and the script *)

(** The body of the loop of [load_package_data] for one row of the file,
    given as the [Package] the row is parsed into (with its [loc_id]
    resolved). *)
Definition load_row (p : Package.t) (G : Globals) : result Globals :=
  let* h := ChainHashTable.insert (Package.id p) p (my_hash_packages G) in
  let counts := group_count_dictionary G in
  let counts' :=
    if negb (Package.group p =? 0) then
      match counts !! Package.group p with
      | Some c => <[Package.group p := c + 1]> counts
      | None => <[Package.group p := 1]> counts
      end
    else counts in
  if (Package.deadline p <? time_of 23 59 59)
     || negb (Package.req_truck p =? 0) || negb (Package.group p =? 0) then
    Ok (mkGlobals (locations G) (priority_packages G ++ [Package.id p])
          (non_priority_packages G) counts' h (num_packages G + 1))
  else
    Ok (mkGlobals (locations G) (priority_packages G)
          (non_priority_packages G ++ [Package.id p]) counts' h
          (num_packages G + 1)).

Fixpoint load_package_data (rows : list Package.t) (G : Globals)
  : result Globals :=
  match rows with
  | [] => Ok G
  | p :: rest => let* G' := load_row p G in load_package_data rest G'
  end.

(** The module-level state once the locations are read: empty lists, an
    empty dictionary and a table of the default capacity. *)
Definition start (locs : list Location.t) : Globals :=
  mkGlobals locs [] [] ∅ (ChainHashTable.init 10) 0.

Definition truck_1 : Truck.t := Truck.init 1 (time_of 8 0 0).
Definition truck_2 : Truck.t := Truck.init 2 (time_of 9 5 0).
Definition truck_list : list Truck.t := [truck_1; truck_2].

(** The script up to the end of [route_packages]. *)
Definition main (locs : list Location.t) (rows : list Package.t) (fuel : nat)
  : option (result (list Truck.t * Globals)) :=
  match load_package_data rows (start locs) with
  | Ok G => route_packages fuel truck_list G
  | Raise e => Some (Raise e)
  end.

(** ** The interactive query *)

(** The [if/elif/else] chain that both options print with. *)
Definition status_at (user_time : Z) (package : Package.t) : Statuses :=
  if user_time <? Package.time_available package then UNAVAILABLE
  else if user_time <? Package.time_pickup package then DEPOT
  else if user_time <? Package.time_delivered package then EN_ROUTE
  else DELIVERED.

(** The package-id prompt of option 2.  [inputs] are the lines typed, each
    already through [int]: [None] is a line [int] rejects with ValueError,
    after which [user_package_id] keeps its value.  Returns the id the loop
    leaves with and the lines not read. *)
Fixpoint prompt_package_id (user_package_id : Z) (inputs : list (option Z))
  (G : Globals) : result (Z * list (option Z)) :=
  if (user_package_id <? 1) || (user_package_id >? num_packages G + 1) then
    match inputs with
    | [] => Raise EOFError
    | line :: rest =>
        prompt_package_id (default user_package_id line) rest G
    end
  else Ok (user_package_id, inputs).

(** Option 2 from the package-id prompt on. *)
Definition option_2 (user_time : Z) (inputs : list (option Z)) (G : Globals)
  : result Statuses :=
  let* (user_package_id, _) := prompt_package_id 0 inputs G in
  let* package := search_package user_package_id G in
  Ok (status_at user_time package).

(** Option 1: the status of the packages 1 .. num_packages. *)
Definition option_1 (user_time : Z) (G : Globals) : result (list Statuses) :=
  (fix go (keys : list Z) : result (list Statuses) :=
     match keys with
     | [] => Ok []
     | key :: rest =>
         let* package := search_package key G in
         let* l := go rest in
         Ok (status_at user_time package :: l)
     end) (map Z.of_nat (seq 1 (Z.to_nat (num_packages G)))).

(** [datetime.time(hour, minute, second)] combined with today's date:
    ValueError outside the ranges of the calendar. *)
Definition py_time (hour minute second : Z) : result Z :=
  if (0 <=? hour) && (hour <=? 23) && (0 <=? minute) && (minute <=? 59)
     && (0 <=? second) && (second <=? 59)
  then Ok (time_of hour minute second)
  else Raise ValueError.

(** One of the three loops of [get_input_time], [while value > bound or
    value < 0], on the lines typed (see [prompt_package_id]); the three
    loops differ in [bound] only. *)
Fixpoint prompt_field (bound value : Z) (inputs : list (option Z))
  : result (Z * list (option Z)) :=
  if (value >? bound) || (value <? 0) then
    match inputs with
    | [] => Raise EOFError
    | line :: rest => prompt_field bound (default value line) rest
    end
  else Ok (value, inputs).

(** [get_input_time]: the time entered and the lines not read. *)
Definition get_input_time (inputs : list (option Z))
  : result (Z * list (option Z)) :=
  let* (hour, rest) := prompt_field 23 (-1) inputs in
  let* (minute, rest) := prompt_field 59 (-1) rest in
  let* (second, rest) := prompt_field 59 (-1) rest in
  let* input_time := py_time hour minute second in
  Ok (input_time, rest).

(** ** Concrete inputs *)

Module Scenario.
(** Depot 0, location 1 at 5 miles and location 2 at 3 miles from it, 4 miles
    between the two. *)
Definition three_locations : list Location.t :=
  [Location.mk 0 [0%Q; 5%Q; 3%Q];
   Location.mk 1 [5%Q; 0%Q; 4%Q];
   Location.mk 2 [3%Q; 4%Q; 0%Q]].

(** Depot 0 and one location 120 miles away. *)
Definition far_locations : list Location.t :=
  [Location.mk 0 [0%Q; 120%Q]; Location.mk 1 [120%Q; 0%Q]].

Definition end_of_day : Z := time_of 23 59 59.

(** One package without deadline, affinity or group, available at 08:00. *)
Definition single_row : list Package.t :=
  [Package.mk 1 0 0 (time_of 8 0 0) 0 0 end_of_day 1].

(** Two packages of group 7, available at 08:00; the second must go on
    truck 2. *)
Definition grouped_rows : list Package.t :=
  [Package.mk 1 7 0 (time_of 8 0 0) 0 0 end_of_day 1;
   Package.mk 2 7 2 (time_of 8 0 0) 0 0 end_of_day 2].

(** Two packages of group 7; the second is available at 10:00 only. *)
Definition late_rows : list Package.t :=
  [Package.mk 1 7 0 (time_of 8 0 0) 0 0 end_of_day 1;
   Package.mk 2 7 0 (time_of 10 0 0) 0 0 end_of_day 2].

(** The package of the query scenario: available and picked up at 08:00,
    delivered at 09:15. *)
Definition query_package : Package.t :=
  Package.mk 1 0 0 (time_of 8 0 0) (time_of 8 0 0) (time_of 9 15 0)
    end_of_day 1.

(** What a computation returned, for one that is known to return. *)
Definition returned {A : Type} (d : A) (r : result A) : A :=
  match r with
  | Ok a => a
  | Raise _ => d
  end.

(** The module-level state after [load_package_data] on the rows above. *)
Definition loaded (locs : list Location.t) (rows : list Package.t) : Globals :=
  returned (start locs) (load_package_data rows (start locs)).

Definition G_single : Globals := loaded three_locations single_row.
Definition G_grouped : Globals := loaded three_locations grouped_rows.
Definition G_late : Globals := loaded three_locations late_rows.
Definition G_far : Globals := loaded far_locations single_row.

(** Truck 1 and the state after its loading pass on [G_grouped]. *)
Definition after_load : Truck.t * Globals :=
  returned (truck_1, G_grouped)
    (Truck.load_truck (priority_packages G_grouped)
       (non_priority_packages G_grouped) truck_1 G_grouped).

(** ... and after its delivery loop. *)
Definition after_deliveries : Truck.t * Globals :=
  returned after_load
    (deliver_all (length (Truck.packages after_load.1)) after_load.1
       after_load.2).

(** ... and after the first delivery, of package 2. *)
Definition after_first_delivery : Truck.t * Globals :=
  returned after_load
    (Truck.deliver_package 2 after_load.1 after_load.2).

(** Truck 1 and the state after its loading pass on [G_far]. *)
Definition after_load_far : Truck.t * Globals :=
  returned (truck_1, G_far)
    (Truck.load_truck (priority_packages G_far)
       (non_priority_packages G_far) truck_1 G_far).
(** Two packages of no group; the first must go on truck 2. *)
Definition affinity_rows : list Package.t :=
  [Package.mk 1 0 2 (time_of 8 0 0) 0 0 end_of_day 1;
   Package.mk 2 0 0 (time_of 8 0 0) 0 0 end_of_day 2].

(** One package of no group that must go on truck 3, which is not in
    [truck_list]. *)
Definition stranded_rows : list Package.t :=
  [Package.mk 1 0 3 (time_of 8 0 0) 0 0 end_of_day 1].

Definition G_affinity : Globals := loaded three_locations affinity_rows.
Definition G_stranded : Globals := loaded three_locations stranded_rows.

(** Truck 1 and the state after its loading pass on [G_affinity]. *)
Definition after_load_affinity : Truck.t * Globals :=
  returned (truck_1, G_affinity)
    (Truck.load_truck (priority_packages G_affinity)
       (non_priority_packages G_affinity) truck_1 G_affinity).

(** Truck 1 and the state after its first trip on [G_grouped]. *)
Definition after_trip : Truck.t * Globals :=
  returned (truck_1, G_grouped) (trip truck_1 G_grouped).

(** The whole run on [single_row] and on [late_rows]. *)
Definition run (rows : list Package.t) : list Truck.t * Globals :=
  match main three_locations rows 1 with
  | Some (Ok r) => r
  | _ => (truck_list, start three_locations)
  end.

Definition run_single : list Truck.t * Globals := run single_row.
Definition run_grouped : list Truck.t * Globals := run grouped_rows.
Definition run_late : list Truck.t * Globals := run late_rows.

(** The record of package [k] in a state where there is one. *)
Definition record (k : Z) (G : Globals) : Package.t :=
  returned query_package (search_package k G).
End Scenario.

(** ** Vocabulary of the statements *)

(** The attributes of a record that no method assigns. *)
Definition static_eq (p p' : Package.t) : Prop :=
  Package.id p' = Package.id p /\
  Package.group p' = Package.group p /\
  Package.req_truck p' = Package.req_truck p /\
  Package.time_available p' = Package.time_available p /\
  Package.deadline p' = Package.deadline p /\
  Package.loc_id p' = Package.loc_id p.

Definition result_rel {A : Type} (R : A -> A -> Prop) (x y : result A) : Prop :=
  match x, y with
  | Ok a, Ok b => R a b
  | Raise e, Raise e' => e = e'
  | _, _ => False
  end.

(** [G'] differs from [G] at most in the two pending lists and in the
    timestamps of the records. *)
Definition same_static (G G' : Globals) : Prop :=
  locations G' = locations G /\
  group_count_dictionary G' = group_count_dictionary G /\
  num_packages G' = num_packages G /\
  forall k, result_rel static_eq (search_package k G) (search_package k G').

(** The id [k] names a record of group [g]. *)
Definition has_group (g k : Z) (G : Globals) : bool :=
  match search_package k G with
  | Ok p => Package.group p =? g
  | Raise _ => false
  end.

(** The ids of a list that name a record of group [g]. *)
Definition members (g : Z) (l : list Z) (G : Globals) : list Z :=
  filter (fun k => has_group g k G = true) l.

(** Every record is stored under its own id. *)
Definition keys_ok (G : Globals) : Prop :=
  forall k p, search_package k G = Ok p -> Package.id p = k.

(** The dictionary's count of a group is at least the number of its members
    in the list [l]. *)
Definition counts_ok (l : list Z) (G : Globals) : Prop :=
  forall g c, group_count_dictionary G !! g = Some c ->
    Z.of_nat (length (members g l G)) <= c.

(** The records named by [l] belong to no group. *)
Definition ungrouped (l : list Z) (G : Globals) : Prop :=
  forall k p, k ∈ l -> search_package k G = Ok p -> Package.group p = 0.

Definition distances_nonneg (G : Globals) : Prop :=
  forall loc d, loc ∈ locations G -> d ∈ Location.distances loc -> (0 <= d)%Q.

(** What [load_truck] has established when it calls [load_package] for the
    id [k]: either [k] is in the priority list [P] and, unless its record
    belongs to a group, the record's availability was tested against the
    clock; or [k] is the [id] attribute of the record of an id [q] of the
    non-priority list [N], and that record passed the availability test. *)
Definition may_load (P N : list Z) (self : Truck.t) (G : Globals) (k : Z) : Prop :=
  (k ∈ P /\ exists p, search_package k G = Ok p /\
     (Package.group p = 0 ->
      Package.time_available p <= Truck.truck_time self))
  \/ (exists q pk, q ∈ N /\ search_package q G = Ok pk /\ k = Package.id pk /\
        Package.time_available pk <= Truck.truck_time self).

(** [peak] is up to date and has stayed within the capacity of 16. *)
Definition within_capacity (self : Truck.t) : Prop :=
  (length (Truck.packages self) <= Truck.peak self)%nat /\
  (Truck.peak self <= 16)%nat.

(** The order of the three timestamps that the run establishes: the pickup
    is not after the delivery, and for a record outside every group the
    availability is not after the pickup. *)
Definition chain_ok (p : Package.t) : Prop :=
  Package.time_pickup p <= Package.time_delivered p /\
  (Package.group p = 0 -> Package.time_available p <= Package.time_pickup p).

(** The same for a package still aboard, with the truck's clock in the place
    of the delivery time. *)
Definition aboard_ok (self : Truck.t) (p : Package.t) : Prop :=
  Package.time_pickup p <= Truck.truck_time self /\
  (Package.group p = 0 -> Package.time_available p <= Package.time_pickup p).

(** Between two trips: every record is pending or in order. *)
Definition settled (G : Globals) : Prop :=
  forall k p, search_package k G = Ok p ->
    k ∈ priority_packages G \/ k ∈ non_priority_packages G \/ chain_ok p.

(** During the trip of [self]. *)
Definition en_route_ok (self : Truck.t) (G : Globals) : Prop :=
  forall k p, search_package k G = Ok p ->
    (k ∈ Truck.packages self -> aboard_ok self p) /\
    (k ∉ Truck.packages self ->
     k ∈ priority_packages G \/ k ∈ non_priority_packages G \/ chain_ok p).

(** Since the truck was as [self], with at least [n] ids aboard, the pass
    has admitted no member of the group [g]. *)
Definition no_room (G : Globals) (g : Z) (n : nat) (self s : Truck.t)
  (g0 : Globals) : Prop :=
  same_static G g0 /\ (n <= length (Truck.packages s))%nat /\
  exists L, Truck.packages s = Truck.packages self ++ L /\
    forall q, q ∈ L -> has_group g q G = false.

(** The four labels read as four intervals of the query time. *)
Definition status_by_intervals (user_time : Z) (p : Package.t) : Prop :=
  (status_at user_time p = UNAVAILABLE <->
   user_time < Package.time_available p) /\
  (status_at user_time p = DEPOT <->
   Package.time_available p <= user_time < Package.time_pickup p) /\
  (status_at user_time p = EN_ROUTE <->
   Package.time_pickup p <= user_time < Package.time_delivered p) /\
  (status_at user_time p = DELIVERED <->
   Package.time_delivered p <= user_time).

(** The test of [load_package_data] that sends a row to the priority list. *)
Definition is_priority (p : Package.t) : bool :=
  (Package.deadline p <? time_of 23 59 59)
  || negb (Package.req_truck p =? 0) || negb (Package.group p =? 0).

(** Number of rows of group [g]. *)
Definition group_size (g : Z) (rows : list Package.t) : Z :=
  Z.of_nat (length (filter (fun p => Package.group p = g) rows)).

(** The module-level state once the rows [done] are read. *)
Record loaded_from (locs : list Location.t) (done : list Package.t)
  (G : Globals) : Prop := {
  lf_locations : locations G = locs;
  lf_num : num_packages G = Z.of_nat (length done);
  lf_buckets : length (my_hash_packages G) = 10%nat;
  lf_table : forall k p, search_package k G = Ok p ->
               p ∈ done /\ Package.id p = k;
  lf_rows : forall p, p ∈ done -> search_package (Package.id p) G = Ok p;
  lf_priority :
    priority_packages G
    = Package.id <$> filter (fun p => is_priority p = true) done;
  lf_non_priority :
    non_priority_packages G
    = Package.id <$> filter (fun p => is_priority p = false) done;
  lf_counts : forall g,
    group_count_dictionary G !! g
    = if (g =? 0) || (group_size g done =? 0) then None
      else Some (group_size g done)
}.

(** The distance [find_shortest_distance] reads for the id [k]. *)
Definition package_distance (k : Z) (self : Truck.t) (G : Globals) : result Q :=
  let* p := search_package k G in
  distance (Truck.location_id self) (Package.loc_id p) G.

(** [r] is the first id of [l] at the least distance, [d], and [d] is below
    [bound]. *)
Definition first_nearest (r : Z) (d bound : Q) (l : list Z) (self : Truck.t)
  (G : Globals) : Prop :=
  exists l1 l2,
    l = l1 ++ r :: l2 /\ package_distance r self G = Ok d /\ (d < bound)%Q /\
    Forall (fun k => exists dk, package_distance k self G = Ok dk /\ (d < dk)%Q) l1 /\
    Forall (fun k => exists dk, package_distance k self G = Ok dk /\ (d <= dk)%Q) l2.


(** The pairs [load_package_data] hands to the table, in the order of the
    file. *)
Definition table_entries (rows : list Package.t) : list (Z * Package.t) :=
  (fun p => (Package.id p, p)) <$> rows.

(** The module-level state once the rows [done] are read, whether or not
    their ids are distinct. *)
Definition tallied (locs : list Location.t) (done : list Package.t)
  (G : Globals) : Prop :=
  locations G = locs /\
  num_packages G = Z.of_nat (length done) /\
  priority_packages G
  = Package.id <$> filter (fun p => is_priority p = true) done /\
  non_priority_packages G
  = Package.id <$> filter (fun p => is_priority p = false) done /\
  (forall g, group_count_dictionary G !! g
             = if (g =? 0) || (group_size g done =? 0) then None
               else Some (group_size g done)) /\
  ChainHashTable.inserts (table_entries done) (ChainHashTable.init 10)
  = Ok (my_hash_packages G).

(** A line that a prompt for a value in [lo, hi] does not accept: not an
    integer, or an integer outside the range. *)
Definition rejected (lo hi : Z) (line : option Z) : Prop :=
  match line with
  | Some n => n < lo \/ hi < n
  | None => True
  end.

(** The four labels in the order of a package's life. *)
Definition status_rank (s : Statuses) : Z :=
  match s with
  | UNAVAILABLE => 0
  | DEPOT => 1
  | EN_ROUTE => 2
  | DELIVERED => 3
  end.

(** * Properties *)

(** ** The result monad *)

Lemma rbind_Ok {A B : Type} (m : result A) (k : A -> result B) (b : B) :
  rbind m k = Ok b -> exists a, m = Ok a /\ k a = Ok b.
Proof. destruct m as [a|e]; simpl; [eauto | discriminate]. Qed.

(** Splits a hypothesis [let* x := m in k = Ok b] into its two halves. *)
Ltac inv_bind H :=
  let a := fresh "a" in
  let Ha := fresh "Hm" in
  apply rbind_Ok in H; destruct H as (a & Ha & H).

(** ** ChainHashTable *)

Section ChainHashTableFacts.
Context {V : Type}.
Implicit Types (self : ChainHashTable.table V) (l : list (Z * V)).
Import ChainHashTable.

Lemma bucket_Ok key self b :
  bucket key self = Ok b -> (b < length self)%nat.
Proof.
  unfold bucket. destruct (Z.eqb_spec (Z.of_nat (length self)) 0) as [|Hn];
    [discriminate|].
  intros [= <-].
  assert (0 < Z.of_nat (length self)) by lia.
  pose proof (Z.mod_pos_bound (hash key) (Z.of_nat (length self))). lia.
Qed.

Lemma bucket_nonempty key self :
  (0 < length self)%nat -> exists b, bucket key self = Ok b.
Proof.
  intros Hn. unfold bucket.
  destruct (Z.eqb_spec (Z.of_nat (length self)) 0); [lia | eauto].
Qed.

Lemma bucket_same_length key self self' :
  length self' = length self -> bucket key self' = bucket key self.
Proof. unfold bucket. intros ->. reflexivity. Qed.

Lemma search_chain_insert_chain_eq key item l :
  search_chain key (insert_chain key item l) = Some item.
Proof.
  induction l as [|kv l IH]; simpl.
  - rewrite Z.eqb_refl. reflexivity.
  - destruct (Z.eqb_spec kv.1 key) as [->|Hne]; simpl.
    + rewrite Z.eqb_refl. reflexivity.
    + destruct (Z.eqb_spec kv.1 key); [contradiction | exact IH].
Qed.

Lemma search_chain_insert_chain_ne key key' item l :
  key <> key' ->
  search_chain key' (insert_chain key item l) = search_chain key' l.
Proof.
  intros Hne. induction l as [|kv l IH]; simpl.
  - destruct (Z.eqb_spec key key'); [contradiction | reflexivity].
  - destruct (Z.eqb_spec kv.1 key) as [Heq|Hk]; simpl.
    + rewrite Heq. destruct (Z.eqb_spec key key'); [contradiction | reflexivity].
    + destruct (kv.1 =? key'); [reflexivity | exact IH].
Qed.

Lemma length_insert_chain_found key item item0 l :
  search_chain key l = Some item0 ->
  length (insert_chain key item l) = length l.
Proof.
  induction l as [|kv l IH]; simpl; [discriminate|].
  destruct (kv.1 =? key); simpl; [reflexivity|].
  intros H. rewrite IH; auto.
Qed.

Lemma search_chain_mutate_chain_eq f key l :
  search_chain key (mutate_chain f key l) = f <$> search_chain key l.
Proof.
  induction l as [|kv l IH]; simpl; [reflexivity|].
  destruct (Z.eqb_spec kv.1 key) as [->|Hne]; simpl.
  - rewrite Z.eqb_refl. reflexivity.
  - destruct (Z.eqb_spec kv.1 key); [contradiction | exact IH].
Qed.

Lemma search_chain_mutate_chain_ne f key key' l :
  key <> key' ->
  search_chain key' (mutate_chain f key l) = search_chain key' l.
Proof.
  intros Hne. induction l as [|kv l IH]; simpl; [reflexivity|].
  destruct (Z.eqb_spec kv.1 key) as [Heq|Hk]; simpl.
  - rewrite Heq. destruct (Z.eqb_spec key key'); [contradiction | reflexivity].
  - destruct (kv.1 =? key'); [reflexivity | exact IH].
Qed.

Lemma length_concat_alter (f : list (Z * V) -> list (Z * V)) b self :
  (forall l, self !! b = Some l -> length (f l) = length l) ->
  size (alter f b self) = size self.
Proof.
  unfold size. revert b. induction self as [|l self IH]; intros [|b] Hf;
    simpl; try reflexivity.
  - rewrite !length_app, Hf; auto.
  - rewrite !length_app. f_equal. apply IH. intros l' Hl'. apply Hf. exact Hl'.
Qed.

Lemma insert_Ok key item self :
  (0 < length self)%nat -> exists self', insert key item self = Ok self'.
Proof.
  intros Hn. destruct (bucket_nonempty key self Hn) as [b Hb].
  unfold insert. rewrite Hb. simpl. eauto.
Qed.

Lemma length_insert key item self self' :
  insert key item self = Ok self' -> length self' = length self.
Proof.
  unfold insert. intros H. inv_bind H. injection H as <-.
  apply length_alter.
Qed.

Lemma search_insert_eq key item self self' :
  insert key item self = Ok self' -> search key self' = Ok (Some item).
Proof.
  intros H. pose proof (length_insert _ _ _ _ H) as Hlen.
  unfold insert in H. inv_bind H. injection H as <-.
  unfold search. rewrite (bucket_same_length key self), Hm by apply length_alter.
  cbn [rbind]. rewrite list_lookup_alter_eq.
  destruct (lookup_lt_is_Some_2 self a (bucket_Ok _ _ _ Hm)) as [l Hl].
  rewrite Hl. simpl. rewrite search_chain_insert_chain_eq. reflexivity.
Qed.

Lemma search_insert_ne key key' item self self' :
  key <> key' ->
  insert key item self = Ok self' -> search key' self' = search key' self.
Proof.
  intros Hne H. unfold insert in H. inv_bind H. injection H as <-.
  unfold search. rewrite (bucket_same_length key' self) by apply length_alter.
  destruct (bucket key' self) as [b'|e] eqn:Hb'; cbn [rbind]; [|reflexivity].
  destruct (decide (a = b')) as [<-|Hab].
  - rewrite list_lookup_alter_eq.
    destruct (self !! a) as [l|]; simpl; [|reflexivity].
    rewrite search_chain_insert_chain_ne by exact Hne. reflexivity.
  - rewrite list_lookup_alter_ne by exact Hab. reflexivity.
Qed.

Lemma size_insert_found key item item0 self self' :
  search key self = Ok (Some item0) ->
  insert key item self = Ok self' -> size self' = size self.
Proof.
  unfold search, insert. intros Hs H. inv_bind H. injection H as <-.
  rewrite Hm in Hs. simpl in Hs. injection Hs as Hs.
  apply length_concat_alter. intros l Hl. rewrite Hl in Hs. simpl in Hs.
  eapply length_insert_chain_found; eauto.
Qed.

Lemma length_mutate f key self : length (mutate f key self) = length self.
Proof.
  unfold mutate. destruct (bucket key self); [apply length_alter | reflexivity].
Qed.

Lemma search_mutate_eq f key self :
  search key (mutate f key self)
  = let* r := search key self in Ok (f <$> r).
Proof.
  unfold search. rewrite (bucket_same_length key self) by apply length_mutate.
  unfold mutate. destruct (bucket key self) as [b|e] eqn:Hb; cbn [rbind]; [|reflexivity].
  rewrite list_lookup_alter_eq.
  destruct (self !! b) as [l|]; simpl; [|reflexivity].
  rewrite search_chain_mutate_chain_eq. reflexivity.
Qed.

Lemma search_mutate_ne f key key' self :
  key <> key' -> search key' (mutate f key self) = search key' self.
Proof.
  intros Hne. unfold search.
  rewrite (bucket_same_length key' self) by apply length_mutate.
  destruct (bucket key' self) as [b'|e] eqn:Hb'; cbn [rbind]; [|reflexivity].
  unfold mutate. destruct (bucket key self) as [b|e] eqn:Hb; [|reflexivity].
  destruct (decide (b = b')) as [<-|Hbb].
  - rewrite list_lookup_alter_eq.
    destruct (self !! b) as [l|]; simpl; [|reflexivity].
    rewrite search_chain_mutate_chain_ne by exact Hne. reflexivity.
  - rewrite list_lookup_alter_ne by exact Hbb. reflexivity.
Qed.

Lemma search_init key c :
  0 < c -> search key (init (V := V) c) = Ok None.
Proof.
  intros Hc. unfold search, init.
  destruct (bucket_nonempty key (replicate (Z.to_nat c) ([] : list (Z * V)))) as [b Hb].
  { rewrite length_replicate. lia. }
  rewrite Hb. simpl.
  pose proof (bucket_Ok _ _ _ Hb) as Hlt. rewrite length_replicate in Hlt.
  rewrite lookup_replicate_2 by exact Hlt. reflexivity.
Qed.

Lemma inserts_Ok kvs self :
  (0 < length self)%nat ->
  exists self', inserts kvs self = Ok self' /\ length self' = length self.
Proof.
  revert self. induction kvs as [|kv kvs IH]; intros self Hn; simpl.
  - eauto.
  - destruct (insert_Ok kv.1 kv.2 self Hn) as [self1 H1]. rewrite H1. simpl.
    pose proof (length_insert _ _ _ _ H1) as Hlen.
    destruct (IH self1) as (self' & H' & Hl'); [lia|].
    exists self'. split; [exact H' | lia].
Qed.

Lemma search_inserts_other key kvs self self' :
  key ∉ kvs.*1 ->
  inserts kvs self = Ok self' -> search key self' = search key self.
Proof.
  revert self. induction kvs as [|kv kvs IH]; intros self Hnotin H; simpl in *.
  - injection H as <-. reflexivity.
  - inv_bind H. rewrite not_elem_of_cons in Hnotin. destruct Hnotin as [Hne Hnotin].
    rewrite (IH a Hnotin H). eapply search_insert_ne; eauto.
Qed.
End ChainHashTableFacts.

(** C9.  On a table made by the constructor with at least one bucket and
    filled by any sequence of [insert] calls: [insert(k, v)] returns, after
    it [search(k)] returns [v]; a further [insert(k, v')] replaces that
    record (then [search(k)] returns [v'] and the table holds no more pairs
    than before); and when [k] is not among the keys inserted, [search(k)]
    returns [None]. *)
Theorem ChainHashTable_insert_search {V : Type} (initial_capacity : Z)
  (kvs : list (Z * V)) (k : Z) (v v' : V) :
  0 < initial_capacity ->
  exists t t1 t2 : ChainHashTable.table V,
    ChainHashTable.inserts kvs (ChainHashTable.init initial_capacity) = Ok t /\
    ChainHashTable.insert k v t = Ok t1 /\
    ChainHashTable.search k t1 = Ok (Some v) /\
    ChainHashTable.insert k v' t1 = Ok t2 /\
    ChainHashTable.search k t2 = Ok (Some v') /\
    ChainHashTable.size t2 = ChainHashTable.size t1 /\
    (k ∉ kvs.*1 -> ChainHashTable.search k t = Ok None).
Proof.
  intros Hc.
  assert (Hlen0 : (0 < length (ChainHashTable.init (V := V) initial_capacity))%nat).
  { unfold ChainHashTable.init. rewrite length_replicate. lia. }
  destruct (inserts_Ok kvs _ Hlen0) as (t & Ht & Hlt).
  destruct (insert_Ok k v t) as [t1 Ht1]; [lia|].
  pose proof (length_insert _ _ _ _ Ht1) as Hlt1.
  destruct (insert_Ok k v' t1) as [t2 Ht2]; [lia|].
  exists t, t1, t2. repeat split; auto.
  - eapply search_insert_eq; eauto.
  - eapply search_insert_eq; eauto.
  - eapply size_insert_found; [eapply search_insert_eq|]; eauto.
  - intros Hnotin. rewrite (search_inserts_other k kvs _ t Hnotin Ht).
    apply search_init. exact Hc.
Qed.

Lemma ChainHashTable_insert_search_witness :
  0 < 10 /\
  exists t t1 t2 : ChainHashTable.table Z,
    ChainHashTable.inserts [(1, 5); (11, 6)] (ChainHashTable.init 10) = Ok t /\
    ChainHashTable.insert 21 7 t = Ok t1 /\
    ChainHashTable.search 21 t1 = Ok (Some 7) /\
    ChainHashTable.insert 21 8 t1 = Ok t2 /\
    ChainHashTable.search 21 t2 = Ok (Some 8) /\
    ChainHashTable.size t2 = ChainHashTable.size t1 /\
    (21 ∉ [(1, 5); (11, 6)].*1 -> ChainHashTable.search 21 t = Ok None).
Proof.
  split; [lia|].
  apply (ChainHashTable_insert_search 10 [(1, 5); (11, 6)] 21 7 8). lia.
Defined.

(** C9, for every table, fails.  The constructor accepts a capacity of 0
    and makes a table without buckets.  No key has been inserted in it, yet
    [search] does not return [None]; and [insert(k, v)] does not return, so
    no [search(k)] after it returns [v]: both raise ZeroDivisionError on
    [hash(key) % len(self.table)]. *)
Lemma contract_fails_without_buckets :
  ChainHashTable.init (V := Z) 0 = [] /\
  ChainHashTable.search 7 (ChainHashTable.init (V := Z) 0)
  = Raise ZeroDivisionError /\
  ChainHashTable.insert 7 5 (ChainHashTable.init 0)
  = Raise ZeroDivisionError /\
  ChainHashTable.search 7 (ChainHashTable.init (V := Z) 0) <> Ok None /\
  ~ (exists t1 : ChainHashTable.table Z,
       ChainHashTable.insert 7 5 (ChainHashTable.init 0) = Ok t1 /\
       ChainHashTable.search 7 t1 = Ok (Some 5)).
Proof.
  split_and!; try (vm_compute; reflexivity).
  - vm_compute. discriminate.
  - intros (t1 & H & _). vm_compute in H. discriminate H.
Qed.

(** ** Records under mutation *)

Lemma search_package_Ok k G p :
  search_package k G = Ok p <->
  ChainHashTable.search k (my_hash_packages G) = Ok (Some p).
Proof.
  unfold search_package.
  destruct (ChainHashTable.search k (my_hash_packages G)) as [[q|]|e]; simpl;
    split; intros H; try discriminate; congruence.
Qed.

Lemma search_package_mutate_eq f k G :
  search_package k
    (set_my_hash_packages (ChainHashTable.mutate f k (my_hash_packages G)) G)
  = let* p := search_package k G in Ok (f p).
Proof.
  unfold search_package; cbn [my_hash_packages set_my_hash_packages].
  rewrite search_mutate_eq.
  destruct (ChainHashTable.search k (my_hash_packages G)) as [[q|]|e]; reflexivity.
Qed.

Lemma search_package_mutate_ne f k k' G :
  k <> k' ->
  search_package k'
    (set_my_hash_packages (ChainHashTable.mutate f k (my_hash_packages G)) G)
  = search_package k' G.
Proof.
  intros Hne. unfold search_package; cbn [my_hash_packages set_my_hash_packages].
  rewrite search_mutate_ne by exact Hne. reflexivity.
Qed.

Lemma static_eq_refl p : static_eq p p.
Proof. repeat split. Qed.

Lemma static_eq_trans p q r : static_eq p q -> static_eq q r -> static_eq p r.
Proof. unfold static_eq. intuition congruence. Qed.

Lemma same_static_refl G : same_static G G.
Proof.
  repeat split. intros k. destruct (search_package k G); simpl;
    [apply static_eq_refl | reflexivity].
Qed.

Lemma same_static_trans G1 G2 G3 :
  same_static G1 G2 -> same_static G2 G3 -> same_static G1 G3.
Proof.
  intros (Hl & Hc & Hn & Hk) (Hl' & Hc' & Hn' & Hk').
  repeat split; try congruence.
  intros k. specialize (Hk k). specialize (Hk' k).
  destruct (search_package k G1), (search_package k G2), (search_package k G3);
    simpl in *; try contradiction; try congruence.
  eapply static_eq_trans; eauto.
Qed.

Lemma same_static_mutate f k G :
  (forall p, static_eq p (f p)) ->
  same_static G
    (set_my_hash_packages (ChainHashTable.mutate f k (my_hash_packages G)) G).
Proof.
  intros Hf. repeat split. intros k'.
  destruct (decide (k = k')) as [<-|Hne].
  - rewrite search_package_mutate_eq.
    destruct (search_package k G); simpl; [apply Hf | reflexivity].
  - rewrite search_package_mutate_ne by exact Hne.
    destruct (search_package k' G); simpl; [apply static_eq_refl | reflexivity].
Qed.

Lemma same_static_set_priority G l :
  same_static G (set_priority_packages l G).
Proof. exact (same_static_refl G). Qed.

Lemma same_static_set_non_priority G l :
  same_static G (set_non_priority_packages l G).
Proof. exact (same_static_refl G). Qed.

Lemma same_static_search G G' k p :
  same_static G G' -> search_package k G = Ok p ->
  exists p', search_package k G' = Ok p' /\ static_eq p p'.
Proof.
  intros (_ & _ & _ & Hk) Hp. specialize (Hk k). rewrite Hp in Hk.
  destruct (search_package k G') as [p'|]; simpl in Hk; [eauto | contradiction].
Qed.

Lemma same_static_search_inv G G' k p' :
  same_static G G' -> search_package k G' = Ok p' ->
  exists p, search_package k G = Ok p /\ static_eq p p'.
Proof.
  intros (_ & _ & _ & Hk) Hp. specialize (Hk k). rewrite Hp in Hk.
  destruct (search_package k G) as [p|]; simpl in Hk; [eauto | contradiction].
Qed.

Lemma same_static_has_group G G' g k :
  same_static G G' -> has_group g k G' = has_group g k G.
Proof.
  intros (_ & _ & _ & Hk). specialize (Hk k). unfold has_group.
  destruct (search_package k G), (search_package k G'); simpl in Hk;
    try contradiction; try reflexivity.
  destruct Hk as (_ & -> & _). reflexivity.
Qed.

Lemma same_static_members G G' g l :
  same_static G G' -> members g l G' = members g l G.
Proof.
  intros HS. unfold members. induction l as [|k l IH]; [reflexivity|].
  rewrite !filter_cons, IH, (same_static_has_group G G' g k HS). reflexivity.
Qed.

Lemma same_static_keys_ok G G' : same_static G G' -> keys_ok G -> keys_ok G'.
Proof.
  intros HS HK k p' Hp'.
  destruct (same_static_search_inv _ _ _ _ HS Hp') as (p & Hp & Hid & _).
  rewrite Hid. eapply HK; eauto.
Qed.

Lemma same_static_ungrouped G G' l :
  same_static G G' -> ungrouped l G -> ungrouped l G'.
Proof.
  intros HS HU k p' Hin Hp'.
  destruct (same_static_search_inv _ _ _ _ HS Hp') as (p & Hp & _ & Hg & _).
  rewrite Hg. eapply HU; eauto.
Qed.

Lemma same_static_counts_ok G G' l :
  same_static G G' -> counts_ok l G -> counts_ok l G'.
Proof.
  intros HS HC g c Hc. rewrite (same_static_members G G' g l HS).
  apply HC. destruct HS as (_ & <- & _). exact Hc.
Qed.

Lemma same_static_distances_nonneg G G' :
  same_static G G' -> distances_nonneg G -> distances_nonneg G'.
Proof. intros (Hl & _) HD loc d. rewrite Hl. apply HD. Qed.

Lemma same_static_distance G G' a b :
  same_static G G' -> distance a b G' = distance a b G.
Proof. intros (Hl & _). unfold distance. rewrite Hl. reflexivity. Qed.

(** ** Truck.load_package and the loops of Truck.load_truck *)

Lemma load_package_Ok k self G self' G' :
  Truck.load_package k self G = Ok (self', G') ->
  exists p, search_package k G = Ok p /\
    self' = Truck.set_packages (Truck.packages self ++ [k]) self /\
    G' = set_my_hash_packages
           (ChainHashTable.mutate
              (Package.set_time_pickup (Truck.truck_time self)) k
              (my_hash_packages G)) G.
Proof.
  unfold Truck.load_package. intros H. inv_bind H.
  injection H as <- <-. eauto.
Qed.

Lemma load_package_same_static k self G self' G' :
  Truck.load_package k self G = Ok (self', G') -> same_static G G'.
Proof.
  intros H. apply load_package_Ok in H as (p & _ & _ & ->).
  apply same_static_mutate. intros q. repeat split.
Qed.

Lemma load_package_search_eq k self G self' G' p :
  Truck.load_package k self G = Ok (self', G') ->
  search_package k G = Ok p ->
  search_package k G' = Ok (Package.set_time_pickup (Truck.truck_time self) p).
Proof.
  intros H Hp. apply load_package_Ok in H as (_ & _ & _ & ->).
  rewrite search_package_mutate_eq, Hp. reflexivity.
Qed.

Lemma load_package_search_ne k k' self G self' G' :
  Truck.load_package k self G = Ok (self', G') -> k <> k' ->
  search_package k' G' = search_package k' G.
Proof.
  intros H Hne. apply load_package_Ok in H as (_ & _ & _ & ->).
  apply search_package_mutate_ne. exact Hne.
Qed.

(** A rule for invariants of a loading pass: a property kept by every
    [load_package] call the pass can make is kept by the pass. *)
Section LoadRule.
Variable I : Truck.t -> Globals -> Prop.
Variables P N : list Z.
Hypothesis I_step : forall self G k self' G',
  I self G -> may_load P N self G k ->
  Truck.load_package k self G = Ok (self', G') -> I self' G'.

Lemma load_group_rule g todo self G self' G' :
  g <> 0 -> todo ⊆ P -> I self G ->
  Truck.load_group g todo self G = Ok (self', G') -> I self' G'.
Proof.
  intros Hg. revert self G. induction todo as [|k todo IH]; intros self G Hsub HI H;
    simpl in H.
  - injection H as <- <-. exact HI.
  - inv_bind H.
    assert (Hin : k ∈ P) by (apply Hsub; left).
    assert (Hsub' : todo ⊆ P) by (intros x Hx; apply Hsub; right; exact Hx).
    destruct (Z.eqb_spec (Package.group a) g) as [Heq|Hne].
    + inv_bind H. destruct a0 as [self1 G1].
      apply (IH self1 G1 Hsub'); [|exact H].
      eapply I_step; [exact HI| |exact Hm0].
      left. split; [exact Hin|]. exists a. split; [exact Hm|]. intros H0. congruence.
    + apply (IH self G Hsub' HI H).
Qed.

Lemma load_priority_step_rule k self G self' G' :
  k ∈ P -> I self G ->
  Truck.load_priority_step P k self G = Ok (self', G') -> I self' G'.
Proof.
  intros Hin HI H. unfold Truck.load_priority_step in H.
  destruct (py_in k (Truck.packages self)); [injection H as <- <-; exact HI|].
  inv_bind H.
  destruct ((Package.req_truck a =? Truck.truck_id self)
            || (Package.req_truck a =? 0)); [|injection H as <- <-; exact HI].
  destruct (Z.leb_spec (Package.time_available a) (Truck.truck_time self));
    [|injection H as <- <-; exact HI].
  destruct (Z.eqb_spec (Package.group a) 0) as [Hg0|Hg].
  - eapply I_step; [exact HI| |exact H]. left. eauto.
  - inv_bind H.
    destruct (Z.of_nat (length (Truck.packages self)) + a0 <=? 16);
      [|injection H as <- <-; exact HI].
    eapply load_group_rule; eauto.
Qed.

Lemma load_priority_rule todo self G self' G' :
  todo ⊆ P -> I self G ->
  Truck.load_priority P todo self G = Ok (self', G') -> I self' G'.
Proof.
  revert self G. induction todo as [|k todo IH]; intros self G Hsub HI H;
    simpl in H.
  - injection H as <- <-. exact HI.
  - destruct (Z.of_nat (length (Truck.packages self)) =? 16);
      [injection H as <- <-; exact HI|].
    inv_bind H. destruct a as [self1 G1].
    apply (IH self1 G1); [intros x Hx; apply Hsub; right; exact Hx| |exact H].
    eapply load_priority_step_rule; eauto. apply Hsub. left.
Qed.

Lemma load_non_priority_rule todo self G self' G' :
  todo ⊆ N -> I self G ->
  Truck.load_non_priority todo self G = Ok (self', G') -> I self' G'.
Proof.
  revert self G. induction todo as [|k todo IH]; intros self G Hsub HI H;
    simpl in H.
  - injection H as <- <-. exact HI.
  - assert (Hsub' : todo ⊆ N) by (intros x Hx; apply Hsub; right; exact Hx).
    destruct (Z.of_nat (length (Truck.packages self)) =? 16);
      [injection H as <- <-; exact HI|].
    inv_bind H.
    destruct (Z.leb_spec (Package.time_available a) (Truck.truck_time self)).
    + inv_bind H. destruct a0 as [self1 G1].
      apply (IH self1 G1 Hsub'); [|exact H].
      eapply I_step; [exact HI| |exact Hm0].
      right. exists k, a. repeat split; auto. apply Hsub. left.
    + apply (IH self G Hsub' HI H).
Qed.

Lemma load_truck_rule self G self' G' :
  I self G -> Truck.load_truck P N self G = Ok (self', G') -> I self' G'.
Proof.
  intros HI H. unfold Truck.load_truck in H. inv_bind H. destruct a as [self1 G1].
  eapply load_non_priority_rule; [reflexivity| |exact H].
  eapply load_priority_rule; [reflexivity|exact HI|exact Hm].
Qed.
End LoadRule.

(** What a loading pass leaves alone. *)
Lemma load_truck_frame P N self G self' G' :
  Truck.load_truck P N self G = Ok (self', G') ->
  same_static G G' /\
  priority_packages G' = priority_packages G /\
  non_priority_packages G' = non_priority_packages G /\
  Truck.truck_id self' = Truck.truck_id self /\
  Truck.truck_time self' = Truck.truck_time self /\
  Truck.distance_traveled self' = Truck.distance_traveled self /\
  Truck.location_id self' = Truck.location_id self /\
  Truck.delivered self' = Truck.delivered self /\
  exists L, Truck.packages self' = Truck.packages self ++ L.
Proof.
  apply (load_truck_rule
    (fun s g => same_static G g /\
       priority_packages g = priority_packages G /\
       non_priority_packages g = non_priority_packages G /\
       Truck.truck_id s = Truck.truck_id self /\
       Truck.truck_time s = Truck.truck_time self /\
       Truck.distance_traveled s = Truck.distance_traveled self /\
       Truck.location_id s = Truck.location_id self /\
       Truck.delivered s = Truck.delivered self /\
       exists L, Truck.packages s = Truck.packages self ++ L) P N).
  - intros s g k s' g' (HS & Hp & Hn & Hi & Ht & Hd & Hl & Hdel & L & HL) _ Hload.
    pose proof (load_package_same_static _ _ _ _ _ Hload) as HS'.
    apply load_package_Ok in Hload as (p & _ & -> & ->). simpl.
    split_and!; auto.
    + eapply same_static_trans; eauto.
    + exists (L ++ [k]). rewrite HL, <- app_assoc. reflexivity.
  - split_and!; auto using same_static_refl.
    exists []. rewrite app_nil_r. reflexivity.
Qed.

(** ** Legs: clock and odometer *)

Lemma round_half_even_nonneg q : (0 <= q)%Q -> 0 <= round_half_even q.
Proof.
  intros Hq. unfold round_half_even.
  assert (Hf : 0 <= Qfloor q).
  { change 0 with (Qfloor (inject_Z 0)) at 1. rewrite Qfloor_Z.
    rewrite <- (Qfloor_Z 0). apply Qfloor_resp_le. exact Hq. }
  destruct (_ ?= _)%Q; [destruct (Z.even _)| |]; lia.
Qed.

Lemma timedelta_seconds_nonneg x : (0 <= x)%Q -> 0 <= timedelta_seconds x.
Proof.
  intros Hx. apply round_half_even_nonneg.
  apply Qmult_le_0_compat; [exact Hx | discriminate].
Qed.

Lemma py_index_elem_of {A : Type} (l : list A) i x :
  py_index l i = Ok x -> x ∈ l.
Proof.
  unfold py_index. destruct (_ || _); [discriminate|].
  destruct (l !! _) as [y|] eqn:Hy; [|discriminate].
  intros [= <-]. eapply list_elem_of_lookup_2; eauto.
Qed.

Lemma distance_nonneg a b G d :
  distances_nonneg G -> distance a b G = Ok d -> (0 <= d)%Q.
Proof.
  intros HD H. unfold distance in H. inv_bind H.
  eapply HD; eapply py_index_elem_of; eauto.
Qed.

Lemma travel_clock dist loc self :
  (0 <= dist)%Q ->
  Truck.truck_time self <= Truck.truck_time (Truck.travel dist loc self).
Proof.
  intros Hd. unfold Truck.travel. simpl.
  assert (0 <= timedelta_seconds (dist / Truck.rate self * 3600)); [|lia].
  apply timedelta_seconds_nonneg.
  apply Qmult_le_0_compat; [|discriminate].
  unfold Qdiv. apply Qmult_le_0_compat; [exact Hd | discriminate].
Qed.

Lemma travel_odometer dist loc self :
  (0 <= dist)%Q ->
  (Truck.distance_traveled self
   <= Truck.distance_traveled (Truck.travel dist loc self))%Q.
Proof.
  intros Hd. unfold Truck.travel. simpl.
  rewrite <- (Qplus_0_r (Truck.distance_traveled self)) at 1.
  apply Qplus_le_r. exact Hd.
Qed.

Lemma increment_Ok k self G self' :
  Truck.increment_time_and_distance k self G = Ok self' ->
  exists p dist, search_package k G = Ok p /\
    distance (Truck.location_id self) (Package.loc_id p) G = Ok dist /\
    self' = Truck.travel dist (Package.loc_id p) self.
Proof.
  unfold Truck.increment_time_and_distance. intros H.
  inv_bind H. inv_bind H. injection H as <-. eauto.
Qed.

Lemma deliver_package_Ok k self G self' G' :
  Truck.deliver_package k self G = Ok (self', G') ->
  exists p self1 l,
    search_package k G = Ok p /\
    G' = set_my_hash_packages
           (ChainHashTable.mutate
              (Package.set_time_delivered (Truck.truck_time self)) k
              (my_hash_packages G)) G /\
    Truck.increment_time_and_distance k self G' = Ok self1 /\
    py_remove k (Truck.packages self) = Ok l /\
    self' = Truck.log_delivered k (Truck.set_packages l self1).
Proof.
  unfold Truck.deliver_package. intros H.
  inv_bind H. inv_bind H. inv_bind H. injection H as <- <-.
  exists a, a0, a1. split_and!; auto.
  apply increment_Ok in Hm0 as (q & d & _ & _ & ->). exact Hm1.
Qed.

Lemma deliver_package_same_static k self G self' G' :
  Truck.deliver_package k self G = Ok (self', G') -> same_static G G'.
Proof.
  intros H. apply deliver_package_Ok in H as (p & s1 & l & _ & -> & _).
  apply same_static_mutate. intros q. repeat split.
Qed.

Lemma return_to_hub_Ok self G self' :
  Truck.return_to_hub self G = Ok self' ->
  exists dist, distance (Truck.location_id self) 0 G = Ok dist /\
    self' = Truck.travel dist 0 self.
Proof.
  unfold Truck.return_to_hub. intros H. inv_bind H. injection H as <-. eauto.
Qed.

(** C10.  With a distance table without negative entries, no method of
    [Truck] that returns has lowered the clock or the odometer.
    ([find_shortest_distance] assigns no attribute: it only returns an
    id.) *)
Theorem clock_and_odometer_never_decrease (G : Globals) (self : Truck.t) :
  distances_nonneg G ->
  (forall P N self' G',
     Truck.load_truck P N self G = Ok (self', G') ->
     Truck.truck_time self <= Truck.truck_time self' /\
     (Truck.distance_traveled self <= Truck.distance_traveled self')%Q) /\
  (forall k self' G',
     Truck.load_package k self G = Ok (self', G') ->
     Truck.truck_time self <= Truck.truck_time self' /\
     (Truck.distance_traveled self <= Truck.distance_traveled self')%Q) /\
  (forall k self',
     Truck.increment_time_and_distance k self G = Ok self' ->
     Truck.truck_time self <= Truck.truck_time self' /\
     (Truck.distance_traveled self <= Truck.distance_traveled self')%Q) /\
  (forall k self' G',
     Truck.deliver_package k self G = Ok (self', G') ->
     Truck.truck_time self <= Truck.truck_time self' /\
     (Truck.distance_traveled self <= Truck.distance_traveled self')%Q) /\
  (forall self',
     Truck.return_to_hub self G = Ok self' ->
     Truck.truck_time self <= Truck.truck_time self' /\
     (Truck.distance_traveled self <= Truck.distance_traveled self')%Q).
Proof.
  intros HD. split_and!.
  - intros P N self' G' H.
    apply load_truck_frame in H as (_ & _ & _ & _ & -> & -> & _).
    split; [lia | apply Qle_refl].
  - intros k self' G' H. apply load_package_Ok in H as (p & _ & -> & _).
    split; [simpl; lia | apply Qle_refl].
  - intros k self' H. apply increment_Ok in H as (p & d & _ & Hd & ->).
    pose proof (distance_nonneg _ _ _ _ HD Hd).
    split; [apply travel_clock | apply travel_odometer]; assumption.
  - intros k self' G' H.
    pose proof (deliver_package_same_static _ _ _ _ _ H) as HS.
    apply deliver_package_Ok in H as (p & s1 & l & _ & HG' & Hinc & _ & ->).
    apply increment_Ok in Hinc as (q & d & _ & Hd & ->).
    rewrite (same_static_distance _ _ _ _ HS) in Hd.
    pose proof (distance_nonneg _ _ _ _ HD Hd).
    split; [apply (travel_clock d (Package.loc_id q) self)
           | apply (travel_odometer d (Package.loc_id q) self)]; assumption.
  - intros self' H. apply return_to_hub_Ok in H as (d & Hd & ->).
    pose proof (distance_nonneg _ _ _ _ HD Hd).
    split; [apply travel_clock | apply travel_odometer]; assumption.
Qed.

(** ** The group branch of Truck.load_truck *)

(** The inner loop appends exactly the members of the group, in the order of
    the list. *)
Lemma load_group_Ok g todo self G self' G' G0 :
  same_static G0 G ->
  Truck.load_group g todo self G = Ok (self', G') ->
  Truck.packages self' = Truck.packages self ++ members g todo G0.
Proof.
  revert self G. induction todo as [|k todo IH]; intros self G HS H; simpl in H.
  - injection H as <- <-. unfold members. rewrite filter_nil, app_nil_r.
    reflexivity.
  - inv_bind H. unfold members. rewrite filter_cons. fold (members g todo G0).
    assert (Hg : has_group g k G0 = (Package.group a =? g)).
    { rewrite <- (same_static_has_group G0 G g k HS). unfold has_group.
      rewrite Hm. reflexivity. }
    rewrite Hg. destruct (Package.group a =? g) eqn:Hga.
    + inv_bind H. destruct a0 as [self1 G1].
      rewrite decide_True by reflexivity.
      pose proof (load_package_same_static _ _ _ _ _ Hm0) as HS1.
      rewrite (IH self1 G1 (same_static_trans _ _ _ HS HS1) H).
      apply load_package_Ok in Hm0 as (_ & _ & -> & _). simpl.
      rewrite <- app_assoc. reflexivity.
    + rewrite decide_False by discriminate. apply (IH self G HS H).
Qed.

Lemma load_group_frame g todo self G self' G' :
  Truck.load_group g todo self G = Ok (self', G') ->
  same_static G G' /\
  (Truck.peak self' <= Nat.max (Truck.peak self) (length (Truck.packages self')))%nat /\
  ((length (Truck.packages self) <= Truck.peak self)%nat ->
   (length (Truck.packages self') <= Truck.peak self')%nat).
Proof.
  revert self G. induction todo as [|k todo IH]; intros self G H; simpl in H.
  - injection H as <- <-. split_and!; [apply same_static_refl | lia | auto].
  - inv_bind H. destruct (Package.group a =? g).
    + inv_bind H. destruct a0 as [self1 G1].
      pose proof (load_package_same_static _ _ _ _ _ Hm0) as HS1.
      destruct (IH _ _ H) as (HS2 & Hpk & Hok).
      pose proof (load_group_Ok _ _ _ _ _ _ _ (same_static_refl G1) H) as Hpk'.
      apply load_package_Ok in Hm0 as (_ & _ & -> & _).
      split_and!; [eapply same_static_trans; eauto| |].
      * rewrite Hpk' in *. simpl in *. rewrite !length_app in *. simpl in *. lia.
      * intros _. apply Hok. simpl. lia.
    + apply (IH _ _ H).
Qed.

(** A second rule, for invariants that hold between the admissions of a
    pass but not in the middle of the admission of a group: the three cases
    are the three places where [load_truck] admits, with what was tested
    before each. *)
Section EntryRule.
Variable I : Truck.t -> Globals -> Prop.
Variables P N : list Z.
Hypothesis I_single : forall self G k p self' G',
  I self G -> k ∈ P -> k ∉ Truck.packages self ->
  Z.of_nat (length (Truck.packages self)) <> 16 ->
  search_package k G = Ok p -> Package.group p = 0 ->
  Package.req_truck p = Truck.truck_id self \/ Package.req_truck p = 0 ->
  Package.time_available p <= Truck.truck_time self ->
  Truck.load_package k self G = Ok (self', G') -> I self' G'.
Hypothesis I_group : forall self G k p c self' G',
  I self G -> k ∈ P -> k ∉ Truck.packages self ->
  Z.of_nat (length (Truck.packages self)) <> 16 ->
  search_package k G = Ok p -> Package.group p <> 0 ->
  Package.req_truck p = Truck.truck_id self \/ Package.req_truck p = 0 ->
  Package.time_available p <= Truck.truck_time self ->
  group_count_dictionary G !! Package.group p = Some c ->
  Z.of_nat (length (Truck.packages self)) + c <= 16 ->
  Truck.load_group (Package.group p) P self G = Ok (self', G') -> I self' G'.
Hypothesis I_other : forall self G q pk self' G',
  I self G -> q ∈ N ->
  Z.of_nat (length (Truck.packages self)) <> 16 ->
  search_package q G = Ok pk ->
  Package.time_available pk <= Truck.truck_time self ->
  Truck.load_package (Package.id pk) self G = Ok (self', G') -> I self' G'.

Lemma load_priority_step_entries k self G self' G' :
  k ∈ P -> I self G ->
  Z.of_nat (length (Truck.packages self)) <> 16 ->
  Truck.load_priority_step P k self G = Ok (self', G') -> I self' G'.
Proof.
  intros Hin HI Hlen H. unfold Truck.load_priority_step in H.
  unfold py_in in H. destruct (bool_decide_reflect (k ∈ Truck.packages self));
    [injection H as <- <-; exact HI|].
  inv_bind H.
  destruct ((Package.req_truck a =? Truck.truck_id self)
            || (Package.req_truck a =? 0)) eqn:Hreq;
    [|injection H as <- <-; exact HI].
  assert (Hreq' : Package.req_truck a = Truck.truck_id self
                  \/ Package.req_truck a = 0).
  { apply orb_true_iff in Hreq as [?%Z.eqb_eq|?%Z.eqb_eq]; auto. }
  destruct (Z.leb_spec (Package.time_available a) (Truck.truck_time self));
    [|injection H as <- <-; exact HI].
  destruct (Z.eqb_spec (Package.group a) 0) as [Hg0|Hg].
  - eapply I_single; eauto.
  - inv_bind H. unfold group_count in Hm0.
    destruct (group_count_dictionary G !! Package.group a) as [c|] eqn:Hc;
      [|discriminate].
    injection Hm0 as <-.
    destruct (Z.leb_spec (Z.of_nat (length (Truck.packages self)) + c) 16);
      [|injection H as <- <-; exact HI].
    eapply I_group; eauto.
Qed.

Lemma load_priority_entries todo self G self' G' :
  todo ⊆ P -> I self G ->
  Truck.load_priority P todo self G = Ok (self', G') -> I self' G'.
Proof.
  revert self G. induction todo as [|k todo IH]; intros self G Hsub HI H;
    simpl in H.
  - injection H as <- <-. exact HI.
  - destruct (Z.eqb_spec (Z.of_nat (length (Truck.packages self))) 16);
      [injection H as <- <-; exact HI|].
    inv_bind H. destruct a as [self1 G1].
    apply (IH self1 G1); [intros x Hx; apply Hsub; right; exact Hx| |exact H].
    eapply load_priority_step_entries; eauto. apply Hsub. left.
Qed.

Lemma load_non_priority_entries todo self G self' G' :
  todo ⊆ N -> I self G ->
  Truck.load_non_priority todo self G = Ok (self', G') -> I self' G'.
Proof.
  revert self G. induction todo as [|k todo IH]; intros self G Hsub HI H;
    simpl in H.
  - injection H as <- <-. exact HI.
  - assert (Hsub' : todo ⊆ N) by (intros x Hx; apply Hsub; right; exact Hx).
    destruct (Z.eqb_spec (Z.of_nat (length (Truck.packages self))) 16);
      [injection H as <- <-; exact HI|].
    inv_bind H.
    destruct (Z.leb_spec (Package.time_available a) (Truck.truck_time self)).
    + inv_bind H. destruct a0 as [self1 G1].
      apply (IH self1 G1 Hsub'); [|exact H].
      eapply I_other; eauto. apply Hsub. left.
    + apply (IH self G Hsub' HI H).
Qed.

Lemma load_truck_entries self G self' G' :
  I self G -> Truck.load_truck P N self G = Ok (self', G') -> I self' G'.
Proof.
  intros HI H. unfold Truck.load_truck in H. inv_bind H. destruct a as [self1 G1].
  eapply load_non_priority_entries; [reflexivity| |exact H].
  eapply load_priority_entries; [reflexivity|exact HI|exact Hm].
Qed.
End EntryRule.

(** ** Capacity *)

Lemma counts_ok_members P G G' g c :
  counts_ok P G -> same_static G G' ->
  group_count_dictionary G' !! g = Some c ->
  Z.of_nat (length (members g P G)) <= c.
Proof.
  intros HC (_ & Hd & _) Hc. apply HC. rewrite <- Hd. exact Hc.
Qed.

Lemma load_truck_capacity P N self G self' G' :
  counts_ok P G -> within_capacity self ->
  Truck.load_truck P N self G = Ok (self', G') -> within_capacity self'.
Proof.
  intros HC HW H.
  cut (same_static G G' /\ within_capacity self'); [tauto|].
  revert H.
  apply (load_truck_entries (fun s g => same_static G g /\ within_capacity s) P N).
  - intros s g k p s' g' (HS & Hlen & Hpk) _ _ Hne _ _ _ _ Hload.
    split; [eapply same_static_trans; eauto using load_package_same_static|].
    apply load_package_Ok in Hload as (_ & _ & -> & _).
    unfold within_capacity. simpl. rewrite length_app. simpl. lia.
  - intros s g k p c s' g' (HS & Hlen & Hpk) _ _ _ _ _ _ _ Hc Hroom Hload.
    destruct (load_group_frame _ _ _ _ _ _ Hload) as (HS' & Hpk' & Hok).
    split; [eapply same_static_trans; eauto|].
    pose proof (load_group_Ok _ _ _ _ _ _ G HS Hload) as Hman.
    pose proof (counts_ok_members _ _ _ _ _ HC HS Hc) as Hmem.
    specialize (Hok Hlen).
    unfold within_capacity. split; [exact Hok|].
    rewrite Hman, length_app in Hpk'. lia.
  - intros s g q pk s' g' (HS & Hlen & Hpk) _ Hne _ _ Hload.
    split; [eapply same_static_trans; eauto using load_package_same_static|].
    apply load_package_Ok in Hload as (_ & _ & -> & _).
    unfold within_capacity. simpl. rewrite length_app. simpl. lia.
  - split; [apply same_static_refl | exact HW].
Qed.

(** ** list.remove, the pending lists and the delivery loop *)

Lemma py_remove_Ok x l l' :
  py_remove x l = Ok l' ->
  l ≡ₚ x :: l' /\ (forall k, k <> x -> (k ∈ l' <-> k ∈ l)) /\
  (forall (q : Z -> Prop) (Hq : forall k, Decision (q k)),
     length (filter q l') <= length (filter q l))%nat.
Proof.
  revert l'. induction l as [|y l IH]; intros l' H; simpl in H; [discriminate|].
  destruct (Z.eqb_spec y x) as [->|Hne].
  - injection H as <-. split_and!.
    + reflexivity.
    + intros k Hk. rewrite elem_of_cons. intuition congruence.
    + intros q ?. rewrite filter_cons. destruct (decide (q x)); simpl; lia.
  - inv_bind H. injection H as <-. destruct (IH a Hm) as (Hp & Hk & Hf).
    split_and!.
    + rewrite Hp. apply Permutation_swap.
    + intros k Hkx. rewrite !elem_of_cons, (Hk k Hkx). reflexivity.
    + intros q ?. rewrite !filter_cons. specialize (Hf q _).
      destruct (decide (q y)); simpl; lia.
Qed.

Lemma py_remove_elem_of x l : x ∈ l -> exists l', py_remove x l = Ok l'.
Proof.
  induction l as [|y l IH]; intros Hin; [inversion Hin|]. simpl.
  destruct (Z.eqb_spec y x) as [->|Hne]; [eauto|].
  apply elem_of_cons in Hin as [->|Hin]; [contradiction|].
  destruct (IH Hin) as [l' ->]. simpl. eauto.
Qed.

Lemma unpend_Ok d G G1 :
  unpend d G = Ok G1 ->
  my_hash_packages G1 = my_hash_packages G /\
  same_static G G1 /\
  (forall k, k <> d ->
     (k ∈ priority_packages G1 <-> k ∈ priority_packages G) /\
     (k ∈ non_priority_packages G1 <-> k ∈ non_priority_packages G)) /\
  (forall (q : Z -> Prop) (Hq : forall k, Decision (q k)),
     length (filter q (priority_packages G1))
     <= length (filter q (priority_packages G)))%nat /\
  (forall k, k ∈ non_priority_packages G1 -> k ∈ non_priority_packages G).
Proof.
  unfold unpend. intros H.
  destruct (py_in d (priority_packages G)).
  - inv_bind H. injection H as <-. apply py_remove_Ok in Hm as (_ & Hk & Hf).
    split_and!.
    + reflexivity.
    + apply same_static_set_priority.
    + intros k Hne. split; [apply Hk; exact Hne | reflexivity].
    + intros q Hq. apply Hf.
    + intros k Hin. exact Hin.
  - destruct (py_in d (non_priority_packages G)).
    + inv_bind H. injection H as <-. apply py_remove_Ok in Hm as (Hp & Hk & _).
      split_and!.
      * reflexivity.
      * apply same_static_set_non_priority.
      * intros k Hne. split; [reflexivity | apply Hk; exact Hne].
      * intros q Hq. reflexivity.
      * simpl. intros k Hin. rewrite Hp. right. exact Hin.
    + injection H as <-. split_and!.
      * reflexivity.
      * apply same_static_refl.
      * intros k _. split; reflexivity.
      * intros q Hq. reflexivity.
      * intros k Hin. exact Hin.
Qed.

Lemma search_package_unpend d G G1 k :
  unpend d G = Ok G1 -> search_package k G1 = search_package k G.
Proof.
  intros H. apply unpend_Ok in H as (Hh & _). unfold search_package.
  rewrite Hh. reflexivity.
Qed.

(** A rule for invariants of the delivery loop: a property kept by one turn
    of the loop is kept by the loop. *)
Section DeliveryRule.
Variable I : Truck.t -> Globals -> Prop.
Hypothesis I_turn : forall truck G d G1 truck' G2,
  I truck G -> Truck.find_shortest_distance truck G = Ok d ->
  unpend d G = Ok G1 ->
  Truck.deliver_package d truck G1 = Ok (truck', G2) -> I truck' G2.

Lemma deliver_all_rule fuel truck G truck' G' :
  I truck G -> deliver_all fuel truck G = Ok (truck', G') -> I truck' G'.
Proof.
  revert truck G. induction fuel as [|fuel IH]; intros truck G HI H; simpl in H.
  - destruct (Truck.packages truck); injection H as <- <-; exact HI.
  - destruct (Truck.packages truck) eqn:Hpk; [injection H as <- <-; exact HI|].
    inv_bind H. inv_bind H. inv_bind H. destruct a1 as [truck1 G2].
    apply (IH truck1 G2); [|exact H]. eapply I_turn; eauto.
Qed.
End DeliveryRule.

(** The loop stops because the manifest is empty, not because the fuel is
    spent. *)
Lemma deliver_all_empties fuel truck G truck' G' :
  (length (Truck.packages truck) <= fuel)%nat ->
  deliver_all fuel truck G = Ok (truck', G') -> Truck.packages truck' = [].
Proof.
  revert truck G. induction fuel as [|fuel IH]; intros truck G Hlen H; simpl in H.
  - destruct (Truck.packages truck) eqn:Hpk; injection H as <- <-;
      [exact Hpk | simpl in Hlen; lia].
  - destruct (Truck.packages truck) eqn:Hpk; [injection H as <- <-; exact Hpk|].
    inv_bind H. inv_bind H. inv_bind H. destruct a1 as [truck1 G2].
    apply (IH truck1 G2); [|exact H].
    apply deliver_package_Ok in Hm1 as (p & s1 & l' & _ & _ & _ & Hrem & ->).
    apply py_remove_Ok in Hrem as (Hperm & _). simpl.
    apply Permutation_length in Hperm. rewrite Hpk in Hperm. simpl in *. lia.
Qed.

(** The ids handed over by the loop are the manifest it started from. *)
Lemma deliver_all_delivered fuel truck G truck' G' :
  deliver_all fuel truck G = Ok (truck', G') ->
  Truck.truck_id truck' = Truck.truck_id truck /\
  exists D, Truck.delivered truck' = Truck.delivered truck ++ D /\
    D ++ Truck.packages truck' ≡ₚ Truck.packages truck.
Proof.
  apply (deliver_all_rule (fun t g =>
    Truck.truck_id t = Truck.truck_id truck /\
    exists D, Truck.delivered t = Truck.delivered truck ++ D /\
      D ++ Truck.packages t ≡ₚ Truck.packages truck)).
  - intros t g d g1 t' g2 (Hid & D & HD & Hperm) _ _ Hdel.
    apply deliver_package_Ok in Hdel as (p & s1 & l & _ & _ & Hinc & Hrem & ->).
    apply increment_Ok in Hinc as (q & dist & _ & _ & ->).
    apply py_remove_Ok in Hrem as (Hp & _). simpl.
    split; [exact Hid|]. exists (D ++ [d]). split.
    + rewrite HD, <- app_assoc. reflexivity.
    + rewrite <- Hperm, Hp, <- app_assoc. reflexivity.
  - split; [reflexivity|]. exists []. rewrite app_nil_r. split; reflexivity.
Qed.

(** ** Rules for the trips of a run *)

Section RunRule.
Variable K : Globals -> Prop.
Variable T : Truck.t -> Prop.
Hypothesis trip_keeps : forall truck G truck' G',
  K G -> T truck -> trip truck G = Ok (truck', G') -> K G' /\ T truck'.

Lemma for_trucks_rule trucks G trucks' G' :
  K G -> Forall T trucks -> for_trucks trucks G = Ok (trucks', G') ->
  K G' /\ Forall T trucks'.
Proof.
  revert G trucks'. induction trucks as [|truck trucks IH];
    intros G trucks' HK HT H; simpl in H.
  - injection H as <- <-. auto.
  - inv_bind H. destruct a as [truck1 G1]. inv_bind H. destruct a as [rest G2].
    injection H as <- <-. apply Forall_cons in HT as [HT1 HT].
    destruct (trip_keeps _ _ _ _ HK HT1 Hm) as [HK1 HT1'].
    destruct (IH _ _ HK1 HT Hm0) as [HK2 HT2]. auto.
Qed.

Lemma route_packages_rule fuel trucks G trucks' G' :
  K G -> Forall T trucks ->
  route_packages fuel trucks G = Some (Ok (trucks', G')) ->
  K G' /\ Forall T trucks' /\ pending G' = false.
Proof.
  revert trucks G. induction fuel as [|fuel IH]; intros trucks G HK HT H;
    simpl in H; destruct (pending G) eqn:Hpend; try discriminate;
    try (injection H as <- <-; auto).
  destruct (for_trucks trucks G) as [[trucks1 G1]|e] eqn:Hfor; [|discriminate].
  destruct (for_trucks_rule _ _ _ _ HK HT Hfor) as [HK1 HT1]. eauto.
Qed.
End RunRule.

Lemma pending_false G :
  pending G = false ->
  priority_packages G = [] /\ non_priority_packages G = [].
Proof.
  unfold pending. intros H. apply orb_false_iff in H as [H1 H2].
  apply negb_false_iff in H1, H2.
  apply bool_decide_eq_true in H1, H2. auto.
Qed.

(** ** Capacity over a run *)

Lemma counts_ok_unpend d G G1 :
  unpend d G = Ok G1 ->
  counts_ok (priority_packages G) G -> counts_ok (priority_packages G1) G1.
Proof.
  intros H HC g c Hc.
  apply unpend_Ok in H as (_ & HS & _ & Hf & _).
  rewrite (same_static_members G G1 g _ HS).
  destruct HS as (_ & Hd & _). rewrite Hd in Hc. specialize (HC g c Hc).
  unfold members in *.
  specialize (Hf (fun k => has_group g k G = true) _). lia.
Qed.

Lemma trip_capacity truck G truck' G' :
  counts_ok (priority_packages G) G -> within_capacity truck ->
  trip truck G = Ok (truck', G') ->
  counts_ok (priority_packages G') G' /\ within_capacity truck'.
Proof.
  intros HC HW H. unfold trip in H.
  inv_bind H. destruct a as [truck1 G1].
  inv_bind H. destruct a as [truck2 G2].
  inv_bind H. injection H as <- <-.
  pose proof (load_truck_capacity _ _ _ _ _ _ HC HW Hm) as HW1.
  apply load_truck_frame in Hm as (HS1 & Hp1 & _).
  assert (HC1 : counts_ok (priority_packages G1) G1).
  { rewrite Hp1. eapply same_static_counts_ok; eauto. }
  assert (H2 : counts_ok (priority_packages G2) G2 /\ within_capacity truck2).
  { revert Hm0. apply (deliver_all_rule (fun t g =>
      counts_ok (priority_packages g) g /\ within_capacity t)); [|auto].
    intros t g d g1 t' g2 (HCg & Hlen & Hpk) _ Hun Hdel.
    pose proof (counts_ok_unpend _ _ _ Hun HCg) as HCg1.
    pose proof (deliver_package_same_static _ _ _ _ _ Hdel) as HS.
    apply deliver_package_Ok in Hdel as (p & s1 & l & _ & HG2 & Hinc & Hrem & ->).
    apply increment_Ok in Hinc as (q & dist & _ & _ & ->).
    apply py_remove_Ok in Hrem as (Hperm & _).
    apply Permutation_length in Hperm. simpl in Hperm.
    split.
    - replace (priority_packages g2) with (priority_packages g1)
        by (rewrite HG2; reflexivity).
      eapply same_static_counts_ok; eauto.
    - unfold within_capacity. simpl. lia. }
  destruct H2 as [HC2 HW2]. split; [exact HC2|].
  apply return_to_hub_Ok in Hm1 as (dist & _ & ->). exact HW2.
Qed.

Lemma route_packages_capacity fuel trucks G trucks' G' :
  counts_ok (priority_packages G) G -> Forall within_capacity trucks ->
  route_packages fuel trucks G = Some (Ok (trucks', G')) ->
  Forall within_capacity trucks'.
Proof.
  intros HC HW H.
  eapply (route_packages_rule (fun g => counts_ok (priority_packages g) g)
            within_capacity) in H as (_ & HW' & _); eauto.
  intros. eapply trip_capacity; eauto.
Qed.

(** ** The order of the timestamps over a run *)

Lemma load_truck_en_route P N self G self' G' :
  keys_ok G -> en_route_ok self G ->
  Truck.load_truck P N self G = Ok (self', G') -> en_route_ok self' G'.
Proof.
  intros HK HE H.
  cut (same_static G G' /\ Truck.truck_time self' = Truck.truck_time self /\
       priority_packages G' = priority_packages G /\
       non_priority_packages G' = non_priority_packages G /\
       en_route_ok self' G'); [tauto|].
  revert H.
  apply (load_truck_rule (fun s g =>
    same_static G g /\ Truck.truck_time s = Truck.truck_time self /\
    priority_packages g = priority_packages G /\
    non_priority_packages g = non_priority_packages G /\
    en_route_ok s g) P N).
  2:{ split_and!; auto using same_static_refl. }
  intros s g k s' g' (HS & Ht & Hp & Hn & HEs) Hmay Hload.
  pose proof (load_package_same_static _ _ _ _ _ Hload) as HS'.
  pose proof (same_static_keys_ok _ _ HS HK) as HKg.
  destruct (load_package_Ok _ _ _ _ _ Hload) as (p0 & Hp0 & Hs' & Hg').
  assert (Havail : Package.group p0 = 0 ->
                   Package.time_available p0 <= Truck.truck_time s).
  { destruct Hmay as [(_ & p & Hp' & Hav)|(q & pk & _ & Hq & Hid & Hav)].
    - rewrite Hp0 in Hp'. injection Hp' as <-. exact Hav.
    - pose proof (HKg _ _ Hq) as Hqid. rewrite <- Hid in Hqid. subst q.
      rewrite Hp0 in Hq. injection Hq as <-. intros _. exact Hav. }
  split_and!.
  - eapply same_static_trans; eauto.
  - rewrite Hs'. exact Ht.
  - rewrite Hg'. exact Hp.
  - rewrite Hg'. exact Hn.
  - intros k1 p1 Hk1. destruct (decide (k = k1)) as [<-|Hne].
    + rewrite (load_package_search_eq _ _ _ _ _ _ Hload Hp0) in Hk1.
      injection Hk1 as <-. split.
      * intros _. rewrite Hs'. split; simpl; [lia | exact Havail].
      * intros Hnot. exfalso. apply Hnot. rewrite Hs'. simpl.
        apply elem_of_app. right. left.
    + rewrite (load_package_search_ne _ _ _ _ _ _ Hload Hne) in Hk1.
      destruct (HEs _ _ Hk1) as [Hin Hout].
      assert (Hiff : k1 ∈ Truck.packages s' <-> k1 ∈ Truck.packages s).
      { rewrite Hs'. simpl. rewrite elem_of_app, list_elem_of_singleton.
        intuition congruence. }
      split.
      * intros Hk. apply Hiff in Hk. destruct (Hin Hk) as [Ha Hb].
        split; [rewrite Hs'; exact Ha | exact Hb].
      * intros Hk. rewrite Hg'. simpl. apply Hout. rewrite <- Hiff. exact Hk.
Qed.

Lemma deliver_turn_en_route truck G d G1 truck' G2 :
  distances_nonneg G -> en_route_ok truck G ->
  unpend d G = Ok G1 ->
  Truck.deliver_package d truck G1 = Ok (truck', G2) ->
  en_route_ok truck' G2.
Proof.
  intros HD HE Hun Hdel.
  pose proof (deliver_package_same_static _ _ _ _ _ Hdel) as HS2.
  destruct (unpend_Ok _ _ _ Hun) as (_ & HS1 & Hpools & _).
  destruct (deliver_package_Ok _ _ _ _ _ Hdel) as (p & s1 & l & Hp & HG2 & Hinc & Hrem & Ht').
  apply increment_Ok in Hinc as (q & dist & _ & Hdist & Hs1).
  assert (Hclock : Truck.truck_time truck <= Truck.truck_time truck').
  { rewrite Ht', Hs1. apply (travel_clock dist (Package.loc_id q) truck).
    eapply distance_nonneg; [|exact Hdist].
    eapply same_static_distances_nonneg; [|exact HD].
    eapply same_static_trans; eauto. }
  assert (Hman : Truck.packages truck' = l) by (rewrite Ht', Hs1; reflexivity).
  destruct (py_remove_Ok _ _ _ Hrem) as (Hperm & Hiff & _).
  assert (Hd_in : d ∈ Truck.packages truck) by (rewrite Hperm; left).
  rewrite (search_package_unpend _ _ _ d Hun) in Hp.
  intros k p' Hk. rewrite Hman. destruct (decide (d = k)) as [<-|Hne].
  - rewrite HG2, search_package_mutate_eq, (search_package_unpend _ _ _ d Hun), Hp
      in Hk.
    injection Hk as <-. destruct (HE _ _ Hp) as [Hin _].
    destruct (Hin Hd_in) as [Ha Hb]. split.
    + intros _. split; simpl; [lia | exact Hb].
    + intros _. right. right. split; simpl; [exact Ha | exact Hb].
  - rewrite HG2, search_package_mutate_ne, (search_package_unpend _ _ _ k Hun)
      in Hk by exact Hne.
    destruct (HE _ _ Hk) as [Hin Hout].
    assert (Hne' : k <> d) by congruence.
    split.
    + intros Hkl. apply (Hiff k Hne') in Hkl. destruct (Hin Hkl) as [Ha Hb].
      split; [lia | exact Hb].
    + intros Hkl. rewrite <- (Hiff k Hne') in Hout.
      destruct (Hpools k Hne') as [Hpp Hpn].
      rewrite HG2. simpl. rewrite Hpp, Hpn. apply Hout. exact Hkl.
Qed.

Lemma trip_settled truck G truck' G' :
  keys_ok G /\ distances_nonneg G /\ settled G ->
  Truck.packages truck = [] ->
  trip truck G = Ok (truck', G') ->
  (keys_ok G' /\ distances_nonneg G' /\ settled G') /\
  Truck.packages truck' = [].
Proof.
  intros (HK & HD & HSet) Hempty H. unfold trip in H.
  inv_bind H. destruct a as [truck1 G1].
  inv_bind H. destruct a as [truck2 G2].
  inv_bind H. injection H as <- <-.
  assert (HE : en_route_ok truck G).
  { intros k p Hk. split; [rewrite Hempty; intros Hin; inversion Hin|].
    intros _. eapply HSet; eauto. }
  pose proof (load_truck_en_route _ _ _ _ _ _ HK HE Hm) as HE1.
  apply load_truck_frame in Hm as (HS1 & _).
  pose proof (same_static_keys_ok _ _ HS1 HK) as HK1.
  pose proof (same_static_distances_nonneg _ _ HS1 HD) as HD1.
  pose proof (deliver_all_empties _ _ _ _ _ (Nat.le_refl _) Hm0) as Hempty2.
  assert (H2 : keys_ok G2 /\ distances_nonneg G2 /\ en_route_ok truck2 G2).
  { revert Hm0. apply (deliver_all_rule (fun t g =>
      keys_ok g /\ distances_nonneg g /\ en_route_ok t g)); [|auto].
    intros t g d g1 t' g2 (HKg & HDg & HEg) _ Hun Hdel.
    pose proof (deliver_package_same_static _ _ _ _ _ Hdel) as HSd.
    destruct (unpend_Ok _ _ _ Hun) as (_ & HSu & _).
    pose proof (same_static_trans _ _ _ HSu HSd) as HSt.
    split_and!.
    - eapply same_static_keys_ok; eauto.
    - eapply same_static_distances_nonneg; eauto.
    - eapply deliver_turn_en_route; eauto. }
  destruct H2 as (HK2 & HD2 & HE2).
  apply return_to_hub_Ok in Hm1 as (dist & _ & ->).
  split_and!; auto.
  intros k p Hk. destruct (HE2 _ _ Hk) as [_ Hout]. apply Hout.
  rewrite Hempty2. intros Hin. inversion Hin.
Qed.

Lemma route_packages_chain fuel trucks G trucks' G' :
  keys_ok G -> distances_nonneg G -> settled G ->
  Forall (fun truck => Truck.packages truck = []) trucks ->
  route_packages fuel trucks G = Some (Ok (trucks', G')) ->
  forall k p, search_package k G' = Ok p -> chain_ok p.
Proof.
  intros HK HD HSet HT H.
  eapply (route_packages_rule
            (fun g => keys_ok g /\ distances_nonneg g /\ settled g)
            (fun truck => Truck.packages truck = []))
    in H as ((_ & _ & HSet') & _ & Hpend); eauto using trip_settled.
  apply pending_false in Hpend as [Hp Hn].
  intros k p Hk. destruct (HSet' _ _ Hk) as [Hin|[Hin|Hok]]; [| |exact Hok].
  - rewrite Hp in Hin. inversion Hin.
  - rewrite Hn in Hin. inversion Hin.
Qed.

(** ** Admission of a group *)

Lemma has_group_search g k G p :
  search_package k G = Ok p -> has_group g k G = (Package.group p =? g).
Proof. unfold has_group. intros ->. reflexivity. Qed.

Lemma has_group_unique g g' k G :
  has_group g k G = true -> has_group g' k G = true -> g = g'.
Proof.
  unfold has_group. destruct (search_package k G); [|discriminate].
  intros ?%Z.eqb_eq ?%Z.eqb_eq. congruence.
Qed.

Lemma elem_of_members g l G k :
  k ∈ members g l G <-> k ∈ l /\ has_group g k G = true.
Proof. unfold members. rewrite list_elem_of_filter. tauto. Qed.

Lemma load_priority_full P todo self G :
  Z.of_nat (length (Truck.packages self)) = 16 ->
  Truck.load_priority P todo self G = Ok (self, G).
Proof.
  intros Hlen. destruct todo; simpl; [reflexivity|].
  rewrite Hlen. reflexivity.
Qed.

(** Scanning a list is scanning a first part of it and then the rest. *)
Lemma load_priority_app P l1 l2 self G :
  Truck.load_priority P (l1 ++ l2) self G
  = let* (s, g) := Truck.load_priority P l1 self G in
    Truck.load_priority P l2 s g.
Proof.
  revert self G. induction l1 as [|k l1 IH]; intros self G; simpl.
  - reflexivity.
  - destruct (Z.eqb_spec (Z.of_nat (length (Truck.packages self))) 16) as [Hl|Hl].
    + simpl. rewrite load_priority_full by exact Hl. reflexivity.
    + destruct (Truck.load_priority_step P k self G) as [[s1 g1]|e]; simpl;
        [apply IH | reflexivity].
Qed.

(** The iteration for an id that is not aboard, passes the two tests and
    belongs to a group comes down to the capacity test for the group. *)
Lemma load_priority_step_group P k self G p c :
  k ∉ Truck.packages self ->
  search_package k G = Ok p ->
  Package.req_truck p = Truck.truck_id self \/ Package.req_truck p = 0 ->
  Package.time_available p <= Truck.truck_time self ->
  Package.group p <> 0 ->
  group_count_dictionary G !! Package.group p = Some c ->
  Truck.load_priority_step P k self G
  = if Z.of_nat (length (Truck.packages self)) + c <=? 16
    then Truck.load_group (Package.group p) P self G
    else Ok (self, G).
Proof.
  intros Hnot Hp Hreq Hav Hg Hc. unfold Truck.load_priority_step, py_in.
  rewrite bool_decide_eq_false_2 by exact Hnot. rewrite Hp. simpl.
  replace ((Package.req_truck p =? Truck.truck_id self)
           || (Package.req_truck p =? 0)) with true
    by (symmetry; apply orb_true_iff; destruct Hreq as [->| ->];
        rewrite Z.eqb_refl; auto).
  rewrite (proj2 (Z.leb_le _ _) Hav).
  rewrite (proj2 (Z.eqb_neq _ _) Hg).
  unfold group_count. rewrite Hc. reflexivity.
Qed.

(** Once a member of a group was admitted in a scan, all the members of
    that group in the list are aboard. *)
Lemma load_priority_closed P todo self G self' G' :
  todo ⊆ P ->
  Truck.load_priority P todo self G = Ok (self', G') ->
  same_static G G' /\
  exists L, Truck.packages self' = Truck.packages self ++ L /\
    forall q g, q ∈ L -> g <> 0 -> has_group g q G = true ->
      forall q', q' ∈ P -> has_group g q' G = true ->
        q' ∈ Truck.packages self'.
Proof.
  intros Hsub.
  apply (load_priority_entries (fun s g0 =>
    same_static G g0 /\
    exists L, Truck.packages s = Truck.packages self ++ L /\
      forall q g, q ∈ L -> g <> 0 -> has_group g q G = true ->
        forall q', q' ∈ P -> has_group g q' G = true ->
          q' ∈ Truck.packages s) P); [| |exact Hsub|].
  - intros s g0 k p s' g' (HS & L & HL & Hcl) _ _ _ Hp Hg0 _ _ Hload.
    split; [eapply same_static_trans; eauto using load_package_same_static|].
    apply load_package_Ok in Hload as (_ & _ & -> & _). simpl.
    exists (L ++ [k]). split; [rewrite HL, <- app_assoc; reflexivity|].
    intros q g Hq Hg Hhas q' Hq' Hhas'. apply elem_of_app. left.
    apply elem_of_app in Hq as [Hq|Hq%list_elem_of_singleton].
    + eapply Hcl; eauto.
    + subst q. rewrite <- (same_static_has_group G g0 g k HS) in Hhas.
      rewrite (has_group_search _ _ _ _ Hp), Hg0 in Hhas.
      apply Z.eqb_eq in Hhas. congruence.
  - intros s g0 k p c s' g' (HS & L & HL & Hcl) _ _ _ Hp Hg _ _ _ _ Hload.
    destruct (load_group_frame _ _ _ _ _ _ Hload) as (HS' & _).
    split; [eapply same_static_trans; eauto|].
    pose proof (load_group_Ok _ _ _ _ _ _ G HS Hload) as Hman.
    exists (L ++ members (Package.group p) P G).
    split; [rewrite Hman, HL, <- app_assoc; reflexivity|].
    intros q g Hq Hgne Hhas q' Hq' Hhas'. rewrite Hman. apply elem_of_app.
    apply elem_of_app in Hq as [Hq|Hq].
    + left. eapply Hcl; eauto.
    + right. apply elem_of_members in Hq as [_ Hq].
      rewrite (has_group_unique _ _ _ _ Hq Hhas).
      apply elem_of_members. auto.
  - split; [apply same_static_refl|]. exists []. rewrite app_nil_r.
    split; [reflexivity|]. intros q g Hq. inversion Hq.
Qed.

(** When the capacity test fails for a group, the rest of the pass admits
    none of its members. *)
Section NoRoom.
Variables P N : list Z.
Variable G : Globals.
Variable g c : Z.
Variable n : nat.
Hypothesis Hg : g <> 0.
Hypothesis Hc : group_count_dictionary G !! g = Some c.
Hypothesis Hroom : 16 < Z.of_nat n + c.
Hypothesis HK : keys_ok G.
Hypothesis HU : ungrouped N G.

Abbreviation no_room := (no_room G g n).

Lemma no_room_single self s g0 k p s' g' :
  no_room self s g0 -> search_package k g0 = Ok p -> Package.group p = 0 ->
  Truck.load_package k s g0 = Ok (s', g') -> no_room self s' g'.
Proof.
  intros (HS & Hn & L & HL & Hno) Hp Hg0 Hload.
  split; [eapply same_static_trans; eauto using load_package_same_static|].
  apply load_package_Ok in Hload as (_ & _ & -> & _). simpl.
  split; [rewrite length_app; lia|].
  exists (L ++ [k]). split; [rewrite HL, <- app_assoc; reflexivity|].
  intros q [Hq|Hq%list_elem_of_singleton]%elem_of_app; [auto|]. subst q.
  rewrite <- (same_static_has_group G g0 g k HS).
  rewrite (has_group_search _ _ _ _ Hp), Hg0. apply Z.eqb_neq. congruence.
Qed.

Lemma load_priority_no_room todo self G0 self' G' :
  todo ⊆ P -> same_static G G0 ->
  (n <= length (Truck.packages self))%nat ->
  Truck.load_priority P todo self G0 = Ok (self', G') ->
  no_room self self' G'.
Proof.
  intros Hsub HS0 Hn0.
  apply (load_priority_entries (no_room self) P); [| |exact Hsub|].
  - intros s g0 k p s' g' Hno _ _ _ Hp Hg0 _ _ Hload.
    eapply no_room_single; eauto.
  - intros s g0 k p c' s' g' (HS & Hn & L & HL & Hno) _ _ _ Hp Hgp _ _ Hc' Hfit Hload.
    destruct (load_group_frame _ _ _ _ _ _ Hload) as (HS' & _).
    pose proof (load_group_Ok _ _ _ _ _ _ G HS Hload) as Hman.
    split; [eapply same_static_trans; eauto|].
    split; [rewrite Hman, length_app; lia|].
    exists (L ++ members (Package.group p) P G).
    split; [rewrite Hman, HL, <- app_assoc; reflexivity|].
    intros q [Hq|Hq]%elem_of_app; [auto|].
    apply elem_of_members in Hq as [_ Hq].
    destruct (has_group g q G) eqn:Hgq; [|reflexivity]. exfalso.
    pose proof (has_group_unique _ _ _ _ Hq Hgq) as Heq.
    destruct HS as (_ & Hd & _). rewrite Hd, Heq, Hc in Hc'.
    injection Hc' as <-. lia.
  - split; [exact HS0|]. split; [exact Hn0|]. exists []. rewrite app_nil_r.
    split; [reflexivity|]. intros q Hq. inversion Hq.
Qed.

Lemma load_non_priority_no_room self0 self G0 self' G' :
  no_room self0 self G0 ->
  Truck.load_non_priority N self G0 = Ok (self', G') ->
  no_room self0 self' G'.
Proof.
  intros Hno.
  apply (load_non_priority_entries (no_room self0) N); [|reflexivity|exact Hno].
  intros s g0 q pk s' g' Hno' Hq _ Hpk _ Hload.
  pose proof Hno' as (HS & _).
  destruct (same_static_search_inv _ _ _ _ HS Hpk) as (pk0 & Hpk0 & Hid & Hgr & _).
  pose proof (HK _ _ Hpk0) as Hkey. pose proof (HU _ _ Hq Hpk0) as Hgr0.
  rewrite Hid, Hkey in Hload.
  eapply no_room_single; eauto. congruence.
Qed.
End NoRoom.

(** Every id admitted by a pass carries the clock of the truck as its pickup
    time when the pass ends. *)
Lemma load_truck_loaded P N self G self' G' :
  Truck.load_truck P N self G = Ok (self', G') ->
  exists L, Truck.packages self' = Truck.packages self ++ L /\
    forall q, q ∈ L -> exists pq, search_package q G' = Ok pq /\
      Package.time_pickup pq = Truck.truck_time self.
Proof.
  intros H.
  cut (Truck.truck_time self' = Truck.truck_time self /\
       exists L, Truck.packages self' = Truck.packages self ++ L /\
         forall q, q ∈ L -> exists pq, search_package q G' = Ok pq /\
           Package.time_pickup pq = Truck.truck_time self); [tauto|].
  revert H.
  apply (load_truck_rule (fun s g =>
    Truck.truck_time s = Truck.truck_time self /\
    exists L, Truck.packages s = Truck.packages self ++ L /\
      forall q, q ∈ L -> exists pq, search_package q g = Ok pq /\
        Package.time_pickup pq = Truck.truck_time self) P N).
  - intros s g k s' g' (Ht & L & HL & Hpick) _ Hload.
    destruct (load_package_Ok _ _ _ _ _ Hload) as (p0 & Hp0 & Hs' & _).
    split; [rewrite Hs'; exact Ht|].
    exists (L ++ [k]). split; [rewrite Hs'; simpl; rewrite HL, <- app_assoc; reflexivity|].
    intros q Hq. destruct (decide (k = q)) as [<-|Hne].
    + rewrite (load_package_search_eq _ _ _ _ _ _ Hload Hp0).
      eexists. split; [reflexivity|]. simpl. exact Ht.
    + rewrite (load_package_search_ne _ _ _ _ _ _ Hload Hne).
      apply elem_of_app in Hq as [Hq|Hq%list_elem_of_singleton];
        [auto | congruence].
  - split; [reflexivity|]. exists []. rewrite app_nil_r.
    split; [reflexivity|]. intros q Hq. inversion Hq.
Qed.

Lemma load_non_priority_appends N self G self' G' :
  Truck.load_non_priority N self G = Ok (self', G') ->
  exists L, Truck.packages self' = Truck.packages self ++ L.
Proof.
  intros H.
  assert (H' : Truck.load_truck [] N self G = Ok (self', G')) by exact H.
  apply load_truck_frame in H'. tauto.
Qed.

(** C5.  A pass of [load_truck] over the priority list [P1 ++ k :: P2]
    reaches [k] with the truck as [self1]: the list is not full, [k] is not
    aboard, its record [p] passes the affinity and availability tests and
    belongs to a group with count [c].  (The non-priority records belong to
    no group and every record is stored under its id, as
    [load_package_data] leaves them.)  Then, with [L] the ids the pass
    admits and [D] the ids the delivery loop that follows hands over:
    - if the ids aboard plus [c] exceed 16, no member of the group is in [L];
    - otherwise every member of the group in the priority list is in [L],
      carries the clock of the truck as its pickup time, and is in [D], that
      is, delivered by this same truck. *)
Theorem group_admission_atomic (P1 P2 N : list Z) (k : Z)
  (self self1 self2 self3 : Truck.t) (G G1 G2 G3 : Globals)
  (p : Package.t) (c : Z) :
  keys_ok G -> ungrouped N G ->
  Truck.load_priority (P1 ++ k :: P2) P1 self G = Ok (self1, G1) ->
  Z.of_nat (length (Truck.packages self1)) <> 16 ->
  k ∉ Truck.packages self1 ->
  search_package k G1 = Ok p ->
  Package.req_truck p = Truck.truck_id self1 \/ Package.req_truck p = 0 ->
  Package.time_available p <= Truck.truck_time self1 ->
  Package.group p <> 0 ->
  group_count_dictionary G !! Package.group p = Some c ->
  Truck.load_truck (P1 ++ k :: P2) N self G = Ok (self2, G2) ->
  deliver_all (length (Truck.packages self2)) self2 G2 = Ok (self3, G3) ->
  exists L D,
    Truck.packages self2 = Truck.packages self ++ L /\
    Truck.delivered self3 = Truck.delivered self ++ D /\
    Truck.truck_id self3 = Truck.truck_id self /\
    (16 < Z.of_nat (length (Truck.packages self1)) + c ->
     forall q, q ∈ L -> has_group (Package.group p) q G = false) /\
    (Z.of_nat (length (Truck.packages self1)) + c <= 16 ->
     forall q, q ∈ P1 ++ k :: P2 -> has_group (Package.group p) q G = true ->
       q ∈ L /\ q ∈ D /\
       exists pq, search_package q G2 = Ok pq /\
         Package.time_pickup pq = Truck.truck_time self).
Proof.
  intros HK HU Hpre Hlen Hnot Hp Hreq Hav Hg Hc Hload Hdel.
  set (P := P1 ++ k :: P2) in *.
  destruct (load_truck_loaded _ _ _ _ _ _ Hload) as (L & HL & Hpick).
  destruct (load_truck_frame _ _ _ _ _ _ Hload)
    as (_ & _ & _ & Hid2 & _ & _ & _ & Hdel2 & _).
  destruct (deliver_all_delivered _ _ _ _ _ Hdel) as (Hid3 & D & HD & Hperm).
  rewrite (deliver_all_empties _ _ _ _ _ (Nat.le_refl _) Hdel), app_nil_r in Hperm.
  exists L, D. split; [exact HL|]. split; [rewrite HD, Hdel2; reflexivity|].
  split; [congruence|].
  (* the pass, cut at [k] *)
  assert (HP1 : P1 ⊆ P) by (intros x Hx; apply elem_of_app; left; exact Hx).
  assert (HP2 : k :: P2 ⊆ P) by (intros x Hx; apply elem_of_app; right; exact Hx).
  destruct (load_priority_closed _ _ _ _ _ _ HP1 Hpre) as (HS1 & L1 & HL1 & Hclosed).
  unfold Truck.load_truck in Hload. inv_bind Hload. destruct a as [sA GA].
  replace (Truck.load_priority P P self G)
    with (Truck.load_priority P (P1 ++ k :: P2) self G) in Hm by reflexivity.
  rewrite load_priority_app, Hpre in Hm. cbn [rbind] in Hm.
  assert (Hkg : has_group (Package.group p) k G = true).
  { rewrite <- (same_static_has_group G G1 _ k HS1).
    rewrite (has_group_search _ _ _ _ Hp). apply Z.eqb_refl. }
  assert (Hc1 : group_count_dictionary G1 !! Package.group p = Some c).
  { destruct HS1 as (_ & -> & _). exact Hc. }
  split.
  - (* no room *)
    intros Hroom q Hq.
    pose proof (load_priority_no_room P G (Package.group p) c
                  (length (Truck.packages self1)) Hg Hc Hroom
                  (k :: P2) self1 G1 sA GA HP2 HS1 (Nat.le_refl _) Hm) as HnoA.
    pose proof (load_non_priority_no_room N G (Package.group p)
                  (length (Truck.packages self1)) Hg HK HU
                  self1 sA GA self2 G2 HnoA Hload) as (_ & _ & L2 & HL2 & Hno2).
    rewrite HL1, <- app_assoc in HL2. rewrite HL in HL2.
    apply app_inv_head in HL2. subst L.
    apply elem_of_app in Hq as [Hq|Hq]; [|auto].
    destruct (has_group (Package.group p) q G) eqn:Hgq; [|reflexivity].
    exfalso. apply Hnot. eapply (Hclosed q (Package.group p)); eauto.
    apply elem_of_app. right. left.
  - (* room *)
    intros Hfit q Hq Hgq.
    simpl in Hm. rewrite (proj2 (Z.eqb_neq _ _) Hlen) in Hm.
    rewrite (load_priority_step_group P k self1 G1 p c Hnot Hp Hreq Hav Hg Hc1)
      in Hm.
    rewrite (proj2 (Z.leb_le _ _) Hfit) in Hm.
    inv_bind Hm. destruct a as [sB GB].
    pose proof (load_group_Ok _ _ _ _ _ _ G HS1 Hm0) as HmanB.
    assert (HP2' : P2 ⊆ P)
      by (intros x Hx; apply elem_of_app; right; right; exact Hx).
    destruct (load_priority_closed _ _ _ _ _ _ HP2' Hm) as (_ & LA & HLA & _).
    destruct (load_non_priority_appends _ _ _ _ _ Hload) as (LN & HLN).
    rewrite HLA, HmanB, HL1 in HLN. rewrite HL in HLN.
    rewrite <- !app_assoc in HLN. apply app_inv_head in HLN.
    assert (HqL : q ∈ L).
    { rewrite HLN. apply elem_of_app. right. apply elem_of_app. left.
      apply elem_of_members. auto. }
    split; [exact HqL|]. split; [|apply Hpick; exact HqL].
    rewrite Hperm, HL. apply elem_of_app. right. exact HqL.
Qed.

(** ** load_package_data *)

Lemma search_package_insert_eq k p G h :
  ChainHashTable.insert k p (my_hash_packages G) = Ok h ->
  search_package k (set_my_hash_packages h G) = Ok p.
Proof.
  intros H. apply search_package_Ok. simpl. eapply search_insert_eq; eauto.
Qed.

Lemma search_package_insert_ne k k' p G h :
  k <> k' ->
  ChainHashTable.insert k p (my_hash_packages G) = Ok h ->
  search_package k' (set_my_hash_packages h G) = search_package k' G.
Proof.
  intros Hne H. unfold search_package. simpl.
  rewrite (search_insert_ne _ _ _ _ _ Hne H). reflexivity.
Qed.

Lemma group_size_snoc g done p :
  group_size g (done ++ [p])
  = group_size g done + (if Package.group p =? g then 1 else 0).
Proof.
  unfold group_size. rewrite filter_app, length_app, filter_cons, filter_nil.
  destruct (Z.eqb_spec (Package.group p) g) as [Heq|Hne].
  - rewrite decide_True by exact Heq. simpl. lia.
  - rewrite decide_False by exact Hne. simpl. lia.
Qed.

Lemma group_size_nonneg g done : 0 <= group_size g done.
Proof. unfold group_size. lia. Qed.

Lemma load_row_loaded locs done p G :
  loaded_from locs done G -> Package.id p ∉ Package.id <$> done ->
  exists G', load_row p G = Ok G' /\ loaded_from locs (done ++ [p]) G'.
Proof.
  intros HL Hfresh. unfold load_row.
  destruct (insert_Ok (Package.id p) p (my_hash_packages G)) as [h Hh];
    [rewrite (lf_buckets _ _ _ HL); lia|].
  rewrite Hh. cbn [rbind].
  set (counts' := if negb (Package.group p =? 0) then _ else _).
  assert (Hcounts : forall g, counts' !! g
            = if (g =? 0) || (group_size g (done ++ [p]) =? 0) then None
              else Some (group_size g (done ++ [p]))).
  { intros g. rewrite group_size_snoc. pose proof (group_size_nonneg g done).
    pose proof (lf_counts _ _ _ HL g) as Hg. subst counts'.
    destruct (Z.eqb_spec (Package.group p) 0) as [Hp0|Hp0]; simpl.
    - rewrite Hg. destruct (Z.eqb_spec g 0) as [Hg0|Hg0]; [reflexivity|].
      destruct (Z.eqb_spec (Package.group p) g) as [Hpg|Hpg]; [congruence|].
      rewrite Z.add_0_r. reflexivity.
    - pose proof (lf_counts _ _ _ HL (Package.group p)) as Hgp.
      rewrite (proj2 (Z.eqb_neq _ _) Hp0) in Hgp. simpl in Hgp.
      destruct (Z.eqb_spec (Package.group p) g) as [Hpg|Hpg].
      + subst g. rewrite (proj2 (Z.eqb_neq _ _) Hp0). simpl.
        destruct (Z.eqb_spec (group_size (Package.group p) done + 1) 0); [lia|].
        destruct (Z.eqb_spec (group_size (Package.group p) done) 0) as [Hz|Hz];
          rewrite Hgp, lookup_insert_eq; [rewrite Hz|]; reflexivity.
      + rewrite Z.add_0_r.
        destruct (group_count_dictionary G !! Package.group p);
          rewrite lookup_insert_ne by exact Hpg; exact Hg. }
  assert (Htable : forall G', my_hash_packages G' = h -> forall k q,
            search_package k G' = Ok q ->
            q ∈ done ++ [p] /\ Package.id q = k).
  { intros G' HG' k q Hk. unfold search_package in Hk. rewrite HG' in Hk.
    destruct (decide (Package.id p = k)) as [<-|Hne].
    - rewrite (search_insert_eq _ _ _ _ Hh) in Hk. injection Hk as <-.
      split; [apply elem_of_app; right; left | reflexivity].
    - rewrite (search_insert_ne _ _ _ _ _ Hne Hh) in Hk.
      destruct (lf_table _ _ _ HL k q Hk) as [Hin Hid].
      split; [apply elem_of_app; left; exact Hin | exact Hid]. }
  assert (Hrows : forall G', my_hash_packages G' = h -> forall q,
            q ∈ done ++ [p] -> search_package (Package.id q) G' = Ok q).
  { intros G' HG' q Hq. unfold search_package. rewrite HG'.
    apply elem_of_app in Hq as [Hq|Hq%list_elem_of_singleton].
    - assert (Hne : Package.id p <> Package.id q).
      { intros Heq. apply Hfresh. rewrite Heq. apply list_elem_of_fmap.
        eauto. }
      rewrite (search_insert_ne _ _ _ _ _ Hne Hh).
      exact (lf_rows _ _ _ HL q Hq).
    - subst q. rewrite (search_insert_eq _ _ _ _ Hh). reflexivity. }
  fold (is_priority p). destruct (is_priority p) eqn:Hprio; eexists;
    (split; [reflexivity|]); constructor; simpl;
    try (exact (lf_locations _ _ _ HL));
    try (rewrite (lf_num _ _ _ HL), length_app; simpl; lia);
    try (rewrite (length_insert _ _ _ _ Hh); exact (lf_buckets _ _ _ HL));
    try (apply Htable; reflexivity); try (apply Hrows; reflexivity);
    try exact Hcounts;
    rewrite filter_app, fmap_app, filter_cons, filter_nil.
  - rewrite decide_True by exact Hprio. rewrite (lf_priority _ _ _ HL).
    reflexivity.
  - rewrite decide_False by congruence. rewrite app_nil_r.
    exact (lf_non_priority _ _ _ HL).
  - rewrite decide_False by congruence. rewrite app_nil_r.
    exact (lf_priority _ _ _ HL).
  - rewrite decide_True by exact Hprio. rewrite (lf_non_priority _ _ _ HL).
    reflexivity.
Qed.

Lemma start_loaded locs : loaded_from locs [] (start locs).
Proof.
  constructor; try reflexivity.
  - intros k p Hk. apply search_package_Ok in Hk. simpl in Hk.
    rewrite (search_init k 10) in Hk by lia. discriminate.
  - intros p Hp. inversion Hp.
  - intros g. rewrite orb_true_r. apply lookup_empty.
Qed.

Lemma load_package_data_from locs rows done G :
  loaded_from locs done G -> NoDup (Package.id <$> (done ++ rows)) ->
  exists G', load_package_data rows G = Ok G' /\
    loaded_from locs (done ++ rows) G'.
Proof.
  revert done G. induction rows as [|p rows IH]; intros done G HL Hnd; simpl.
  - rewrite app_nil_r. eauto.
  - assert (Hfresh : Package.id p ∉ Package.id <$> done).
    { rewrite fmap_app, fmap_cons in Hnd. apply NoDup_app in Hnd as (_ & Hd & _).
      intros Hin. apply (Hd _ Hin). left. }
    destruct (load_row_loaded locs done p G HL Hfresh) as (G1 & -> & HL1).
    cbn [rbind]. replace (done ++ p :: rows) with ((done ++ [p]) ++ rows) in *
      by (rewrite <- app_assoc; reflexivity).
    apply IH; assumption.
Qed.

(** [load_package_data] returns on every file, and for rows with distinct
    ids it leaves the state described by [loaded_from]. *)
Lemma load_package_data_loaded locs rows :
  NoDup (Package.id <$> rows) ->
  exists G, load_package_data rows (start locs) = Ok G /\
    loaded_from locs rows G.
Proof.
  intros Hnd. apply (load_package_data_from locs rows [] (start locs));
    [apply start_loaded | exact Hnd].
Qed.

Lemma is_priority_false p :
  is_priority p = false ->
  Package.req_truck p = 0 /\ Package.group p = 0.
Proof.
  unfold is_priority. intros H.
  apply orb_false_iff in H as [H Hg]. apply orb_false_iff in H as [_ Hr].
  apply negb_false_iff in Hg, Hr. apply Z.eqb_eq in Hg, Hr. auto.
Qed.

Lemma loaded_keys_ok locs rows G : loaded_from locs rows G -> keys_ok G.
Proof. intros HL k p Hk. exact (proj2 (lf_table _ _ _ HL k p Hk)). Qed.

Lemma loaded_settled locs rows G : loaded_from locs rows G -> settled G.
Proof.
  intros HL k p Hk. destruct (lf_table _ _ _ HL k p Hk) as [Hin <-].
  rewrite (lf_priority _ _ _ HL), (lf_non_priority _ _ _ HL).
  destruct (is_priority p) eqn:Hp; [left | right; left];
    apply list_elem_of_fmap; exists p; split; try reflexivity;
    apply list_elem_of_filter; auto.
Qed.

Lemma loaded_ungrouped locs rows G :
  loaded_from locs rows G -> ungrouped (non_priority_packages G) G.
Proof.
  intros HL k p Hin Hk. rewrite (lf_non_priority _ _ _ HL) in Hin.
  apply list_elem_of_fmap in Hin as (q & -> & Hq).
  apply list_elem_of_filter in Hq as [Hprio Hq].
  rewrite (lf_rows _ _ _ HL q Hq) in Hk. injection Hk as <-.
  apply is_priority_false in Hprio. tauto.
Qed.

Lemma loaded_members locs rows G g l :
  loaded_from locs rows G -> (forall p, p ∈ l -> p ∈ rows) ->
  length (members g (Package.id <$> l) G)
  = length (filter (fun p => Package.group p = g) l).
Proof.
  intros HL. unfold members. induction l as [|p l IH]; intros Hsub;
    [reflexivity|].
  rewrite fmap_cons, !filter_cons.
  rewrite (has_group_search g _ G p) by (apply (lf_rows _ _ _ HL), Hsub; left).
  assert (IH' := IH (fun q Hq => Hsub q (list_elem_of_further _ _ _ Hq))).
  destruct (Z.eqb_spec (Package.group p) g) as [Heq|Hne].
  - rewrite decide_True by reflexivity. rewrite decide_True by exact Heq.
    simpl. rewrite IH'. reflexivity.
  - rewrite decide_False by discriminate. rewrite decide_False by exact Hne.
    exact IH'.
Qed.

Lemma length_filter_filter {A : Type} (Q R : A -> Prop)
  `{!forall x, Decision (Q x)} `{!forall x, Decision (R x)} (l : list A) :
  (length (filter Q (filter R l)) <= length (filter Q l))%nat.
Proof.
  induction l as [|x l IH]; [reflexivity|].
  rewrite !filter_cons. destruct (decide (R x)), (decide (Q x));
    rewrite ?filter_cons; try destruct (decide (Q x)); simpl; try lia;
    contradiction.
Qed.

Lemma loaded_counts_ok locs rows G :
  loaded_from locs rows G -> counts_ok (priority_packages G) G.
Proof.
  intros HL g c Hc. rewrite (lf_counts _ _ _ HL g) in Hc.
  destruct ((g =? 0) || (group_size g rows =? 0)); [discriminate|].
  injection Hc as <-. rewrite (lf_priority _ _ _ HL).
  rewrite (loaded_members locs rows G g _ HL).
  - unfold group_size. apply inj_le. apply length_filter_filter.
  - intros p Hp. apply list_elem_of_filter in Hp. tauto.
Qed.

(** The script: for rows with distinct ids and a distance table without
    negative entries, a run that completes leaves every truck with a
    manifest that has stayed within 16 and every package with its
    timestamps in order. *)
Lemma main_within_capacity_and_in_order locs rows fuel trucks G :
  NoDup (Package.id <$> rows) ->
  main locs rows fuel = Some (Ok (trucks, G)) ->
  Forall within_capacity trucks /\
  ((forall loc d, loc ∈ locs -> d ∈ Location.distances loc -> (0 <= d)%Q) ->
   forall k p, search_package k G = Ok p -> chain_ok p).
Proof.
  intros Hnd Hmain. unfold main in Hmain.
  destruct (load_package_data_loaded locs rows Hnd) as (G0 & HG0 & HL).
  rewrite HG0 in Hmain. split.
  - eapply route_packages_capacity; [eapply loaded_counts_ok; eauto| |eauto].
    repeat constructor; simpl; lia.
  - intros HD. eapply route_packages_chain;
      [eapply loaded_keys_ok; eauto| |eapply loaded_settled; eauto| |eauto].
    + intros loc d. rewrite (lf_locations _ _ _ HL). apply HD.
    + repeat constructor.
Qed.

(** ** find_shortest_distance *)

Lemma find_shortest_loop_Ok todo m b self G r :
  Truck.find_shortest_loop todo m b self G = Ok r ->
  (r = b /\
   Forall (fun k => exists dk, package_distance k self G = Ok dk /\ (m <= dk)%Q)
     todo)
  \/ exists d, first_nearest r d m todo self G.
Proof.
  revert m b. induction todo as [|k todo IH]; intros m b H; simpl in H.
  - injection H as <-. left. split; [reflexivity | constructor].
  - inv_bind H. inv_bind H.
    assert (Hk : package_distance k self G = Ok a0)
      by (unfold package_distance; rewrite Hm; exact Hm0).
    destruct (Qlt_le_dec a0 m) as [Hlt|Hle].
    + destruct (IH _ _ H) as [[-> Hall]|(d & l1 & l2 & -> & Hr & Hd & H1 & H2)].
      * right. exists a0, [], todo. split_and!; auto.
      * right. exists d, (k :: l1), l2. split_and!; auto.
        -- eapply Qlt_trans; eauto.
        -- constructor; [eauto | exact H1].
    + destruct (IH _ _ H) as [[-> Hall]|(d & l1 & l2 & -> & Hr & Hd & H1 & H2)].
      * left. split; [reflexivity|]. constructor; [eauto | exact Hall].
      * right. exists d, (k :: l1), l2. split_and!; auto.
        constructor; [|exact H1]. exists a0. split; [exact Hk|].
        eapply Qlt_le_trans; eauto.
Qed.

(** When some package aboard is less than 100 miles away,
    [find_shortest_distance] returns the first id of the manifest at the
    least distance. *)
Lemma find_shortest_distance_nearest self G r k dk :
  k ∈ Truck.packages self -> package_distance k self G = Ok dk ->
  (dk < 100)%Q ->
  Truck.find_shortest_distance self G = Ok r ->
  exists d, first_nearest r d 100 (Truck.packages self) self G.
Proof.
  intros Hin Hk Hlt H. unfold Truck.find_shortest_distance in H.
  destruct (find_shortest_loop_Ok _ _ _ _ _ _ H) as [[_ Hall]|Hnear];
    [|exact Hnear].
  exfalso. rewrite Forall_forall in Hall.
  destruct (Hall k Hin) as (dk' & Hk' & Hle).
  rewrite Hk in Hk'. injection Hk' as <-.
  exact (Qlt_not_le _ _ Hlt Hle).
Qed.

(** When every package aboard is 100 miles away or more, it returns -1. *)
Lemma find_shortest_distance_sentinel self G r :
  Forall (fun k => exists dk, package_distance k self G = Ok dk
                              /\ (100 <= dk)%Q) (Truck.packages self) ->
  Truck.find_shortest_distance self G = Ok r -> r = -1.
Proof.
  intros Hall H. unfold Truck.find_shortest_distance in H.
  destruct (find_shortest_loop_Ok _ _ _ _ _ _ H)
    as [[-> _]|(d & l1 & l2 & Hl & Hr & Hd & _)]; [reflexivity|].
  exfalso. rewrite Forall_forall in Hall.
  destruct (Hall r) as (dr & Hdr & Hle).
  { rewrite Hl. apply elem_of_app. right. left. }
  rewrite Hr in Hdr. injection Hdr as <-.
  exact (Qlt_not_le _ _ Hd Hle).
Qed.

(** ** The delivery loop returns *)

Lemma find_shortest_loop_returns todo m b self G :
  Forall (fun k => exists dk, package_distance k self G = Ok dk) todo ->
  exists r, Truck.find_shortest_loop todo m b self G = Ok r.
Proof.
  revert m b. induction todo as [|k todo IH]; intros m b Hall; simpl; [eauto|].
  apply Forall_cons in Hall as [(dk & Hk) Hall].
  unfold package_distance in Hk. inv_bind Hk. rewrite Hm. cbn [rbind].
  rewrite Hk. cbn [rbind].
  destruct (Qlt_le_dec dk m); apply IH; exact Hall.
Qed.

Lemma unpend_returns d G : exists G1, unpend d G = Ok G1.
Proof.
  unfold unpend, py_in.
  destruct (bool_decide_reflect (d ∈ priority_packages G)) as [Hin|_].
  - destruct (py_remove_elem_of _ _ Hin) as [l ->]. simpl. eauto.
  - destruct (bool_decide_reflect (d ∈ non_priority_packages G)) as [Hin|_];
      [|eauto].
    destruct (py_remove_elem_of _ _ Hin) as [l ->]. simpl. eauto.
Qed.



(** ** Checking the hypotheses on a concrete state *)

Lemma search_chain_elem_of {V : Type} (k : Z) (l : list (Z * V)) (v : V) :
  ChainHashTable.search_chain k l = Some v -> (k, v) ∈ l.
Proof.
  induction l as [|kv l IH]; simpl; [discriminate|].
  destruct (Z.eqb_spec kv.1 k) as [<-|Hne].
  - intros [= <-]. destruct kv. left.
  - intros H. right. auto.
Qed.

Lemma search_package_elem_of k G p :
  search_package k G = Ok p ->
  exists b, b ∈ my_hash_packages G /\ (k, p) ∈ b.
Proof.
  intros H. apply search_package_Ok in H. unfold ChainHashTable.search in H.
  inv_bind H. injection H as H.
  destruct (my_hash_packages G !! a) as [b|] eqn:Hb; simpl in H; [|discriminate].
  exists b. split; [eapply list_elem_of_lookup_2; eauto|].
  apply search_chain_elem_of. exact H.
Qed.

Lemma table_Forall (Q : Z -> Package.t -> Prop) G :
  Forall (Forall (fun kv => Q kv.1 kv.2)) (my_hash_packages G) ->
  forall k p, search_package k G = Ok p -> Q k p.
Proof.
  intros HF k p Hk. destruct (search_package_elem_of _ _ _ Hk) as (b & Hb & Hkp).
  rewrite Forall_forall in HF. specialize (HF b Hb).
  rewrite Forall_forall in HF. exact (HF (k, p) Hkp).
Qed.

Lemma keys_ok_check G :
  bool_decide (Forall (Forall (fun kv : Z * Package.t => Package.id kv.2 = kv.1))
                 (my_hash_packages G)) = true ->
  keys_ok G.
Proof.
  intros HF%bool_decide_eq_true k p.
  apply (table_Forall (fun k p => Package.id p = k) G HF).
Qed.

Lemma settled_check G :
  bool_decide (Forall (Forall (fun kv : Z * Package.t =>
                 kv.1 ∈ priority_packages G \/ kv.1 ∈ non_priority_packages G))
                 (my_hash_packages G)) = true ->
  settled G.
Proof.
  intros HF%bool_decide_eq_true k p Hk.
  destruct (table_Forall (fun k _ => k ∈ priority_packages G
                                     \/ k ∈ non_priority_packages G) G HF k p Hk)
    as [H|H]; auto.
Qed.

Lemma ungrouped_check N G :
  forallb (fun k => match search_package k G with
                    | Ok p => Package.group p =? 0
                    | Raise _ => true
                    end) N = true ->
  ungrouped N G.
Proof.
  intros HF k p Hin Hk. rewrite forallb_forall in HF.
  apply list_elem_of_In in Hin. specialize (HF k Hin). rewrite Hk in HF.
  apply Z.eqb_eq. exact HF.
Qed.

Lemma distances_nonneg_check G :
  forallb (fun loc => forallb (Qle_bool 0) (Location.distances loc))
    (locations G) = true ->
  distances_nonneg G.
Proof.
  intros HF loc d Hloc Hd. rewrite forallb_forall in HF.
  apply list_elem_of_In in Hloc, Hd. specialize (HF loc Hloc).
  rewrite forallb_forall in HF. apply Qle_bool_iff. exact (HF d Hd).
Qed.

Lemma counts_ok_check P G :
  bool_decide (map_Forall (fun g c => Z.of_nat (length (members g P G)) <= c)
                 (group_count_dictionary G)) = true ->
  counts_ok P G.
Proof. intros HF%bool_decide_eq_true. exact HF. Qed.

(** ** Evaluations on the concrete inputs *)

(** C1.  The loading pass of truck 1 on two packages of group 7, the second
    of which requires truck 2: the first is admitted on its own tests, the
    group branch then loads the second without looking at its required
    truck, and truck 1 delivers it. *)
Theorem required_truck_ignored_by_group_admission :
  load_package_data Scenario.grouped_rows (start Scenario.three_locations)
  = Ok Scenario.G_grouped /\
  Truck.load_truck (priority_packages Scenario.G_grouped)
    (non_priority_packages Scenario.G_grouped) truck_1 Scenario.G_grouped
  = Ok Scenario.after_load /\
  Truck.truck_id Scenario.after_load.1 = 1 /\
  Truck.packages Scenario.after_load.1 = [1; 2] /\
  Package.req_truck (Scenario.record 2 Scenario.after_load.2) = 2 /\
  search_package 2 Scenario.after_load.2
  = Ok (Scenario.record 2 Scenario.after_load.2) /\
  exists truck truck' G',
    main Scenario.three_locations Scenario.grouped_rows 1
    = Some (Ok ([truck; truck'], G')) /\
    Truck.truck_id truck = 1 /\ Truck.delivered truck = [2; 1] /\
    Truck.truck_id truck' = 2 /\ Truck.delivered truck' = [].
Proof.
  split_and!; try (vm_compute; reflexivity).
  do 3 eexists. split_and!; vm_compute; reflexivity.
Qed.

(** What [deliver_package] writes is the clock it was called with. *)
Lemma deliver_package_time_delivered k self G self' G' :
  Truck.deliver_package k self G = Ok (self', G') ->
  exists p, search_package k G' = Ok p /\
    Package.time_delivered p = Truck.truck_time self.
Proof.
  intros H. apply deliver_package_Ok in H as (p & _ & _ & Hp & -> & _).
  rewrite search_package_mutate_eq, Hp. eexists. split; reflexivity.
Qed.

(** C2.  Truck 1 stands at the depot at 08:00 with packages 1 and 2 aboard
    and delivers package 2, 3 miles away: the clock goes to 08:10, the
    odometer to 3, the position to location 2 and the id leaves the
    manifest, but the delivered time written is 08:00, the clock at the
    start of the call. *)
Theorem deliver_package_stamps_the_clock_before_the_leg :
  Truck.truck_time Scenario.after_load.1 = time_of 8 0 0 /\
  Truck.packages Scenario.after_load.1 = [1; 2] /\
  distance (Truck.location_id Scenario.after_load.1) 2 Scenario.after_load.2
  = Ok 3%Q /\
  exists self' G',
    Truck.deliver_package 2 Scenario.after_load.1 Scenario.after_load.2
    = Ok (self', G') /\
    Truck.truck_time self' = time_of 8 10 0 /\
    Truck.distance_traveled self' = 3%Q /\
    Truck.location_id self' = 2 /\
    Truck.packages self' = [1] /\
    search_package 2 G' = Ok (Scenario.record 2 G') /\
    Package.time_delivered (Scenario.record 2 G') = time_of 8 0 0.
Proof.
  split_and!; try (vm_compute; reflexivity).
  do 2 eexists. split_and!; vm_compute; reflexivity.
Qed.

(** C6.  Truck 1 has package 1 aboard, whose destination is 120 miles from
    the truck: [find_shortest_distance] returns -1. *)
Theorem find_shortest_distance_returns_minus_one :
  Truck.packages Scenario.after_load_far.1 = [1] /\
  Package.loc_id (Scenario.record 1 Scenario.after_load_far.2) = 1 /\
  distance (Truck.location_id Scenario.after_load_far.1) 1
    Scenario.after_load_far.2 = Ok 120%Q /\
  Truck.find_shortest_distance Scenario.after_load_far.1
    Scenario.after_load_far.2 = Ok (-1).
Proof. split_and!; vm_compute; reflexivity. Qed.

Lemma prompt_package_id_unread u l G r :
  prompt_package_id u l G = Ok r -> (length r.2 <= length l)%nat.
Proof.
  revert u. induction l as [|x l IH]; intros u; simpl; destruct (_ || _);
    try discriminate.
  - intros [= <-]. simpl. lia.
  - intros Hr. apply IH in Hr. lia.
  - intros [= <-]. simpl. lia.
Qed.

(** The test of the package-id prompt, read off the loop. *)
Lemma prompt_package_id_accepts n rest G :
  prompt_package_id 0 (Some n :: rest) G = Ok (n, rest) <->
  1 <= n <= num_packages G + 1.
Proof.
  change (prompt_package_id 0 (Some n :: rest) G)
    with (prompt_package_id n rest G).
  destruct ((n <? 1) || (n >? num_packages G + 1)) eqn:Hc.
  - split.
    + intros Hr. exfalso. destruct rest as [|x rest]; simpl in Hr;
        rewrite Hc in Hr; [discriminate|].
      apply prompt_package_id_unread in Hr. simpl in Hr. lia.
    + intros Hn. exfalso. apply orb_true_iff in Hc as [Hc|Hc]; lia.
  - split.
    + intros _. apply orb_false_iff in Hc as [Hc1 Hc2]. lia.
    + intros _. destruct rest; simpl; rewrite Hc; reflexivity.
Qed.

(** C8.  With two packages loaded, the prompt leaves its loop on the input
    3: the lookup that follows finds no record and the attribute access
    raises. *)
Theorem package_id_prompt_accepts_one_past_the_last :
  num_packages Scenario.G_grouped = 2 /\
  prompt_package_id 0 [Some 3] Scenario.G_grouped = Ok (3, []) /\
  ChainHashTable.search 3 (my_hash_packages Scenario.G_grouped) = Ok None /\
  option_2 (time_of 8 30 0) [Some 3] Scenario.G_grouped = Raise AttributeError.
Proof. split_and!; vm_compute; reflexivity. Qed.

(** ** The status of a package at a query time *)

(** What option 2 prints for an accepted id is [status_at] of its record. *)
Lemma option_2_status user_time n rest G p :
  1 <= n <= num_packages G + 1 -> search_package n G = Ok p ->
  option_2 user_time (Some n :: rest) G = Ok (status_at user_time p).
Proof.
  intros Hn Hp. unfold option_2.
  rewrite (proj2 (prompt_package_id_accepts n rest G) Hn). cbn [rbind].
  rewrite Hp. reflexivity.
Qed.

(** C7, as stated, fails.  In the run on two packages of group 7 the second,
    available at 10:00 only, is loaded at 08:00 with its group and delivered
    at once.  At 09:00 its status is Unavailable although the query time is
    not before its delivered time. *)
Lemma status_by_intervals_fails :
  main Scenario.three_locations Scenario.late_rows 1
  = Some (Ok Scenario.run_late) /\
  search_package 2 Scenario.run_late.2
  = Ok (Scenario.record 2 Scenario.run_late.2) /\
  status_at (time_of 9 0 0) (Scenario.record 2 Scenario.run_late.2)
  = UNAVAILABLE /\
  ~ status_by_intervals (time_of 9 0 0)
      (Scenario.record 2 Scenario.run_late.2).
Proof.
  split_and!; try (vm_compute; reflexivity).
  intros (_ & _ & _ & Hdel).
  assert (H : status_at (time_of 9 0 0) (Scenario.record 2 Scenario.run_late.2)
              = DELIVERED).
  { apply Hdel. vm_compute. discriminate. }
  vm_compute in H. discriminate.
Qed.

(** The label is that of the first test of the chain that holds. *)
Lemma status_at_tests (user_time : Z) (p : Package.t) :
  (status_at user_time p = UNAVAILABLE <->
   user_time < Package.time_available p) /\
  (status_at user_time p = DEPOT <->
   Package.time_available p <= user_time < Package.time_pickup p) /\
  (status_at user_time p = EN_ROUTE <->
   Package.time_available p <= user_time /\
   Package.time_pickup p <= user_time < Package.time_delivered p) /\
  (status_at user_time p = DELIVERED <->
   Package.time_available p <= user_time /\
   Package.time_pickup p <= user_time /\
   Package.time_delivered p <= user_time).
Proof.
  unfold status_at.
  destruct (Z.ltb_spec user_time (Package.time_available p));
    [|destruct (Z.ltb_spec user_time (Package.time_pickup p));
      [|destruct (Z.ltb_spec user_time (Package.time_delivered p))]];
    split_and!; split; intros; try discriminate; try reflexivity; lia.
Qed.

(** C7, amended.  For every package and every query time the status is the
    label of the first test of the chain that holds: Unavailable iff the
    query time is before the available time; In Depot iff it is at or after
    the available time and before the pickup time; En Route iff it is at or
    after the available and the pickup time and before the delivered time;
    Delivered iff it is at or after all three.  For a package available and
    picked up at 08:00 and delivered at 09:15 the status is En Route at
    08:30, Unavailable at 07:59 and Delivered from 09:15 on. *)
Theorem status_at_first_test_that_holds (user_time : Z) (p : Package.t) :
  (status_at user_time p = UNAVAILABLE <->
   user_time < Package.time_available p) /\
  (status_at user_time p = DEPOT <->
   Package.time_available p <= user_time < Package.time_pickup p) /\
  (status_at user_time p = EN_ROUTE <->
   Package.time_available p <= user_time /\
   Package.time_pickup p <= user_time < Package.time_delivered p) /\
  (status_at user_time p = DELIVERED <->
   Package.time_available p <= user_time /\
   Package.time_pickup p <= user_time /\
   Package.time_delivered p <= user_time) /\
  status_at (time_of 8 30 0) Scenario.query_package = EN_ROUTE /\
  status_at (time_of 7 59 0) Scenario.query_package = UNAVAILABLE /\
  (time_of 9 15 0 <= user_time ->
   status_at user_time Scenario.query_package = DELIVERED).
Proof.
  destruct (status_at_tests user_time p) as (Ha & Hb & Hc & Hd).
  split_and!; try assumption; try reflexivity.
  intros Hq. apply (status_at_tests user_time Scenario.query_package).
  change (time_of 9 15 0) with 33300000000 in Hq.
  simpl. change (time_of 8 0 0) with 28800000000.
  change (time_of 9 15 0) with 33300000000. lia.
Qed.

Lemma status_at_first_test_that_holds_witness :
  time_of 9 15 0 <= time_of 10 0 0 /\
  status_at (time_of 10 0 0) Scenario.query_package = DELIVERED.
Proof.
  split; [vm_compute; discriminate|].
  apply (status_at_first_test_that_holds (time_of 10 0 0) Scenario.query_package).
  vm_compute. discriminate.
Defined.

(** When the three timestamps are in order the four tests are the four
    intervals. *)
Lemma status_by_intervals_ordered user_time p :
  Package.time_available p <= Package.time_pickup p ->
  Package.time_pickup p <= Package.time_delivered p ->
  status_by_intervals user_time p.
Proof.
  intros H1 H2.
  destruct (status_at_tests user_time p) as (Ha & Hb & Hc & Hd).
  unfold status_by_intervals. rewrite Ha, Hb, Hc, Hd. split_and!; lia.
Qed.

(** ** The timestamps after a run *)

(** C3, as stated, fails.  The run on one package available at 08:00 loads
    it at 08:00, when truck 1 starts, and writes 08:00 as its delivered
    time: neither inequality of the chain is strict. *)
Lemma strict_chain_fails :
  main Scenario.three_locations Scenario.single_row 1
  = Some (Ok Scenario.run_single) /\
  search_package 1 Scenario.run_single.2
  = Ok (Scenario.record 1 Scenario.run_single.2) /\
  ~ (Package.time_delivered (Scenario.record 1 Scenario.run_single.2)
     > Package.time_pickup (Scenario.record 1 Scenario.run_single.2)
     /\ Package.time_pickup (Scenario.record 1 Scenario.run_single.2)
        > Package.time_available (Scenario.record 1 Scenario.run_single.2)).
Proof.
  split_and!; try (vm_compute; reflexivity).
  vm_compute. intros [H _]. discriminate H.
Qed.

(** In a group the pickup can even come before the availability: the run on
    two packages of group 7 loads the second, available at 10:00, at
    08:00. *)
Lemma group_member_loaded_before_available :
  main Scenario.three_locations Scenario.late_rows 1
  = Some (Ok Scenario.run_late) /\
  search_package 2 Scenario.run_late.2
  = Ok (Scenario.record 2 Scenario.run_late.2) /\
  Package.time_pickup (Scenario.record 2 Scenario.run_late.2) = time_of 8 0 0 /\
  Package.time_available (Scenario.record 2 Scenario.run_late.2)
  = time_of 10 0 0.
Proof. split_and!; vm_compute; reflexivity. Qed.

(** C3, amended.  When [route_packages] completes, from a state in which
    every record is stored under its id, no distance is negative, every
    package is pending (or its timestamps are in order already) and the
    trucks are empty, every package has its pickup time at or before its
    delivered time, and every package outside every group has its
    available time at or before its pickup time. *)
Theorem timestamps_in_order_after_run (fuel : nat) (trucks trucks' : list Truck.t)
  (G G' : Globals) (k : Z) (p : Package.t) :
  keys_ok G -> distances_nonneg G -> settled G ->
  Forall (fun truck => Truck.packages truck = []) trucks ->
  route_packages fuel trucks G = Some (Ok (trucks', G')) ->
  search_package k G' = Ok p ->
  Package.time_pickup p <= Package.time_delivered p /\
  (Package.group p = 0 ->
   Package.time_available p <= Package.time_pickup p).
Proof.
  intros HK HD HS HT Hrun Hk.
  exact (route_packages_chain fuel trucks G trucks' G' HK HD HS HT Hrun k p Hk).
Qed.

Lemma timestamps_in_order_after_run_witness :
  Package.time_pickup (Scenario.record 1 Scenario.run_single.2)
  <= Package.time_delivered (Scenario.record 1 Scenario.run_single.2) /\
  (Package.group (Scenario.record 1 Scenario.run_single.2) = 0 ->
   Package.time_available (Scenario.record 1 Scenario.run_single.2)
   <= Package.time_pickup (Scenario.record 1 Scenario.run_single.2)).
Proof.
  apply (timestamps_in_order_after_run 1 truck_list Scenario.run_single.1
           Scenario.G_single Scenario.run_single.2 1).
  - apply keys_ok_check. vm_compute. reflexivity.
  - apply distances_nonneg_check. vm_compute. reflexivity.
  - apply settled_check. vm_compute. reflexivity.
  - repeat constructor.
  - vm_compute. reflexivity.
  - vm_compute. reflexivity.
Defined.

(** ** The capacity of a truck *)

(** C4.  From a state in which the dictionary's count of every group is at
    least the number of its members in the priority list, and with trucks
    whose manifests have stayed within 16 so far: a loading pass of any of
    the trucks, whatever it admits, leaves the manifest and the largest
    length it has had within 16, and so does every turn of the loop of
    [route_packages] and the whole run. *)
Theorem manifest_never_exceeds_16 (fuel : nat) (trucks : list Truck.t)
  (G : Globals) :
  counts_ok (priority_packages G) G ->
  Forall within_capacity trucks ->
  (forall truck truck' G',
     truck ∈ trucks ->
     Truck.load_truck (priority_packages G) (non_priority_packages G) truck G
     = Ok (truck', G') ->
     (length (Truck.packages truck') <= Truck.peak truck')%nat /\
     (Truck.peak truck' <= 16)%nat) /\
  (forall trucks' G',
     for_trucks trucks G = Ok (trucks', G') ->
     counts_ok (priority_packages G') G' /\
     Forall (fun truck' =>
               (length (Truck.packages truck') <= Truck.peak truck')%nat /\
               (Truck.peak truck' <= 16)%nat) trucks') /\
  (forall trucks' G',
     route_packages fuel trucks G = Some (Ok (trucks', G')) ->
     Forall (fun truck' =>
               (length (Truck.packages truck') <= Truck.peak truck')%nat /\
               (Truck.peak truck' <= 16)%nat) trucks').
Proof.
  intros HC HW. split_and!.
  - intros truck truck' G' Hin Hload. rewrite Forall_forall in HW.
    exact (load_truck_capacity _ _ _ _ _ _ HC (HW truck Hin) Hload).
  - intros trucks' G' Hfor.
    apply (for_trucks_rule (fun g => counts_ok (priority_packages g) g)
             within_capacity) with (trucks := trucks) (G := G); auto.
    intros. eapply trip_capacity; eauto.
  - intros trucks' G' Hrun.
    exact (route_packages_capacity fuel trucks G trucks' G' HC HW Hrun).
Qed.

Lemma manifest_never_exceeds_16_witness :
  ((length (Truck.packages Scenario.after_load.1)
    <= Truck.peak Scenario.after_load.1)%nat /\
   (Truck.peak Scenario.after_load.1 <= 16)%nat) /\
  Forall (fun truck' =>
            (length (Truck.packages truck') <= Truck.peak truck')%nat /\
            (Truck.peak truck' <= 16)%nat) Scenario.run_grouped.1.
Proof.
  assert (HC : counts_ok (priority_packages Scenario.G_grouped)
                 Scenario.G_grouped)
    by (apply counts_ok_check; vm_compute; reflexivity).
  assert (HW : Forall within_capacity truck_list)
    by (repeat constructor; simpl; lia).
  destruct (manifest_never_exceeds_16 1 truck_list Scenario.G_grouped HC HW)
    as (Hload & _ & Hrun).
  split.
  - apply (Hload truck_1 Scenario.after_load.1 Scenario.after_load.2);
      [left | vm_compute; reflexivity].
  - apply (Hrun Scenario.run_grouped.1 Scenario.run_grouped.2).
    vm_compute. reflexivity.
Defined.

(** ** Witnesses of C5 and C10 *)

Lemma group_admission_atomic_witness :
  exists L D,
    Truck.packages Scenario.after_load.1 = Truck.packages truck_1 ++ L /\
    Truck.delivered Scenario.after_deliveries.1 = Truck.delivered truck_1 ++ D /\
    Truck.truck_id Scenario.after_deliveries.1 = Truck.truck_id truck_1 /\
    (16 < Z.of_nat (length (Truck.packages truck_1)) + 2 ->
     forall q, q ∈ L -> has_group 7 q Scenario.G_grouped = false) /\
    (Z.of_nat (length (Truck.packages truck_1)) + 2 <= 16 ->
     forall q, q ∈ [] ++ 1 :: [2] -> has_group 7 q Scenario.G_grouped = true ->
       q ∈ L /\ q ∈ D /\
       exists pq, search_package q Scenario.after_load.2 = Ok pq /\
         Package.time_pickup pq = Truck.truck_time truck_1).
Proof.
  apply (group_admission_atomic [] [2] [] 1 truck_1 truck_1
           Scenario.after_load.1 Scenario.after_deliveries.1
           Scenario.G_grouped Scenario.G_grouped Scenario.after_load.2
           Scenario.after_deliveries.2
           (Scenario.record 1 Scenario.G_grouped) 2).
  - apply keys_ok_check. vm_compute. reflexivity.
  - apply ungrouped_check. vm_compute. reflexivity.
  - vm_compute. reflexivity.
  - vm_compute. discriminate.
  - apply not_elem_of_nil.
  - vm_compute. reflexivity.
  - right. vm_compute. reflexivity.
  - vm_compute. discriminate.
  - vm_compute. discriminate.
  - vm_compute. reflexivity.
  - vm_compute. reflexivity.
  - vm_compute. reflexivity.
Defined.

Lemma clock_and_odometer_never_decrease_witness :
  distances_nonneg Scenario.after_load.2 /\
  Truck.deliver_package 2 Scenario.after_load.1 Scenario.after_load.2
  = Ok Scenario.after_first_delivery /\
  Truck.truck_time Scenario.after_load.1
  <= Truck.truck_time Scenario.after_first_delivery.1 /\
  (Truck.distance_traveled Scenario.after_load.1
   <= Truck.distance_traveled Scenario.after_first_delivery.1)%Q.
Proof.
  assert (HD : distances_nonneg Scenario.after_load.2)
    by (apply distances_nonneg_check; vm_compute; reflexivity).
  assert (Hdel : Truck.deliver_package 2 Scenario.after_load.1
                   Scenario.after_load.2 = Ok Scenario.after_first_delivery)
    by (vm_compute; reflexivity).
  split; [exact HD|]. split; [exact Hdel|].
  destruct (clock_and_odometer_never_decrease Scenario.after_load.2
              Scenario.after_load.1 HD) as (_ & _ & _ & Hdeliver & _).
  exact (Hdeliver 2 Scenario.after_first_delivery.1
           Scenario.after_first_delivery.2 Hdel).
Defined.

(** * Further properties of the code *)

(** ** ChainHashTable as a dictionary *)

Section ChainHashTableMap.
Context {V : Type}.
Implicit Types (self : ChainHashTable.table V) (l : list (Z * V)).
Import ChainHashTable.

Lemma length_insert_chain_fresh key item l :
  search_chain key l = None ->
  length (insert_chain key item l) = S (length l).
Proof.
  induction l as [|kv l IH]; simpl; [reflexivity|].
  destruct (kv.1 =? key); [discriminate|]. simpl. intros H. rewrite IH; auto.
Qed.

Lemma size_alter (f : list (Z * V) -> list (Z * V)) b self l :
  self !! b = Some l ->
  (size (alter f b self) + length l = size self + length (f l))%nat.
Proof.
  unfold size. revert b. induction self as [|l0 self IH]; intros [|b] Hb;
    simpl in *; try discriminate.
  - injection Hb as ->. rewrite !length_app. lia.
  - rewrite !length_app. specialize (IH b Hb).
    change (alter f b self) with (list_alter f b self) in IH. lia.
Qed.

Lemma size_insert_fresh key item self self' :
  search key self = Ok None ->
  insert key item self = Ok self' -> size self' = S (size self).
Proof.
  unfold search, insert. intros Hs H. inv_bind H. injection H as <-.
  rewrite Hm in Hs. simpl in Hs. injection Hs as Hs.
  destruct (lookup_lt_is_Some_2 self a (bucket_Ok _ _ _ Hm)) as [l Hl].
  rewrite Hl in Hs. simpl in Hs.
  pose proof (size_alter (insert_chain key item) a self l Hl) as Hsz.
  rewrite (length_insert_chain_fresh _ _ _ Hs) in Hsz. lia.
Qed.

(** One [insert] is one update of the dictionary the table stands for. *)
Lemma insert_is_map_insert key item self self' (m : gmap Z V) :
  (forall k, search k self = Ok (m !! k)) -> size self = base.size m ->
  insert key item self = Ok self' ->
  (forall k, search k self' = Ok (<[key:=item]> m !! k)) /\
  size self' = base.size (<[key:=item]> m).
Proof.
  intros Hm Hsz Hins. split.
  - intros k. destruct (decide (key = k)) as [<-|Hne].
    + rewrite lookup_insert_eq. eapply search_insert_eq; eauto.
    + rewrite lookup_insert_ne by exact Hne.
      rewrite (search_insert_ne _ _ _ _ _ Hne Hins). apply Hm.
  - destruct (m !! key) as [v0|] eqn:Hk.
    + rewrite (map_size_insert_Some key item m) by eauto.
      rewrite <- Hsz. eapply size_insert_found; [|exact Hins].
      rewrite Hm, Hk. reflexivity.
    + rewrite (map_size_insert_None key item m) by exact Hk.
      rewrite <- Hsz. apply size_insert_fresh with key item; [|exact Hins].
      rewrite Hm, Hk. reflexivity.
Qed.

Lemma inserts_snoc kvs kv self :
  inserts (kvs ++ [kv]) self
  = let* self' := inserts kvs self in insert kv.1 kv.2 self'.
Proof.
  revert self. induction kvs as [|x kvs IH]; intros self; simpl.
  - destruct (insert kv.1 kv.2 self); reflexivity.
  - destruct (insert x.1 x.2 self) as [self1|e]; simpl; [apply IH|reflexivity].
Qed.

(** A table filled from empty stands for the dictionary in which the last
    value inserted under a key is the one kept. *)
Lemma inserts_is_map c kvs :
  0 < c ->
  exists t, inserts kvs (init c) = Ok t /\
    length t = Z.to_nat c /\
    (forall k, search k t = Ok ((list_to_map (reverse kvs) : gmap Z V) !! k)) /\
    size t = base.size (list_to_map (reverse kvs) : gmap Z V).
Proof.
  intros Hc. induction kvs as [|kv kvs IH] using rev_ind.
  - exists (init c).
    change (reverse (@nil (Z * V))) with (@nil (Z * V)).
    rewrite list_to_map_nil. split_and!; try reflexivity.
    + unfold init. apply length_replicate.
    + intros k. rewrite lookup_empty. apply search_init. exact Hc.
    + unfold size, init. rewrite map_size_empty.
      induction (Z.to_nat c); simpl; auto.
  - destruct IH as (t & Ht & Hlen & Hm & Hsz).
    destruct (insert_Ok kv.1 kv.2 t) as [t' Ht']; [lia|].
    exists t'. rewrite inserts_snoc, Ht. cbn [rbind].
    rewrite reverse_snoc. destruct kv as [k0 v0]. simpl in *.
    destruct (insert_is_map_insert _ _ _ _ _ Hm Hsz Ht') as [Hm' Hsz'].
    split_and!; auto. rewrite (length_insert _ _ _ _ Ht'). exact Hlen.
Qed.
End ChainHashTableMap.

(** X1.  A table made by the constructor with at least one bucket and filled
    by a sequence of [insert] calls behaves as the dictionary built from the
    same sequence: [search] returns the value last inserted under the key,
    or [None] for a key never inserted, the table stores one pair per key
    and it keeps its number of buckets. *)
Theorem ChainHashTable_is_a_dictionary {V : Type} (initial_capacity : Z)
  (kvs : list (Z * V)) :
  0 < initial_capacity ->
  exists t : ChainHashTable.table V,
    ChainHashTable.inserts kvs (ChainHashTable.init initial_capacity) = Ok t /\
    length t = Z.to_nat initial_capacity /\
    (forall k, ChainHashTable.search k t
               = Ok ((list_to_map (reverse kvs) : gmap Z V) !! k)) /\
    ChainHashTable.size t = base.size (list_to_map (reverse kvs) : gmap Z V).
Proof. apply inserts_is_map. Qed.

Lemma ChainHashTable_is_a_dictionary_witness :
  exists t : ChainHashTable.table Z,
    ChainHashTable.inserts [(1, 5); (11, 6); (1, 7)] (ChainHashTable.init 10)
    = Ok t /\
    length t = Z.to_nat 10 /\
    (forall k, ChainHashTable.search k t
               = Ok ((list_to_map (reverse [(1, 5); (11, 6); (1, 7)])
                      : gmap Z Z) !! k)) /\
    ChainHashTable.size t
    = base.size (list_to_map (reverse [(1, 5); (11, 6); (1, 7)]) : gmap Z Z).
Proof. apply (ChainHashTable_is_a_dictionary 10 [(1, 5); (11, 6); (1, 7)]). lia. Defined.

(** X2.  A table made with a capacity of zero or less has no bucket, and
    both methods raise ZeroDivisionError on it, whatever the key. *)
Theorem ChainHashTable_without_buckets {V : Type} (initial_capacity key : Z)
  (item : V) :
  initial_capacity <= 0 ->
  ChainHashTable.insert key item (ChainHashTable.init initial_capacity)
  = Raise ZeroDivisionError /\
  ChainHashTable.search key (ChainHashTable.init (V := V) initial_capacity)
  = Raise ZeroDivisionError.
Proof.
  intros Hc. unfold ChainHashTable.init.
  replace (Z.to_nat initial_capacity) with 0%nat by lia.
  split; reflexivity.
Qed.

Lemma ChainHashTable_without_buckets_witness :
  ChainHashTable.insert 3 8 (ChainHashTable.init (-2)) = Raise ZeroDivisionError /\
  ChainHashTable.search 3 (ChainHashTable.init (V := Z) (-2))
  = Raise ZeroDivisionError.
Proof. apply (ChainHashTable_without_buckets (-2) 3 8). lia. Defined.

(** X3.  On any table, [insert] under one key changes what [search] returns
    for no other key, and leaves the number of buckets as it was. *)
Theorem ChainHashTable_insert_other_keys {V : Type}
  (self self' : ChainHashTable.table V) (key key' : Z) (item : V) :
  ChainHashTable.insert key item self = Ok self' -> key <> key' ->
  ChainHashTable.search key' self' = ChainHashTable.search key' self /\
  length self' = length self.
Proof.
  intros H Hne. split; [eapply search_insert_ne | eapply length_insert]; eauto.
Qed.

Lemma ChainHashTable_insert_other_keys_witness :
  ChainHashTable.search 11 [[]; [(1, 7); (11, 6)]]
  = ChainHashTable.search 11 [[]; [(1, 5); (11, 6)]] /\
  length [[]; [(1, 7); (11, 6)]] = length [([] : list (Z * Z)); [(1, 5); (11, 6)]].
Proof.
  apply (ChainHashTable_insert_other_keys [[]; [(1, 5); (11, 6)]]
           [[]; [(1, 7); (11, 6)]] 1 11 7); [reflexivity | lia].
Defined.

(** ** load_package_data on any file *)

Lemma load_row_tallied locs done p G :
  tallied locs done G ->
  exists G', load_row p G = Ok G' /\ tallied locs (done ++ [p]) G'.
Proof.
  intros (Hloc & Hnum & Hprio & Hnon & Hcnt & Htab). unfold load_row.
  destruct (inserts_is_map (V := Package.t) 10 (table_entries done))
    as (t & Ht & Hlen & _); [lia|].
  rewrite Htab in Ht. injection Ht as <-.
  destruct (insert_Ok (Package.id p) p (my_hash_packages G)) as [h Hh];
    [rewrite Hlen; lia|].
  rewrite Hh. cbn [rbind].
  set (counts' := if negb (Package.group p =? 0) then _ else _).
  assert (Hcounts : forall g, counts' !! g
            = if (g =? 0) || (group_size g (done ++ [p]) =? 0) then None
              else Some (group_size g (done ++ [p]))).
  { intros g. rewrite group_size_snoc. pose proof (group_size_nonneg g done).
    pose proof (Hcnt g) as Hg. subst counts'.
    destruct (Z.eqb_spec (Package.group p) 0) as [Hp0|Hp0]; simpl.
    - rewrite Hg. destruct (Z.eqb_spec g 0) as [Hg0|Hg0]; [reflexivity|].
      destruct (Z.eqb_spec (Package.group p) g) as [Hpg|Hpg]; [congruence|].
      rewrite Z.add_0_r. reflexivity.
    - pose proof (Hcnt (Package.group p)) as Hgp.
      rewrite (proj2 (Z.eqb_neq _ _) Hp0) in Hgp. simpl in Hgp.
      destruct (Z.eqb_spec (Package.group p) g) as [Hpg|Hpg].
      + subst g. rewrite (proj2 (Z.eqb_neq _ _) Hp0). simpl.
        destruct (Z.eqb_spec (group_size (Package.group p) done + 1) 0); [lia|].
        destruct (Z.eqb_spec (group_size (Package.group p) done) 0) as [Hz|Hz];
          rewrite Hgp, lookup_insert_eq; [rewrite Hz|]; reflexivity.
      + rewrite Z.add_0_r.
        destruct (group_count_dictionary G !! Package.group p);
          rewrite lookup_insert_ne by exact Hpg; exact Hg. }
  assert (Htab' : ChainHashTable.inserts (table_entries (done ++ [p]))
                    (ChainHashTable.init 10) = Ok h).
  { unfold table_entries. rewrite fmap_app. simpl.
    rewrite inserts_snoc. fold (table_entries done). rewrite Htab. exact Hh. }
  fold (is_priority p). destruct (is_priority p) eqn:Hp; eexists;
    (split; [reflexivity|]); unfold tallied; simpl;
    rewrite !filter_app, !fmap_app, !filter_cons, !filter_nil, length_app;
    split_and!; auto; simpl; try lia.
  - rewrite decide_True by exact Hp. rewrite Hprio. reflexivity.
  - rewrite decide_False by congruence. rewrite app_nil_r. exact Hnon.
  - rewrite decide_False by congruence. rewrite app_nil_r. exact Hprio.
  - rewrite decide_True by exact Hp. rewrite Hnon. reflexivity.
Qed.

Lemma start_tallied locs : tallied locs [] (start locs).
Proof.
  unfold tallied. split_and!; try reflexivity.
  intros g. rewrite orb_true_r. apply lookup_empty.
Qed.

Lemma load_package_data_tallied_from locs rows done G :
  tallied locs done G ->
  exists G', load_package_data rows G = Ok G' /\
    tallied locs (done ++ rows) G'.
Proof.
  revert done G. induction rows as [|p rows IH]; intros done G HT; simpl.
  - rewrite app_nil_r. eauto.
  - destruct (load_row_tallied locs done p G HT) as (G1 & -> & HT1).
    cbn [rbind]. replace (done ++ p :: rows) with ((done ++ [p]) ++ rows)
      by (rewrite <- app_assoc; reflexivity).
    apply IH. exact HT1.
Qed.

Lemma load_package_data_tallied locs rows :
  exists G, load_package_data rows (start locs) = Ok G /\ tallied locs rows G.
Proof.
  apply (load_package_data_tallied_from locs rows [] (start locs)).
  apply start_tallied.
Qed.

Lemma filter_not_priority (rows : list Package.t) :
  filter (fun p => is_priority p = false) rows
  = filter (fun p => is_priority p <> true) rows.
Proof.
  induction rows as [|p rows IH]; [reflexivity|].
  rewrite !filter_cons, IH. destruct (is_priority p) eqn:Hp.
  - rewrite decide_False by discriminate.
    rewrite decide_False by (intros H; apply H; reflexivity). reflexivity.
  - rewrite decide_True by reflexivity.
    rewrite decide_True by discriminate. reflexivity.
Qed.

(** X4.  [load_package_data] raises on no file.  It returns the number of
    rows, and leaves in the priority list the ids of the rows with a
    deadline before 23:59:59, a required truck or a group, and in the
    non-priority list the ids of the other rows, both in the order of the
    file: every row is in one of the two lists, once. *)
Theorem load_package_data_sorts_every_row (locs : list Location.t)
  (rows : list Package.t) :
  exists G, load_package_data rows (start locs) = Ok G /\
    locations G = locs /\
    num_packages G = Z.of_nat (length rows) /\
    priority_packages G
    = Package.id <$> filter (fun p => is_priority p = true) rows /\
    non_priority_packages G
    = Package.id <$> filter (fun p => is_priority p = false) rows /\
    priority_packages G ++ non_priority_packages G ≡ₚ Package.id <$> rows.
Proof.
  destruct (load_package_data_tallied locs rows)
    as (G & HG & Hloc & Hnum & Hprio & Hnon & _).
  exists G. split_and!; auto.
  rewrite Hprio, Hnon, <- fmap_app. apply fmap_Permutation.
  rewrite filter_not_priority. apply filter_app_complement.
Qed.

(** X5.  After [load_package_data] the dictionary holds, for every group
    other than 0 that has a row, the number of rows of that group; group 0
    and the groups without a row are no keys of it (looking one up raises
    KeyError). *)
Theorem load_package_data_counts_groups (locs : list Location.t)
  (rows : list Package.t) :
  exists G, load_package_data rows (start locs) = Ok G /\
    forall g, group_count g G
              = if (g =? 0) || (group_size g rows =? 0) then Raise KeyError
                else Ok (group_size g rows).
Proof.
  destruct (load_package_data_tallied locs rows)
    as (G & HG & _ & _ & _ & _ & Hcnt & _).
  exists G. split; [exact HG|]. intros g. unfold group_count. rewrite Hcnt.
  destruct ((g =? 0) || (group_size g rows =? 0)); reflexivity.
Qed.

(** X6.  After [load_package_data] the record found under an id is the last
    row of the file with that id, and an id of no row has no record (an
    attribute access on the result raises AttributeError); so every record
    is stored under its own id, and when the ids of the file are distinct
    every row is found under its id. *)
Theorem load_package_data_keeps_the_last_row (locs : list Location.t)
  (rows : list Package.t) :
  exists G, load_package_data rows (start locs) = Ok G /\
    (forall k, search_package k G
               = match (list_to_map (reverse (table_entries rows))
                        : gmap Z Package.t) !! k with
                 | Some p => Ok p
                 | None => Raise AttributeError
                 end) /\
    (forall k p, search_package k G = Ok p -> p ∈ rows /\ Package.id p = k) /\
    (NoDup (Package.id <$> rows) ->
     forall p, p ∈ rows -> search_package (Package.id p) G = Ok p).
Proof.
  destruct (load_package_data_tallied locs rows)
    as (G & HG & _ & _ & _ & _ & _ & Htab).
  destruct (inserts_is_map (V := Package.t) 10 (table_entries rows))
    as (t & Ht & _ & Hm & _); [lia|].
  rewrite Htab in Ht. injection Ht as <-.
  assert (Hsearch : forall k, search_package k G
            = match (list_to_map (reverse (table_entries rows))
                     : gmap Z Package.t) !! k with
              | Some p => Ok p
              | None => Raise AttributeError
              end).
  { intros k. unfold search_package. rewrite Hm. reflexivity. }
  exists G. split_and!; auto.
  - intros k p Hk. rewrite Hsearch in Hk.
    destruct (list_to_map (reverse (table_entries rows)) !! k) as [q|] eqn:Hq;
      [|discriminate].
    injection Hk as ->. apply elem_of_list_to_map_2 in Hq.
    rewrite elem_of_reverse in Hq. unfold table_entries in Hq.
    apply list_elem_of_fmap in Hq as (q & [= -> ->] & Hin). auto.
  - intros Hnd p Hp.
    destruct (load_package_data_loaded locs rows Hnd) as (G' & HG' & HL).
    rewrite HG in HG'. injection HG' as <-. exact (lf_rows _ _ _ HL p Hp).
Qed.

Lemma load_package_data_keeps_the_last_row_witness :
  search_package 2 Scenario.G_grouped
  = Ok (Package.mk 2 7 2 (time_of 8 0 0) 0 0 Scenario.end_of_day 2).
Proof.
  destruct (load_package_data_keeps_the_last_row Scenario.three_locations
              Scenario.grouped_rows) as (G & HG & _ & _ & Hrow).
  assert (HG' : G = Scenario.G_grouped).
  { vm_compute in HG. injection HG as <-. vm_compute. reflexivity. }
  subst G.
  assert (Hnd : NoDup (Package.id <$> Scenario.grouped_rows))
    by (apply (bool_decide_unpack _); vm_compute; exact I).
  apply (Hrow Hnd (Package.mk 2 7 2 (time_of 8 0 0) 0 0 Scenario.end_of_day 2)).
  right. left.
Defined.

(** ** Truck.find_shortest_distance and the delivery loop *)

(** X7.  When every package aboard has a record and a distance from where
    the truck is, and one of them is less than 100 miles away,
    [find_shortest_distance] returns an id aboard at the least distance,
    and of the ids at that distance the first of the manifest. *)
Theorem find_shortest_distance_first_nearest (self : Truck.t) (G : Globals)
  (k : Z) (dk : Q) :
  Forall (fun k' => exists d', package_distance k' self G = Ok d')
    (Truck.packages self) ->
  k ∈ Truck.packages self -> package_distance k self G = Ok dk ->
  (dk < 100)%Q ->
  exists r d l1 l2,
    Truck.find_shortest_distance self G = Ok r /\
    Truck.packages self = l1 ++ r :: l2 /\
    package_distance r self G = Ok d /\
    Forall (fun k' => exists d', package_distance k' self G = Ok d'
                                 /\ (d < d')%Q) l1 /\
    Forall (fun k' => exists d', package_distance k' self G = Ok d'
                                 /\ (d <= d')%Q) l2.
Proof.
  intros Hall Hin Hk Hlt.
  destruct (find_shortest_loop_returns (Truck.packages self) 100 (-1) self G Hall)
    as [r Hr].
  destruct (find_shortest_distance_nearest self G r k dk Hin Hk Hlt Hr)
    as (d & l1 & l2 & Hl & Hd & _ & H1 & H2).
  exists r, d, l1, l2. auto.
Qed.

Lemma find_shortest_distance_first_nearest_witness :
  exists r d l1 l2,
    Truck.find_shortest_distance Scenario.after_load.1 Scenario.after_load.2
    = Ok r /\
    Truck.packages Scenario.after_load.1 = l1 ++ r :: l2 /\
    package_distance r Scenario.after_load.1 Scenario.after_load.2 = Ok d /\
    Forall (fun k' => exists d',
              package_distance k' Scenario.after_load.1 Scenario.after_load.2
              = Ok d' /\ (d < d')%Q) l1 /\
    Forall (fun k' => exists d',
              package_distance k' Scenario.after_load.1 Scenario.after_load.2
              = Ok d' /\ (d <= d')%Q) l2.
Proof.
  apply (find_shortest_distance_first_nearest Scenario.after_load.1
           Scenario.after_load.2 2 3%Q).
  - repeat constructor; eexists; vm_compute; reflexivity.
  - right. left.
  - vm_compute. reflexivity.
  - reflexivity.
Defined.

(** X8.  When every package aboard is 100 miles away or more and no record
    has the id -1, the delivery loop raises AttributeError in its first
    turn: [find_shortest_distance] returns -1 and [deliver_package] finds no
    record for it. *)
Theorem delivery_loop_raises_beyond_100_miles (fuel : nat) (truck : Truck.t)
  (G : Globals) :
  Truck.packages truck <> [] ->
  Forall (fun k => exists dk, package_distance k truck G = Ok dk
                              /\ (100 <= dk)%Q) (Truck.packages truck) ->
  search_package (-1) G = Raise AttributeError ->
  deliver_all (S fuel) truck G = Raise AttributeError.
Proof.
  intros Hne Hall Hno.
  destruct (find_shortest_loop_returns (Truck.packages truck) 100 (-1) truck G)
    as [r Hr].
  { eapply Forall_impl; [exact Hall|]. intros k (dk & Hk & _). eauto. }
  assert (Hr' : Truck.find_shortest_distance truck G = Ok r) by exact Hr.
  pose proof (find_shortest_distance_sentinel truck G r Hall Hr') as ->.
  destruct (unpend_returns (-1) G) as [G1 Hun].
  cbn [deliver_all]. destruct (Truck.packages truck); [contradiction|].
  rewrite Hr'. cbn [rbind]. rewrite Hun. cbn [rbind].
  unfold Truck.deliver_package.
  rewrite (search_package_unpend _ _ _ (-1) Hun), Hno. reflexivity.
Qed.

Lemma delivery_loop_raises_beyond_100_miles_witness :
  deliver_all 1 Scenario.after_load_far.1 Scenario.after_load_far.2
  = Raise AttributeError.
Proof.
  apply (delivery_loop_raises_beyond_100_miles 0 Scenario.after_load_far.1
           Scenario.after_load_far.2).
  - vm_compute. discriminate.
  - repeat constructor. exists 120%Q. split; [vm_compute; reflexivity|].
    vm_compute. discriminate.
  - vm_compute. reflexivity.
Defined.



(** ** A trip: load, deliver, return *)

Lemma trip_Ok truck G truck' G' :
  trip truck G = Ok (truck', G') ->
  exists truck1 G1 truck2 dist,
    Truck.load_truck (priority_packages G) (non_priority_packages G) truck G
    = Ok (truck1, G1) /\
    deliver_all (length (Truck.packages truck1)) truck1 G1 = Ok (truck2, G') /\
    distance (Truck.location_id truck2) 0 G' = Ok dist /\
    truck' = Truck.travel dist 0 truck2.
Proof.
  unfold trip. intros H. inv_bind H. destruct a as [truck1 G1].
  inv_bind H. destruct a as [truck2 G2]. inv_bind H. injection H as <- <-.
  apply return_to_hub_Ok in Hm1 as (dist & Hd & ->).
  exists truck1, G1, truck2, dist. auto.
Qed.

Lemma deliver_all_same_static fuel truck G truck' G' :
  deliver_all fuel truck G = Ok (truck', G') -> same_static G G'.
Proof.
  apply (deliver_all_rule (fun _ g => same_static G g));
    [|apply same_static_refl].
  intros t g d g1 t' g2 HS _ Hun Hdel.
  destruct (unpend_Ok _ _ _ Hun) as (_ & HS1 & _).
  pose proof (deliver_package_same_static _ _ _ _ _ Hdel) as HS2.
  eauto using same_static_trans.
Qed.

(** X10.  A trip that returns leaves the truck empty at the depot: the ids
    its delivery loop has handed over are the ids aboard after its loading
    pass, so nothing loaded in a trip is carried into the next.  The trip
    changes neither the id of the truck nor the attributes of the records
    other than their pickup and delivered times. *)
Theorem trip_delivers_what_it_loads (truck truck' : Truck.t) (G G' : Globals) :
  trip truck G = Ok (truck', G') ->
  Truck.packages truck' = [] /\
  Truck.location_id truck' = 0 /\
  Truck.truck_id truck' = Truck.truck_id truck /\
  same_static G G' /\
  exists truck1 G1 D,
    Truck.load_truck (priority_packages G) (non_priority_packages G) truck G
    = Ok (truck1, G1) /\
    Truck.delivered truck' = Truck.delivered truck ++ D /\
    D ≡ₚ Truck.packages truck1.
Proof.
  intros H. apply trip_Ok in H as (truck1 & G1 & truck2 & dist & Hload & Hdel & _ & ->).
  pose proof (deliver_all_empties _ _ _ _ _ (Nat.le_refl _) Hdel) as Hempty.
  destruct (deliver_all_delivered _ _ _ _ _ Hdel) as (Hid & D & HD & Hperm).
  rewrite Hempty, app_nil_r in Hperm.
  destruct (load_truck_frame _ _ _ _ _ _ Hload)
    as (HS1 & _ & _ & Hid1 & _ & _ & _ & Hdel1 & _).
  pose proof (deliver_all_same_static _ _ _ _ _ Hdel) as HS2.
  split_and!; simpl; auto; try congruence.
  - eapply same_static_trans; eauto.
  - exists truck1, G1, D. split_and!; auto. rewrite HD, Hdel1. reflexivity.
Qed.

Lemma trip_delivers_what_it_loads_witness :
  Truck.packages Scenario.after_trip.1 = [] /\
  Truck.location_id Scenario.after_trip.1 = 0 /\
  Truck.truck_id Scenario.after_trip.1 = Truck.truck_id truck_1 /\
  same_static Scenario.G_grouped Scenario.after_trip.2 /\
  exists truck1 G1 D,
    Truck.load_truck (priority_packages Scenario.G_grouped)
      (non_priority_packages Scenario.G_grouped) truck_1 Scenario.G_grouped
    = Ok (truck1, G1) /\
    Truck.delivered Scenario.after_trip.1 = Truck.delivered truck_1 ++ D /\
    D ≡ₚ Truck.packages truck1.
Proof.
  apply (trip_delivers_what_it_loads truck_1 Scenario.after_trip.1
           Scenario.G_grouped Scenario.after_trip.2).
  vm_compute. reflexivity.
Defined.

(** ** The pending lists *)

Lemma py_remove_NoDup x l l' :
  NoDup l -> py_remove x l = Ok l' -> (x ∉ l') /\ NoDup l'.
Proof.
  intros Hnd H. apply py_remove_Ok in H as (Hperm & _).
  rewrite Hperm in Hnd. apply NoDup_cons in Hnd. exact Hnd.
Qed.

Lemma unpend_NoDup d G G1 :
  NoDup (priority_packages G ++ non_priority_packages G) ->
  unpend d G = Ok G1 ->
  NoDup (priority_packages G1 ++ non_priority_packages G1) /\
  (d ∉ priority_packages G1) /\ (d ∉ non_priority_packages G1).
Proof.
  intros Hnd H. apply NoDup_app in Hnd as (Hp & Hdisj & Hn).
  unfold unpend, py_in in H.
  destruct (bool_decide_reflect (d ∈ priority_packages G)) as [Hin|Hnin].
  - inv_bind H. injection H as <-. simpl.
    destruct (py_remove_NoDup _ _ _ Hp Hm) as [Hd Hp'].
    apply py_remove_Ok in Hm as (Hperm & _).
    split_and!; auto. apply NoDup_app. split_and!; auto.
    intros x Hx. apply Hdisj. rewrite Hperm. right. exact Hx.
  - destruct (bool_decide_reflect (d ∈ non_priority_packages G)) as [Hin|Hnin'].
    + inv_bind H. injection H as <-. simpl.
      destruct (py_remove_NoDup _ _ _ Hn Hm) as [Hd Hn'].
      apply py_remove_Ok in Hm as (Hperm & _).
      split_and!; auto. apply NoDup_app. split_and!; auto.
      intros x Hx Hx'. apply (Hdisj x Hx). rewrite Hperm. right. exact Hx'.
    + injection H as <-. split_and!; auto. apply NoDup_app. auto.
Qed.

Lemma deliver_all_pending fuel truck G truck' G' :
  NoDup (priority_packages G ++ non_priority_packages G) ->
  deliver_all fuel truck G = Ok (truck', G') ->
  NoDup (priority_packages G' ++ non_priority_packages G') /\
  exists D, Truck.delivered truck' = Truck.delivered truck ++ D /\
    forall x,
      (x ∈ priority_packages G' <-> x ∈ priority_packages G /\ x ∉ D) /\
      (x ∈ non_priority_packages G'
       <-> x ∈ non_priority_packages G /\ x ∉ D).
Proof.
  intros Hnd.
  apply (deliver_all_rule (fun t g =>
    NoDup (priority_packages g ++ non_priority_packages g) /\
    exists D, Truck.delivered t = Truck.delivered truck ++ D /\
      forall x,
        (x ∈ priority_packages g <-> x ∈ priority_packages G /\ x ∉ D) /\
        (x ∈ non_priority_packages g
         <-> x ∈ non_priority_packages G /\ x ∉ D))).
  - intros t g d g1 t' g2 (Hndg & D & HD & Hx) _ Hun Hdel.
    destruct (unpend_NoDup _ _ _ Hndg Hun) as (Hnd1 & Hdp & Hdn).
    destruct (unpend_Ok _ _ _ Hun) as (_ & _ & Hiff & _).
    apply deliver_package_Ok in Hdel as (p & s1 & l & _ & -> & Hinc & _ & ->).
    apply increment_Ok in Hinc as (q & dist & _ & _ & ->). simpl.
    split; [exact Hnd1|]. exists (D ++ [d]).
    split; [rewrite HD, <- app_assoc; reflexivity|].
    intros x. destruct (decide (x = d)) as [->|Hne].
    + split; (split; [intros Hin; contradiction|]);
        intros [_ Hnot]; exfalso; apply Hnot; apply elem_of_app; right; left.
    + destruct (Hiff x Hne) as [Hp Hn]. destruct (Hx x) as [Hxp Hxn].
      rewrite Hp, Hn, Hxp, Hxn, !not_elem_of_app, list_elem_of_singleton.
      tauto.
  - split; [exact Hnd|]. exists []. rewrite app_nil_r.
    split; [reflexivity|]. intros x. rewrite elem_of_nil. tauto.
Qed.

(** X11.  With no id twice in the pending lists, a trip takes off them the
    ids its truck delivers and no other: an id is pending in a list after
    the trip exactly when it was pending in that list before and the truck
    did not deliver it, and still no id is pending twice. *)
Theorem trip_unpends_what_it_delivers (truck truck' : Truck.t) (G G' : Globals) :
  NoDup (priority_packages G ++ non_priority_packages G) ->
  trip truck G = Ok (truck', G') ->
  NoDup (priority_packages G' ++ non_priority_packages G') /\
  exists D, Truck.delivered truck' = Truck.delivered truck ++ D /\
    forall x,
      (x ∈ priority_packages G' <-> x ∈ priority_packages G /\ x ∉ D) /\
      (x ∈ non_priority_packages G'
       <-> x ∈ non_priority_packages G /\ x ∉ D).
Proof.
  intros Hnd H.
  apply trip_Ok in H as (truck1 & G1 & truck2 & dist & Hload & Hdel & _ & ->).
  destruct (load_truck_frame _ _ _ _ _ _ Hload)
    as (_ & Hp1 & Hn1 & _ & _ & _ & _ & Hdel1 & _).
  rewrite <- Hp1, <- Hn1 in Hnd.
  destruct (deliver_all_pending _ _ _ _ _ Hnd Hdel) as (Hnd' & D & HD & Hx).
  split; [exact Hnd'|]. exists D. simpl. rewrite HD, Hdel1, <- Hp1, <- Hn1.
  auto.
Qed.

Lemma trip_unpends_what_it_delivers_witness :
  NoDup (priority_packages Scenario.after_trip.2
         ++ non_priority_packages Scenario.after_trip.2) /\
  exists D, Truck.delivered Scenario.after_trip.1
            = Truck.delivered truck_1 ++ D /\
    forall x,
      (x ∈ priority_packages Scenario.after_trip.2
       <-> x ∈ priority_packages Scenario.G_grouped /\ x ∉ D) /\
      (x ∈ non_priority_packages Scenario.after_trip.2
       <-> x ∈ non_priority_packages Scenario.G_grouped /\ x ∉ D).
Proof.
  apply (trip_unpends_what_it_delivers truck_1 Scenario.after_trip.1
           Scenario.G_grouped Scenario.after_trip.2).
  - apply (bool_decide_unpack _). vm_compute. exact I.
  - vm_compute. reflexivity.
Defined.

(** ** Truck.load_truck *)

(** X12.  A loading pass that returns has only appended ids to the manifest
    and written pickup times: the pending lists, the truck's id, clock,
    odometer and position, the distance table, the group counts and the
    other attributes of the records are as before. *)
Theorem load_truck_only_loads (P N : list Z) (self self' : Truck.t)
  (G G' : Globals) :
  Truck.load_truck P N self G = Ok (self', G') ->
  (exists L, Truck.packages self' = Truck.packages self ++ L) /\
  priority_packages G' = priority_packages G /\
  non_priority_packages G' = non_priority_packages G /\
  Truck.truck_id self' = Truck.truck_id self /\
  Truck.truck_time self' = Truck.truck_time self /\
  Truck.distance_traveled self' = Truck.distance_traveled self /\
  Truck.location_id self' = Truck.location_id self /\
  same_static G G' /\
  (forall k p', search_package k G' = Ok p' ->
     exists p, search_package k G = Ok p /\
       Package.time_delivered p' = Package.time_delivered p).
Proof.
  intros H.
  destruct (load_truck_frame _ _ _ _ _ _ H)
    as (HS & Hp & Hn & Hid & Ht & Hd & Hl & _ & HL).
  split_and!; auto.
  revert H.
  apply (load_truck_rule (fun s g =>
    forall k p', search_package k g = Ok p' ->
      exists p, search_package k G = Ok p /\
        Package.time_delivered p' = Package.time_delivered p) P N); [|eauto].
  intros s g k0 s' g' HI _ Hload k p' Hk.
  destruct (load_package_Ok _ _ _ _ _ Hload) as (p0 & Hp0 & _ & _).
  destruct (decide (k0 = k)) as [<-|Hne].
  - rewrite (load_package_search_eq _ _ _ _ _ _ Hload Hp0) in Hk.
    injection Hk as <-. exact (HI _ _ Hp0).
  - rewrite (load_package_search_ne _ _ _ _ _ _ Hload Hne) in Hk.
    exact (HI _ _ Hk).
Qed.

Lemma load_truck_only_loads_witness :
  (exists L, Truck.packages Scenario.after_load.1 = Truck.packages truck_1 ++ L) /\
  priority_packages Scenario.after_load.2 = priority_packages Scenario.G_grouped /\
  non_priority_packages Scenario.after_load.2
  = non_priority_packages Scenario.G_grouped /\
  Truck.truck_id Scenario.after_load.1 = Truck.truck_id truck_1 /\
  Truck.truck_time Scenario.after_load.1 = Truck.truck_time truck_1 /\
  Truck.distance_traveled Scenario.after_load.1
  = Truck.distance_traveled truck_1 /\
  Truck.location_id Scenario.after_load.1 = Truck.location_id truck_1 /\
  same_static Scenario.G_grouped Scenario.after_load.2 /\
  (forall k p', search_package k Scenario.after_load.2 = Ok p' ->
     exists p, search_package k Scenario.G_grouped = Ok p /\
       Package.time_delivered p' = Package.time_delivered p).
Proof.
  apply (load_truck_only_loads (priority_packages Scenario.G_grouped)
           (non_priority_packages Scenario.G_grouped) truck_1).
  vm_compute. reflexivity.
Defined.

(** X13.  Every id a loading pass appends to the manifest has a record, and
    when the pass returns that record carries the clock of the truck as its
    pickup time. *)
Theorem load_truck_stamps_the_clock (P N : list Z) (self self' : Truck.t)
  (G G' : Globals) :
  Truck.load_truck P N self G = Ok (self', G') ->
  exists L, Truck.packages self' = Truck.packages self ++ L /\
    forall k, k ∈ L ->
      exists p, search_package k G' = Ok p /\
        Package.time_pickup p = Truck.truck_time self.
Proof. apply load_truck_loaded. Qed.

Lemma load_truck_stamps_the_clock_witness :
  exists L, Truck.packages Scenario.after_load.1 = Truck.packages truck_1 ++ L /\
    forall k, k ∈ L ->
      exists p, search_package k Scenario.after_load.2 = Ok p /\
        Package.time_pickup p = Truck.truck_time truck_1.
Proof.
  apply (load_truck_stamps_the_clock (priority_packages Scenario.G_grouped)
           (non_priority_packages Scenario.G_grouped) truck_1
           Scenario.after_load.1 Scenario.G_grouped Scenario.after_load.2).
  vm_compute. reflexivity.
Defined.

(** X14.  Outside the groups the required truck is respected: when every
    record is stored under its id and the records of the non-priority list
    require no truck (as [load_package_data] leaves them), a package of no
    group that a loading pass appends to the manifest requires this truck or
    none. *)
Theorem load_truck_respects_required_truck_outside_groups (P N : list Z)
  (self self' : Truck.t) (G G' : Globals) :
  keys_ok G ->
  (forall q pk, q ∈ N -> search_package q G = Ok pk ->
     Package.req_truck pk = 0) ->
  Truck.load_truck P N self G = Ok (self', G') ->
  exists L, Truck.packages self' = Truck.packages self ++ L /\
    forall k p, k ∈ L -> search_package k G = Ok p -> Package.group p = 0 ->
      Package.req_truck p = Truck.truck_id self \/ Package.req_truck p = 0.
Proof.
  intros HK HN H.
  cut (same_static G G' /\ Truck.truck_id self' = Truck.truck_id self /\
       exists L, Truck.packages self' = Truck.packages self ++ L /\
         forall k p, k ∈ L -> search_package k G = Ok p ->
           Package.group p = 0 ->
           Package.req_truck p = Truck.truck_id self
           \/ Package.req_truck p = 0); [tauto|].
  revert H.
  apply (load_truck_entries (fun s g =>
    same_static G g /\ Truck.truck_id s = Truck.truck_id self /\
    exists L, Truck.packages s = Truck.packages self ++ L /\
      forall k p, k ∈ L -> search_package k G = Ok p ->
        Package.group p = 0 ->
        Package.req_truck p = Truck.truck_id self
        \/ Package.req_truck p = 0) P N).
  - intros s g k0 p0 s' g' (HS & Hid & L & HL & HI) _ _ _ Hp0 _ Hreq _ Hload.
    split; [eapply same_static_trans; eauto using load_package_same_static|].
    apply load_package_Ok in Hload as (_ & _ & -> & _). simpl.
    split; [exact Hid|]. exists (L ++ [k0]).
    split; [rewrite HL, <- app_assoc; reflexivity|].
    intros k p [Hk|Hk%list_elem_of_singleton]%elem_of_app Hp Hg;
      [eapply HI; eauto|]. subst k.
    destruct (same_static_search _ _ _ _ HS Hp) as (p1 & Hp1 & _ & _ & Hr & _).
    rewrite Hp0 in Hp1. injection Hp1 as <-. rewrite Hr in Hreq.
    rewrite <- Hid. exact Hreq.
  - intros s g k0 p0 c s' g' (HS & Hid & L & HL & HI) _ _ _ Hp0 Hg0 _ _ _ _ Hload.
    destruct (load_group_frame _ _ _ _ _ _ Hload) as (HS' & _).
    pose proof (load_group_Ok _ _ _ _ _ _ G HS Hload) as Hman.
    split; [eapply same_static_trans; eauto|].
    split.
    { clear - Hload Hid. revert s g Hload Hid.
      induction P as [|x P' IH]; intros s g Hload Hid; simpl in Hload.
      - injection Hload as <- <-. exact Hid.
      - inv_bind Hload. destruct (Package.group a =? Package.group p0).
        + inv_bind Hload. destruct a0 as [s1 g1].
          apply (IH s1 g1 Hload).
          apply load_package_Ok in Hm0 as (_ & _ & -> & _). exact Hid.
        + apply (IH s g Hload Hid). }
    exists (L ++ members (Package.group p0) P G).
    split; [rewrite Hman, HL, <- app_assoc; reflexivity|].
    intros k p [Hk|Hk]%elem_of_app Hp Hg; [eapply HI; eauto|].
    apply elem_of_members in Hk as [_ Hk].
    rewrite (has_group_search _ _ _ _ Hp) in Hk. apply Z.eqb_eq in Hk.
    congruence.
  - intros s g q pk s' g' (HS & Hid & L & HL & HI) Hq _ Hpk _ Hload.
    split; [eapply same_static_trans; eauto using load_package_same_static|].
    apply load_package_Ok in Hload as (_ & _ & -> & _). simpl.
    split; [exact Hid|]. exists (L ++ [Package.id pk]).
    split; [rewrite HL, <- app_assoc; reflexivity|].
    intros k p [Hk|Hk%list_elem_of_singleton]%elem_of_app Hp Hg;
      [eapply HI; eauto|]. subst k.
    destruct (same_static_search_inv _ _ _ _ HS Hpk) as (pk0 & Hpk0 & Hidk & _).
    pose proof (HK _ _ Hpk0) as Hkey. rewrite Hidk, Hkey in Hp.
    right. eapply HN; eauto.
  - split_and!; auto using same_static_refl. exists []. rewrite app_nil_r.
    split; [reflexivity|]. intros k p Hk. inversion Hk.
Qed.

Lemma load_truck_respects_required_truck_outside_groups_witness :
  exists L, Truck.packages Scenario.after_load_affinity.1
            = Truck.packages truck_1 ++ L /\
    forall k p, k ∈ L -> search_package k Scenario.G_affinity = Ok p ->
      Package.group p = 0 ->
      Package.req_truck p = Truck.truck_id truck_1 \/ Package.req_truck p = 0.
Proof.
  apply (load_truck_respects_required_truck_outside_groups
           (priority_packages Scenario.G_affinity)
           (non_priority_packages Scenario.G_affinity) truck_1
           Scenario.after_load_affinity.1 Scenario.G_affinity
           Scenario.after_load_affinity.2).
  - apply keys_ok_check. vm_compute. reflexivity.
  - intros q pk Hq Hpk.
    change (non_priority_packages Scenario.G_affinity) with [2] in Hq.
    apply list_elem_of_singleton in Hq. subst q.
    vm_compute in Hpk. injection Hpk as <-. reflexivity.
  - vm_compute. reflexivity.
Defined.

(** ** route_packages *)

Lemma trip_same_static truck G truck' G' :
  trip truck G = Ok (truck', G') ->
  same_static G G' /\ Truck.truck_id truck' = Truck.truck_id truck /\
  Truck.packages truck' = [] /\ Truck.location_id truck' = 0.
Proof.
  intros H. apply trip_Ok in H as (truck1 & G1 & truck2 & dist & Hload & Hdel & _ & ->).
  pose proof (deliver_all_empties _ _ _ _ _ (Nat.le_refl _) Hdel) as Hempty.
  destruct (deliver_all_delivered _ _ _ _ _ Hdel) as (Hid & _).
  destruct (load_truck_frame _ _ _ _ _ _ Hload) as (HS1 & _ & _ & Hid1 & _).
  pose proof (deliver_all_same_static _ _ _ _ _ Hdel) as HS2.
  split_and!; simpl; auto; try congruence. eapply same_static_trans; eauto.
Qed.

Lemma for_trucks_ids trucks G trucks' G' :
  for_trucks trucks G = Ok (trucks', G') ->
  Truck.truck_id <$> trucks' = Truck.truck_id <$> trucks.
Proof.
  revert G trucks'. induction trucks as [|truck trucks IH]; intros G trucks' H;
    simpl in H.
  - injection H as <- <-. reflexivity.
  - inv_bind H. destruct a as [truck1 G1]. inv_bind H. destruct a as [rest G2].
    injection H as <- <-. rewrite !fmap_cons, (IH _ _ Hm0).
    apply trip_same_static in Hm as (_ & -> & _). reflexivity.
Qed.

Lemma route_packages_ids fuel trucks G trucks' G' :
  route_packages fuel trucks G = Some (Ok (trucks', G')) ->
  Truck.truck_id <$> trucks' = Truck.truck_id <$> trucks.
Proof.
  revert trucks G. induction fuel as [|fuel IH]; intros trucks G H; simpl in H;
    destruct (pending G); try discriminate;
    try (injection H as <- <-; reflexivity).
  destruct (for_trucks trucks G) as [[trucks1 G1]|e] eqn:Hfor; [|discriminate].
  rewrite (IH _ _ H). eapply for_trucks_ids; eauto.
Qed.

Lemma route_packages_completed fuel trucks G trucks' G' :
  Forall (fun truck => Truck.packages truck = []
                       /\ Truck.location_id truck = 0) trucks ->
  route_packages fuel trucks G = Some (Ok (trucks', G')) ->
  priority_packages G' = [] /\ non_priority_packages G' = [] /\
  Truck.truck_id <$> trucks' = Truck.truck_id <$> trucks /\
  Forall (fun truck => Truck.packages truck = []
                       /\ Truck.location_id truck = 0) trucks' /\
  same_static G G'.
Proof.
  intros HT H. pose proof (route_packages_ids _ _ _ _ _ H) as Hids.
  eapply (route_packages_rule (fun g => same_static G g)
            (fun truck => Truck.packages truck = []
                          /\ Truck.location_id truck = 0))
    in H as (HS & HT' & Hpend); eauto using same_static_refl.
  - apply pending_false in Hpend as [Hp Hn]. auto.
  - intros truck g truck1 g1 HSg _ Htrip.
    apply trip_same_static in Htrip as (HS1 & _ & He & Hl).
    split; [eapply same_static_trans; eauto | auto].
Qed.

(** X15.  When [route_packages] completes, both pending lists are empty, the
    fleet is the same trucks in the same order, every truck that started
    empty at the depot is empty at the depot again, and the distance table,
    the group counts and the attributes of the records other than the
    pickup and delivered times are as at the start. *)
Theorem route_packages_ends_with_nothing_pending (fuel : nat)
  (trucks trucks' : list Truck.t) (G G' : Globals) :
  Forall (fun truck => Truck.packages truck = []
                       /\ Truck.location_id truck = 0) trucks ->
  route_packages fuel trucks G = Some (Ok (trucks', G')) ->
  priority_packages G' = [] /\ non_priority_packages G' = [] /\
  Truck.truck_id <$> trucks' = Truck.truck_id <$> trucks /\
  Forall (fun truck => Truck.packages truck = []
                       /\ Truck.location_id truck = 0) trucks' /\
  same_static G G'.
Proof. apply route_packages_completed. Qed.

Lemma route_packages_ends_with_nothing_pending_witness :
  priority_packages Scenario.run_grouped.2 = [] /\
  non_priority_packages Scenario.run_grouped.2 = [] /\
  Truck.truck_id <$> Scenario.run_grouped.1 = Truck.truck_id <$> truck_list /\
  Forall (fun truck => Truck.packages truck = []
                       /\ Truck.location_id truck = 0) Scenario.run_grouped.1 /\
  same_static Scenario.G_grouped Scenario.run_grouped.2.
Proof.
  apply (route_packages_ends_with_nothing_pending 1 truck_list
           Scenario.run_grouped.1 Scenario.G_grouped Scenario.run_grouped.2).
  - repeat constructor.
  - vm_compute. reflexivity.
Defined.

(** A package of no group whose required truck is not this truck is loaded
    by no pass of this truck. *)
Lemma load_truck_leaves_stranded P N self G self' G' k p :
  keys_ok G -> search_package k G = Ok p -> Package.group p = 0 ->
  Package.req_truck p <> 0 -> Package.req_truck p <> Truck.truck_id self ->
  k ∉ N -> k ∉ Truck.packages self ->
  Truck.load_truck P N self G = Ok (self', G') ->
  k ∉ Truck.packages self'.
Proof.
  intros HK Hp Hg Hr0 Hr HkN Hk H.
  cut (same_static G G' /\ Truck.truck_id self' = Truck.truck_id self /\
       k ∉ Truck.packages self'); [tauto|].
  revert H.
  apply (load_truck_entries (fun s g =>
    same_static G g /\ Truck.truck_id s = Truck.truck_id self /\
    k ∉ Truck.packages s) P N).
  - intros s g k0 p0 s' g' (HS & Hid & Hks) _ _ _ Hp0 _ Hreq _ Hload.
    split; [eapply same_static_trans; eauto using load_package_same_static|].
    apply load_package_Ok in Hload as (_ & _ & -> & _). simpl.
    split; [exact Hid|]. rewrite not_elem_of_app. split; [exact Hks|].
    rewrite list_elem_of_singleton. intros ->.
    destruct (same_static_search _ _ _ _ HS Hp) as (p1 & Hp1 & _ & _ & Hr1 & _).
    rewrite Hp0 in Hp1. injection Hp1 as <-. rewrite Hr1, Hid in Hreq.
    tauto.
  - intros s g k0 p0 c s' g' (HS & Hid & Hks) _ _ _ Hp0 Hg0 _ _ _ _ Hload.
    destruct (load_group_frame _ _ _ _ _ _ Hload) as (HS' & _).
    pose proof (load_group_Ok _ _ _ _ _ _ G HS Hload) as Hman.
    split; [eapply same_static_trans; eauto|].
    split.
    { clear - Hload Hid. revert s g Hload Hid.
      induction P as [|x P' IH]; intros s g Hload Hid; simpl in Hload.
      - injection Hload as <- <-. exact Hid.
      - inv_bind Hload. destruct (Package.group a =? Package.group p0).
        + inv_bind Hload. destruct a0 as [s1 g1].
          apply (IH s1 g1 Hload).
          apply load_package_Ok in Hm0 as (_ & _ & -> & _). exact Hid.
        + apply (IH s g Hload Hid). }
    rewrite Hman, not_elem_of_app. split; [exact Hks|].
    rewrite elem_of_members. intros [_ Hm].
    rewrite (has_group_search _ _ _ _ Hp), Hg in Hm. apply Z.eqb_eq in Hm.
    congruence.
  - intros s g q pk s' g' (HS & Hid & Hks) Hq _ Hpk _ Hload.
    split; [eapply same_static_trans; eauto using load_package_same_static|].
    apply load_package_Ok in Hload as (_ & _ & -> & _). simpl.
    split; [exact Hid|]. rewrite not_elem_of_app. split; [exact Hks|].
    rewrite list_elem_of_singleton. intros ->.
    destruct (same_static_search_inv _ _ _ _ HS Hpk) as (pk0 & Hpk0 & Hidk & _).
    pose proof (HK _ _ Hpk0) as Hkey. apply HkN. congruence.
  - split_and!; auto using same_static_refl.
Qed.

Lemma deliver_all_keeps_pending fuel truck G truck' G' k :
  k ∉ Truck.packages truck ->
  deliver_all fuel truck G = Ok (truck', G') ->
  (k ∈ priority_packages G' <-> k ∈ priority_packages G) /\
  (k ∈ non_priority_packages G' <-> k ∈ non_priority_packages G).
Proof.
  intros Hk.
  cut (deliver_all fuel truck G = Ok (truck', G') ->
       (k ∉ Truck.packages truck') /\
       (k ∈ priority_packages G' <-> k ∈ priority_packages G) /\
       (k ∈ non_priority_packages G' <-> k ∈ non_priority_packages G));
    [tauto|].
  apply (deliver_all_rule (fun t g =>
    (k ∉ Truck.packages t) /\
    (k ∈ priority_packages g <-> k ∈ priority_packages G) /\
    (k ∈ non_priority_packages g <-> k ∈ non_priority_packages G)));
    [|tauto].
  intros t g d g1 t' g2 (Hkt & Hp & Hn) _ Hun Hdel.
  destruct (unpend_Ok _ _ _ Hun) as (_ & _ & Hiff & _).
  apply deliver_package_Ok in Hdel as (q & s1 & l & _ & -> & Hinc & Hrem & ->).
  apply increment_Ok in Hinc as (q' & dist & _ & _ & ->).
  apply py_remove_Ok in Hrem as (Hperm & _). simpl.
  assert (Hne : k <> d).
  { intros ->. apply Hkt. rewrite Hperm. left. }
  destruct (Hiff k Hne) as [Hp1 Hn1]. split_and!.
  - intros Hin. apply Hkt. rewrite Hperm. right. exact Hin.
  - rewrite Hp1. exact Hp.
  - rewrite Hn1. exact Hn.
Qed.

(** X16.  A package of no group that requires a truck no truck of the fleet
    is, and that is in the priority list only, is never loaded: it stays
    pending after every round of trips, so [route_packages] does not
    complete, with whatever number of rounds. *)
Theorem route_packages_never_completes_with_a_stranded_package (fuel : nat)
  (trucks trucks' : list Truck.t) (G G' : Globals) (k : Z) (p : Package.t) :
  keys_ok G -> search_package k G = Ok p -> Package.group p = 0 ->
  Package.req_truck p <> 0 ->
  Forall (fun truck => Truck.truck_id truck <> Package.req_truck p
                       /\ k ∉ Truck.packages truck) trucks ->
  k ∈ priority_packages G -> k ∉ non_priority_packages G ->
  route_packages fuel trucks G <> Some (Ok (trucks', G')).
Proof.
  intros HK Hp Hg Hr0 HT Hkp Hkn H.
  eapply (route_packages_rule
            (fun g => same_static G g /\ k ∈ priority_packages g
                      /\ k ∉ non_priority_packages g)
            (fun truck => Truck.truck_id truck <> Package.req_truck p
                          /\ k ∉ Truck.packages truck))
    in H as ((_ & Hin & _) & _ & Hpend); eauto using same_static_refl.
  - apply pending_false in Hpend as [Hnil _]. rewrite Hnil in Hin.
    inversion Hin.
  - intros truck g truck1 g1 (HS & Hinp & Hinn) (Hid & Hkt) Htrip.
    destruct (trip_same_static _ _ _ _ Htrip) as (HS1 & Hid1 & Hempty & _).
    apply trip_Ok in Htrip
      as (truck2 & g2 & truck3 & dist & Hload & Hdel & _ & ->).
    destruct (same_static_search _ _ _ _ HS Hp)
      as (pg & Hpg & _ & Hgg & Hrg & _).
    assert (Hk2 : k ∉ Truck.packages truck2).
    { apply (load_truck_leaves_stranded (priority_packages g)
               (non_priority_packages g) truck g truck2 g2 k pg);
        try assumption.
      - eapply same_static_keys_ok; eauto.
      - congruence.
      - congruence.
      - congruence. }
    destruct (load_truck_frame _ _ _ _ _ _ Hload) as (_ & Hp2 & Hn2 & _).
    destruct (deliver_all_keeps_pending _ _ _ _ _ k Hk2 Hdel) as [Hp3 Hn3].
    split_and!.
    + eapply same_static_trans; eauto.
    + rewrite Hp3, Hp2. exact Hinp.
    + rewrite Hn3, Hn2. exact Hinn.
    + simpl in Hid1. simpl. congruence.
    + simpl in Hempty. simpl. rewrite Hempty. apply not_elem_of_nil.
Qed.

Lemma route_packages_never_completes_with_a_stranded_package_witness :
  route_packages 5 truck_list Scenario.G_stranded = None /\
  route_packages 5 truck_list Scenario.G_stranded
  <> Some (Ok (truck_list, Scenario.G_stranded)).
Proof.
  split; [vm_compute; reflexivity|].
  apply (route_packages_never_completes_with_a_stranded_package 5 truck_list
           truck_list Scenario.G_stranded Scenario.G_stranded 1
           (Package.mk 1 0 3 (time_of 8 0 0) 0 0 Scenario.end_of_day 1)).
  - apply keys_ok_check. vm_compute. reflexivity.
  - vm_compute. reflexivity.
  - reflexivity.
  - discriminate.
  - repeat constructor; try discriminate; apply not_elem_of_nil.
  - left.
  - apply not_elem_of_nil.
Defined.

(** ** The prompts *)

Lemma prompt_field_skips bound value bad n rest :
  value < 0 \/ bound < value -> Forall (rejected 0 bound) bad ->
  0 <= n <= bound ->
  prompt_field bound value (bad ++ Some n :: rest) = Ok (n, rest).
Proof.
  intros Hv Hbad Hn. revert value Hv.
  induction Hbad as [|line bad Hline _ IH]; intros value Hv; simpl.
  - replace ((value >? bound) || (value <? 0)) with true
      by (symmetry; apply orb_true_iff; lia).
    destruct rest; simpl;
      replace ((n >? bound) || (n <? 0)) with false
        by (symmetry; apply orb_false_iff; lia); reflexivity.
  - replace ((value >? bound) || (value <? 0)) with true
      by (symmetry; apply orb_true_iff; lia).
    apply IH. destruct line as [m|]; simpl in *; lia.
Qed.

Lemma prompt_field_Ok bound value inputs v rest :
  prompt_field bound value inputs = Ok (v, rest) -> 0 <= v <= bound.
Proof.
  revert value. induction inputs as [|line inputs IH]; intros value; simpl;
    destruct ((value >? bound) || (value <? 0)) eqn:Hc; try discriminate.
  - intros [= <- <-]. apply orb_false_iff in Hc. lia.
  - apply IH.
  - intros [= <- <-]. apply orb_false_iff in Hc. lia.
Qed.

Lemma prompt_field_Raise bound value inputs e :
  prompt_field bound value inputs = Raise e -> e = EOFError.
Proof.
  revert value. induction inputs as [|line inputs IH]; intros value; simpl;
    destruct ((value >? bound) || (value <? 0)); try discriminate.
  - intros [= <-]. reflexivity.
  - apply IH.
Qed.

Lemma py_time_Ok h m s :
  0 <= h <= 23 -> 0 <= m <= 59 -> 0 <= s <= 59 ->
  py_time h m s = Ok (time_of h m s).
Proof.
  intros Hh Hm Hs. unfold py_time.
  replace ((0 <=? h) && (h <=? 23) && (0 <=? m) && (m <=? 59)
           && (0 <=? s) && (s <=? 59)) with true; [reflexivity|].
  symmetry. rewrite !andb_true_iff. lia.
Qed.

(** X17.  [get_input_time] reads an hour, a minute and a second in this
    order; for each it skips the lines that are no integer or lie outside
    0..23 (0..59) and takes the first that lies inside; it returns the time
    made of the three and leaves the rest of the input unread. *)
Theorem get_input_time_takes_the_first_valid_entries (h m s : Z)
  (bad_h bad_m bad_s rest : list (option Z)) :
  Forall (rejected 0 23) bad_h -> 0 <= h <= 23 ->
  Forall (rejected 0 59) bad_m -> 0 <= m <= 59 ->
  Forall (rejected 0 59) bad_s -> 0 <= s <= 59 ->
  get_input_time (bad_h ++ Some h :: bad_m ++ Some m :: bad_s ++ Some s :: rest)
  = Ok (time_of h m s, rest).
Proof.
  intros Hbh Hh Hbm Hm Hbs Hs. unfold get_input_time.
  rewrite (prompt_field_skips 23 (-1) bad_h h) by (auto; lia). cbn [rbind].
  rewrite (prompt_field_skips 59 (-1) bad_m m) by (auto; lia). cbn [rbind].
  rewrite (prompt_field_skips 59 (-1) bad_s s) by (auto; lia). cbn [rbind].
  rewrite py_time_Ok by assumption. reflexivity.
Qed.

Lemma get_input_time_takes_the_first_valid_entries_witness :
  get_input_time ([Some 24; None] ++ Some 8 :: [Some (-1)] ++ Some 30
                  :: [] ++ Some 0 :: [Some 2])
  = Ok (time_of 8 30 0, [Some 2]).
Proof.
  apply (get_input_time_takes_the_first_valid_entries 8 30 0
           [Some 24; None] [Some (-1)] [] [Some 2]);
    try lia; repeat constructor; simpl; lia.
Defined.

(** X18.  Whatever is typed, [get_input_time] either runs out of input or
    returns a time of the day made of an hour in 0..23, a minute and a
    second in 0..59: the constructor of the time is never called with a
    value it rejects with ValueError. *)
Theorem get_input_time_returns_a_time_of_day (inputs : list (option Z)) :
  match get_input_time inputs with
  | Ok (t, rest) =>
      exists h m s, 0 <= h <= 23 /\ 0 <= m <= 59 /\ 0 <= s <= 59 /\
        t = time_of h m s /\ time_of 0 0 0 <= t <= time_of 23 59 59
  | Raise e => e = EOFError
  end.
Proof.
  unfold get_input_time.
  destruct (prompt_field 23 (-1) inputs) as [[h r1]|e] eqn:H1; cbn [rbind];
    [|eapply prompt_field_Raise; eauto].
  destruct (prompt_field 59 (-1) r1) as [[m r2]|e] eqn:H2; cbn [rbind];
    [|eapply prompt_field_Raise; eauto].
  destruct (prompt_field 59 (-1) r2) as [[s r3]|e] eqn:H3; cbn [rbind];
    [|eapply prompt_field_Raise; eauto].
  apply prompt_field_Ok in H1, H2, H3.
  rewrite py_time_Ok by assumption. cbn [rbind].
  exists h, m, s. split_and!; try lia; auto; unfold time_of; lia.
Qed.

Lemma prompt_package_id_skips value bad n rest G :
  value < 1 \/ num_packages G + 1 < value ->
  Forall (rejected 1 (num_packages G + 1)) bad ->
  1 <= n <= num_packages G + 1 ->
  prompt_package_id value (bad ++ Some n :: rest) G = Ok (n, rest).
Proof.
  intros Hv Hbad Hn. revert value Hv.
  induction Hbad as [|line bad Hline _ IH]; intros value Hv; simpl.
  - replace ((value <? 1) || (value >? num_packages G + 1)) with true
      by (symmetry; apply orb_true_iff; lia).
    destruct rest; simpl;
      replace ((n <? 1) || (n >? num_packages G + 1)) with false
        by (symmetry; apply orb_false_iff; lia); reflexivity.
  - replace ((value <? 1) || (value >? num_packages G + 1)) with true
      by (symmetry; apply orb_true_iff; lia).
    apply IH. destruct line as [m|]; simpl in *; lia.
Qed.

(** X19.  Option 2 skips the lines that are no integer or lie outside
    1..num_packages + 1, takes the first that lies inside as the package id,
    and when that id has a record it returns the status of the record at the
    query time. *)
Theorem option_2_takes_the_first_entry_in_range (user_time n : Z)
  (bad rest : list (option Z)) (G : Globals) (p : Package.t) :
  Forall (rejected 1 (num_packages G + 1)) bad ->
  1 <= n <= num_packages G + 1 ->
  search_package n G = Ok p ->
  prompt_package_id 0 (bad ++ Some n :: rest) G = Ok (n, rest) /\
  option_2 user_time (bad ++ Some n :: rest) G = Ok (status_at user_time p).
Proof.
  intros Hbad Hn Hp.
  assert (H : prompt_package_id 0 (bad ++ Some n :: rest) G = Ok (n, rest))
    by (apply prompt_package_id_skips; auto; lia).
  split; [exact H|]. unfold option_2. rewrite H. cbn [rbind]. rewrite Hp.
  reflexivity.
Qed.

Lemma option_2_takes_the_first_entry_in_range_witness :
  prompt_package_id 0 ([Some 0; None; Some 4] ++ Some 2 :: [Some 1])
    Scenario.run_grouped.2 = Ok (2, [Some 1]) /\
  option_2 (time_of 8 5 0) ([Some 0; None; Some 4] ++ Some 2 :: [Some 1])
    Scenario.run_grouped.2
  = Ok (status_at (time_of 8 5 0) (Scenario.record 2 Scenario.run_grouped.2)).
Proof.
  apply (option_2_takes_the_first_entry_in_range (time_of 8 5 0) 2
           [Some 0; None; Some 4] [Some 1] Scenario.run_grouped.2).
  - repeat constructor; vm_compute; intuition discriminate.
  - vm_compute. split; discriminate.
  - vm_compute. reflexivity.
Defined.

(** ** The status over time *)

(** X20.  For every record, whatever its three times, the status never goes
    back as the query time advances: from Unavailable through In Depot and
    En Route to Delivered. *)
Theorem status_never_goes_back (t1 t2 : Z) (p : Package.t) :
  t1 <= t2 ->
  status_rank (status_at t1 p) <= status_rank (status_at t2 p).
Proof.
  intros Ht. unfold status_at.
  destruct (Z.ltb_spec t1 (Package.time_available p));
    destruct (Z.ltb_spec t2 (Package.time_available p));
    destruct (Z.ltb_spec t1 (Package.time_pickup p));
    destruct (Z.ltb_spec t2 (Package.time_pickup p));
    destruct (Z.ltb_spec t1 (Package.time_delivered p));
    destruct (Z.ltb_spec t2 (Package.time_delivered p)); simpl; lia.
Qed.

Lemma status_never_goes_back_witness :
  status_rank (status_at (time_of 8 30 0)
                 (Scenario.record 2 Scenario.run_late.2))
  <= status_rank (status_at (time_of 10 30 0)
                    (Scenario.record 2 Scenario.run_late.2)).
Proof.
  apply (status_never_goes_back (time_of 8 30 0) (time_of 10 30 0)).
  vm_compute. discriminate.
Defined.

(** ** Option 1 *)

(** X21.  Option 1 looks up the ids 1, 2, ..., num_packages in this order.
    When each has a record it returns their statuses at the query time, one
    per id in this order; otherwise it raises what the access to the first
    id without a record raises. *)
Theorem option_1_lists_every_status (user_time : Z) (G : Globals) :
  match option_1 user_time G with
  | Ok l =>
      length l = Z.to_nat (num_packages G) /\
      forall k, 1 <= k <= num_packages G ->
        exists p, search_package k G = Ok p /\
          l !! Z.to_nat (k - 1) = Some (status_at user_time p)
  | Raise e =>
      exists k, 1 <= k <= num_packages G /\ search_package k G = Raise e /\
        forall j, 1 <= j < k -> exists p, search_package j G = Ok p
  end.
Proof.
  unfold option_1.
  match goal with |- context [?f (map Z.of_nat ?s)] => set (go := f) end.
  assert (Hgo : forall keys,
    match go keys with
    | Ok l =>
        length l = length keys /\
        forall i k, keys !! i = Some k ->
          exists p, search_package k G = Ok p /\
            l !! i = Some (status_at user_time p)
    | Raise e =>
        exists i k, keys !! i = Some k /\ search_package k G = Raise e /\
          forall j kj, (j < i)%nat -> keys !! j = Some kj ->
            exists p, search_package kj G = Ok p
    end).
  { induction keys as [|k keys IH]; simpl.
    - split; [reflexivity|]. intros i k Hi. discriminate.
    - destruct (search_package k G) as [p|e] eqn:Hk; cbn [rbind].
      + destruct (go keys) as [l|e]; cbn [rbind].
        * destruct IH as [Hlen Hl]. split; [simpl; lia|].
          intros [|i] k' Hi; simpl in Hi.
          -- injection Hi as <-. eauto.
          -- apply Hl. exact Hi.
        * destruct IH as (i & k' & Hi & Hk' & Hbefore).
          exists (S i), k'. split_and!; auto.
          intros [|j] kj Hj Hkj; simpl in Hkj.
          -- injection Hkj as <-. eauto.
          -- eapply Hbefore; [|exact Hkj]. lia.
      + exists 0%nat, k. split_and!; auto. intros j kj Hj. lia. }
  set (n := Z.to_nat (num_packages G)).
  assert (Hkeys : forall i, (i < n)%nat ->
            map Z.of_nat (seq 1 n) !! i = Some (Z.of_nat (S i))).
  { intros i Hi. change (map Z.of_nat (seq 1 n)) with (Z.of_nat <$> seq 1 n).
    rewrite list_lookup_fmap, lookup_seq_lt by exact Hi. reflexivity. }
  assert (Hrange : forall i k, map Z.of_nat (seq 1 n) !! i = Some k ->
            (i < n)%nat /\ k = Z.of_nat (S i)).
  { intros i k Hi. assert (Hlt : (i < n)%nat).
    { apply lookup_lt_Some in Hi. rewrite length_map, length_seq in Hi.
      exact Hi. }
    rewrite (Hkeys i Hlt) in Hi. injection Hi as <-. auto. }
  specialize (Hgo (map Z.of_nat (seq 1 n))).
  destruct (go (map Z.of_nat (seq 1 n))) as [l|e].
  - destruct Hgo as [Hlen Hl]. rewrite length_map, length_seq in Hlen.
    split; [exact Hlen|]. intros k Hk.
    apply (Hl (Z.to_nat (k - 1)) k).
    rewrite Hkeys by lia. f_equal. lia.
  - destruct Hgo as (i & k & Hi & Hk & Hbefore).
    destruct (Hrange i k Hi) as [Hlt ->].
    exists (Z.of_nat (S i)). split_and!; [lia | lia | exact Hk|].
    intros j Hj. apply (Hbefore (Z.to_nat (j - 1)) j); [lia|].
    rewrite Hkeys by lia. f_equal. lia.
Qed.

(** ** A full truck *)

(** X23.  A truck with 16 ids aboard loads nothing: the pass returns with the
    truck and the records as they were, whatever is pending, and looks no
    id up. *)
Theorem load_truck_on_a_full_truck (P N : list Z) (self : Truck.t)
  (G : Globals) :
  length (Truck.packages self) = 16%nat ->
  Truck.load_truck P N self G = Ok (self, G).
Proof.
  intros Hlen. unfold Truck.load_truck.
  rewrite load_priority_full by (rewrite Hlen; reflexivity). cbn [rbind].
  destruct N; simpl; [reflexivity|]. rewrite Hlen. reflexivity.
Qed.

Lemma load_truck_on_a_full_truck_witness :
  Truck.load_truck [40; 41] [42]
    (Truck.set_packages (Z.of_nat <$> seq 1 16) truck_1) Scenario.G_grouped
  = Ok (Truck.set_packages (Z.of_nat <$> seq 1 16) truck_1, Scenario.G_grouped).
Proof.
  apply (load_truck_on_a_full_truck [40; 41] [42]
           (Truck.set_packages (Z.of_nat <$> seq 1 16) truck_1)
           Scenario.G_grouped).
  reflexivity.
Defined.

(** ** The script *)

(** X24.  The script, on a file of rows with distinct ids and a distance
    table without negative entries: when the run completes, both pending
    lists are empty, trucks 1 and 2 are empty at the depot and have never
    had more than 16 ids aboard, and every row has its record, with the
    row's id, group, required truck, available time, deadline and
    destination, a pickup time not after its delivered time and, outside
    the groups, an available time not after its pickup time. *)
Theorem main_on_distinct_ids (locs : list Location.t) (rows : list Package.t)
  (fuel : nat) (trucks : list Truck.t) (G : Globals) :
  NoDup (Package.id <$> rows) ->
  (forall loc d, loc ∈ locs -> d ∈ Location.distances loc -> (0 <= d)%Q) ->
  main locs rows fuel = Some (Ok (trucks, G)) ->
  priority_packages G = [] /\ non_priority_packages G = [] /\
  Truck.truck_id <$> trucks = [1; 2] /\
  Forall (fun truck => Truck.packages truck = []
                       /\ Truck.location_id truck = 0
                       /\ (Truck.peak truck <= 16)%nat) trucks /\
  forall row, row ∈ rows ->
    exists p, search_package (Package.id row) G = Ok p /\
      static_eq row p /\
      Package.time_pickup p <= Package.time_delivered p /\
      (Package.group p = 0 ->
       Package.time_available p <= Package.time_pickup p).
Proof.
  intros Hnd HD Hmain. unfold main in Hmain.
  destruct (load_package_data_loaded locs rows Hnd) as (G0 & HG0 & HL).
  rewrite HG0 in Hmain.
  assert (HT : Forall (fun truck => Truck.packages truck = []
                                    /\ Truck.location_id truck = 0) truck_list)
    by (repeat constructor).
  destruct (route_packages_completed _ _ _ _ _ HT Hmain)
    as (Hp & Hn & Hids & HT' & HS).
  assert (HW : Forall within_capacity trucks).
  { eapply route_packages_capacity; [eapply loaded_counts_ok; eauto| |eauto].
    repeat constructor; simpl; lia. }
  assert (Hchain : forall k p, search_package k G = Ok p -> chain_ok p).
  { eapply route_packages_chain;
      [eapply loaded_keys_ok; eauto| |eapply loaded_settled; eauto| |eauto].
    - intros loc d. rewrite (lf_locations _ _ _ HL). apply HD.
    - repeat constructor. }
  split_and!; auto.
  - rewrite Forall_forall in HT', HW. apply Forall_forall. intros truck Hin.
    destruct (HT' truck Hin) as [He Hl]. destruct (HW truck Hin) as [_ Hpk].
    auto.
  - intros row Hrow.
    destruct (same_static_search _ _ _ _ HS (lf_rows _ _ _ HL row Hrow))
      as (p & Hp' & Hst).
    exists p. destruct (Hchain _ _ Hp') as [Hc1 Hc2]. auto.
Qed.

Lemma main_on_distinct_ids_witness :
  priority_packages Scenario.run_grouped.2 = [] /\
  non_priority_packages Scenario.run_grouped.2 = [] /\
  Truck.truck_id <$> Scenario.run_grouped.1 = [1; 2] /\
  Forall (fun truck => Truck.packages truck = []
                       /\ Truck.location_id truck = 0
                       /\ (Truck.peak truck <= 16)%nat) Scenario.run_grouped.1 /\
  forall row, row ∈ Scenario.grouped_rows ->
    exists p, search_package (Package.id row) Scenario.run_grouped.2 = Ok p /\
      static_eq row p /\
      Package.time_pickup p <= Package.time_delivered p /\
      (Package.group p = 0 ->
       Package.time_available p <= Package.time_pickup p).
Proof.
  apply (main_on_distinct_ids Scenario.three_locations Scenario.grouped_rows 1
           Scenario.run_grouped.1 Scenario.run_grouped.2).
  - apply (bool_decide_unpack _). vm_compute. exact I.
  - apply (distances_nonneg_check (start Scenario.three_locations)).
    vm_compute. reflexivity.
  - vm_compute. reflexivity.
Defined.
